(** * Rollout orchestration: the deploy job and the ECS rollout driver

    A shallow embedding of [cd/manager/jobs/deploy.go] (the resumable deploy
    job) and of the ECS deployment driver of package [aws], with the
    properties of the job state machine and of the cluster walk.

    Conventions.
    - A Go [error] is its message, [None] being [nil].
    - A function returning [(T, error)] returns the pair.
    - A call to an external collaborator (orchestration client, store,
      notifier, logger) is recorded as an event and answered by the world.
    - A Go map that is ranged over is an association list given in the order
      the [range] statement visits it; that order is unspecified in Go, so
      every statement quantifies over the list.  Maps that are only read and
      written by key are [gmap]s. *)

From Stdlib Require Import ZArith.
From stdpp Require Import gmap strings list fin_maps.

Local Open Scope Z_scope.

(* ===================================================================== *)
(** ** Go run-time conventions                                            *)
(* ===================================================================== *)

Module Go.

(** [error]: [nil] or a value whose [Error()] is the message. *)
Definition error := option string.

(** A run either returns or panics (failed type assertion, nil pointer
    dereference, index out of range). *)
Inductive outcome (A : Type) : Type :=
| Ret (a : A)
| Panic (msg : string).
Arguments Ret {A} a.
Arguments Panic {A} msg.

Section Exec.
Context {W E : Type}.

(** The result of running a computation from a world: what it produced,
    the world it leaves, and the external calls it made, oldest first. *)
Record run (A : Type) : Type := Run {
  out : outcome A;
  world : W;
  events : list E
}.
Arguments Run {A} out world events.
Arguments out {A} r.
Arguments world {A} r.
Arguments events {A} r.

Definition M (A : Type) : Type := W -> run A.

Definition ret {A} (a : A) : M A := fun w => Run (Ret a) w [].

Definition bind {A B} (m : M A) (f : A -> M B) : M B :=
  fun w =>
    let r := m w in
    match out r with
    | Ret a =>
        let r' := f a (world r) in
        Run (out r') (world r') (events r ++ events r')
    | Panic msg => Run (Panic msg) (world r) (events r)
    end.

Definition panic {A} (msg : string) : M A := fun w => Run (Panic msg) w [].

(** An external call: recorded, then answered by the world. *)
Definition call {A} (ev : E) (f : W -> A * W) : M A :=
  fun w => Run (Ret (fst (f w))) (snd (f w)) [ev].

(** An external call without a result. *)
Definition emit (ev : E) (f : W -> W) : M unit :=
  fun w => Run (Ret tt) (f w) [ev].

(** [*p] *)
Definition deref {A} (p : option A) : M A :=
  match p with
  | Some a => ret a
  | None => panic "invalid memory address or nil pointer dereference"
  end.

(** [s[0]] *)
Definition index0 {A} (s : list A) : M A :=
  match s with
  | a :: _ => ret a
  | [] => panic "index out of range [0] with length 0"
  end.

(** [for k, v := range m { body }] over a map whose values the body may
    update in place.  The body yields the value as it leaves it and
    [Some r] when it executes [return r]; the loop then stops, the
    entries not yet visited staying as they are. *)
Fixpoint range {K V R} (body : K -> V -> M (V * option R))
    (m : list (K * V)) : M (list (K * V) * option R) :=
  match m with
  | [] => ret ([], None)
  | (k, v) :: rest =>
      bind (body k v) (fun '(v', r) =>
        match r with
        | Some x => ret ((k, v') :: rest, Some x)
        | None =>
            bind (range body rest) (fun '(rest', r') =>
              ret ((k, v') :: rest', r'))
        end)
  end.

End Exec.

Arguments run : clear implicits.
Arguments M : clear implicits.
Arguments Run {W E A} out world events.
Arguments out {W E A} r.
Arguments world {W E A} r.
Arguments events {W E A} r.

Declare Scope go_scope.
Delimit Scope go_scope with go.
Notation "'let*' x ':=' c1 'in' c2" := (bind c1 (fun x => c2))
  (at level 10, x pattern, c1 at level 100, c2 at level 200,
   format "'[v' 'let*'  x  ':='  c1  'in' '/' c2 ']'") : go_scope.

End Go.

Import Go.
Local Open Scope go_scope.

(* ===================================================================== *)
(** ** Package [manager]: the declarations the two packages use           *)
(* ===================================================================== *)

Module Manager.

(** Modelled from the spec: the stage enumeration of package [manager],
    whose declaration is not among the sources.  The spec gives the states
    [Queued -> Started -> {Completed | Failed}]. *)
Inductive JobStage : Type :=
| JobStage_Queued
| JobStage_Started
| JobStage_Completed
| JobStage_Failed.

Definition JobStage_eqb (a b : JobStage) : bool :=
  match a, b with
  | JobStage_Queued, JobStage_Queued
  | JobStage_Started, JobStage_Started
  | JobStage_Completed, JobStage_Completed
  | JobStage_Failed, JobStage_Failed => true
  | _, _ => false
  end.

(** Modelled from the spec: the deployment-unit kind of package [manager]
    (services and plain tasks).  Both packages switch on it with a
    [default] branch that formats the value with [%s], so it is a string
    type with two named constants; [DeployType_Other s] is any other value. *)
Inductive DeployType : Type :=
| DeployType_Service
| DeployType_Task
| DeployType_Other (s : string).

(** The dynamic values ([interface{}]) that the parameter bag of a job
    holds, as far as [deploy.go] inspects them. *)
#[local] Unset Elimination Schemes.
Inductive Value : Type :=
| VString (s : string)
| VStrMap (m : list (string * Value))        (* map[string]interface{} *)
| VTypeMap (m : list (DeployType * Value))   (* map[DeployType]interface{} *)
| VOther (tag : string).                     (* a value of any other type *)
#[local] Set Elimination Schemes.

(** [manager.JobState], with the fields the job reads and writes.  [Ts] is
    an instant in nanoseconds. *)
Record JobState : Type := mkJobState {
  Stage : JobStage;
  Ts : Z;
  Params : gmap string Value
}.

(** The constants and the printer of package [manager] that [deploy.go]
    refers to; their values are not among the sources, so they are
    parameters of the development. *)
Class Consts : Type := {
  JobParam_Component : string;
  JobParam_Sha : string;
  JobParam_Error : string;
  Error_Timeout : string;
  DefaultFailureTime : Z;   (* a time.Duration, in nanoseconds *)
  PrintJob : JobState -> string
}.

(** [manager.Layout] and its parts, as package [aws] builds and walks them.
    The maps are ranged over, so they are association lists; the pointers
    to tasks, task sets and clusters are not shared between entries, so an
    in-place write through one of them is a functional update.  The three
    [Repo] fields above the task's are [TaskSetRepo], [ClusterRepo] and
    [LayoutRepo], and the [Tasks] field of a cluster is [ClusterTasks]. *)
Record Task : Type := mkTask {
  Id : string;
  Repo : string;
  Temp : bool
}.

Record TaskSet : Type := mkTaskSet {
  Tasks : list (string * Task);
  TaskSetRepo : string
}.

Record Cluster : Type := mkCluster {
  ServiceTasks : option TaskSet;     (* nil when absent *)
  ClusterTasks : option TaskSet;     (* field Tasks *)
  ClusterRepo : string
}.

Record Layout : Type := mkLayout {
  Clusters : list (string * Cluster);
  LayoutRepo : string
}.

(** The zero value [&manager.Task{}]. *)
Definition emptyTask : Task := mkTask "" "" false.

(** Modelled from the spec: the component and environment constants of
    package [manager].  [deploy.go] names the components in its error
    message (ceramic, ipfs, cas); the spec names the production
    environment. *)
Definition DeployComponent_Ceramic : string := "ceramic".
Definition DeployComponent_Ipfs : string := "ipfs".
Definition DeployComponent_Cas : string := "cas".
Definition EnvType_Prod : string := "prod".

End Manager.

Import Manager.

(* ===================================================================== *)
(** ** Package [jobs]: [cd/manager/jobs/deploy.go]                        *)
(* ===================================================================== *)

Module Jobs.

Definition LayoutParam : string := "layout".

(** The calls a deploy job makes on its collaborators. *)
Inductive Event : Type :=
| CallPopulateLayout (component : string)
| CallGetRegistryUri (component : string)
| CallUpdateService (cluster service image : string)
| CallUpdateTask (task image : string)
| CallCheckService (cluster service id : string)
| CallUpdateBuildHash (component sha : string)
| CallUpdateDeployHash (component sha : string)
| CallNotifyJob (st : JobState)
| CallUpdateJob (st : JobState)
| Log (msg : string).

Section Interfaces.
Context {W : Type}.

(** [manager.Database], as far as the job uses it. *)
Record Database : Type := {
  UpdateBuildHash : string -> string -> W -> error * W;
  UpdateDeployHash : string -> string -> W -> error * W;
  UpdateJob : JobState -> W -> error * W
}.

(** [manager.Deployment], in the version [deploy.go] is written against. *)
Record Deployment : Type := {
  PopulateLayout : string -> W -> (list (string * Value) * error) * W;
  GetRegistryUri : string -> W -> (string * error) * W;
  UpdateService : string -> string -> string -> W -> (string * error) * W;
  UpdateTask : string -> string -> W -> (string * error) * W;
  CheckService : string -> string -> string -> W -> (bool * error) * W
}.

(** [manager.Notifs]. *)
Record Notifs : Type := {
  NotifyJob : JobState -> W -> W
}.

Record deployJob : Type := mkDeployJob {
  state : JobState;
  db : Database;
  d : Deployment;
  notifs : Notifs;
  component : string;
  sha : string;
  registryUri : string
}.
End Interfaces.

Arguments Database : clear implicits.
Arguments Deployment : clear implicits.
Arguments Notifs : clear implicits.
Arguments deployJob : clear implicits.

Section Job.
Context {W : Type} {mc : Consts}.

Local Abbreviation M := (Go.M W Event).

(** [v, found := x.(string)] on the result of a map lookup. *)
Definition asString (x : option Value) : string * bool :=
  match x with
  | Some (VString s) => (s, true)
  | _ => ("", false)
  end.

(** [x.(map[string]interface{})] *)
Definition asStrMap (x : option Value) : M (list (string * Value)) :=
  match x with
  | Some (VStrMap m) => ret m
  | _ => panic "interface conversion: interface {} is not map[string]interface {}"
  end.

(** [x.(map[manager.DeployType]interface{})] *)
Definition asTypeMap (x : Value) : M (list (DeployType * Value)) :=
  match x with
  | VTypeMap m => ret m
  | _ => panic "interface conversion: interface {} is not map[manager.DeployType]interface {}"
  end.

(** [x.(string)] *)
Definition asStr (x : Value) : M string :=
  match x with
  | VString s => ret s
  | _ => panic "interface conversion: interface {} is not string"
  end.

Definition log (msg : string) : M unit := emit (Log msg) (fun w => w).

(** [DeployJob]: the constructor.  [jobState.Params] is a map, so the
    write of line 39 is seen by the caller too; the job returned holds
    the state with the parameters as the constructor leaves them. *)
Definition DeployJob (db : Database W) (d : Deployment W) (notifs : Notifs W)
    (jobState : JobState) : M (option (deployJob W) * error) :=
  let '(component, found) := asString (Params jobState !! JobParam_Component) in
  if negb found then
    ret (None, Some "deployJob: missing component (ceramic, ipfs, cas)")
  else
    let '(sha, found) := asString (Params jobState !! JobParam_Sha) in
    if negb found then
      ret (None, Some "deployJob: missing sha")
    else
      let c := component in
      let* (clusterLayout, err) := call (CallPopulateLayout c) (PopulateLayout d c) in
      match err with
      | Some e => ret (None, Some e)
      | None =>
          let* (registryUri, err) := call (CallGetRegistryUri c) (GetRegistryUri d c) in
          match err with
          | Some e => ret (None, Some e)
          | None =>
              (* Only overwrite the cluster layout if it wasn't already present. *)
              let params :=
                match Params jobState !! LayoutParam with
                | Some _ => Params jobState
                | None => <[LayoutParam := VStrMap clusterLayout]> (Params jobState)
                end in
              let jobState := mkJobState (Stage jobState) (Ts jobState) params in
              ret (Some (mkDeployJob jobState db d notifs c sha registryUri), None)
          end
      end.

(** The three nested loops of [updateCluster], innermost first.  An
    identifier returned by the client replaces the entry's value. *)
Definition updateCluster_service (j : deployJob W) (cluster image : string)
    (service : string) (v : Value) : M (Value * option string) :=
  let* (id, err) := call (CallUpdateService cluster service image)
                          (UpdateService (d j) cluster service image) in
  match err with
  | Some e => ret (v, Some e)
  | None => ret (VString id, None)
  end.

Definition updateCluster_task (j : deployJob W) (image : string)
    (task : string) (v : Value) : M (Value * option string) :=
  let* (id, err) := call (CallUpdateTask task image)
                          (UpdateTask (d j) task image) in
  match err with
  | Some e => ret (v, Some e)
  | None => ret (VString id, None)
  end.

Definition updateCluster_type (j : deployJob W) (cluster image : string)
    (deployType : DeployType) (deployLayout : Value) : M (Value * option string) :=
  match deployType with
  | DeployType_Service =>
      let* m := asStrMap (Some deployLayout) in
      let* (m', err) := range (updateCluster_service j cluster image) m in
      ret (VStrMap m', err)
  | DeployType_Task =>
      let* m := asStrMap (Some deployLayout) in
      let* (m', err) := range (updateCluster_task j image) m in
      ret (VStrMap m', err)
  | DeployType_Other s =>
      ret (deployLayout, Some ("updateCluster: invalid deploy type: " +:+ s))
  end.

Definition updateCluster_cluster (j : deployJob W) (image : string)
    (cluster : string) (typeLayout : Value) : M (Value * option string) :=
  let* m := asTypeMap typeLayout in
  let* (m', err) := range (updateCluster_type j cluster image) m in
  ret (VTypeMap m', err).

(** [updateCluster]: yields the parameter bag with the layout as the
    loops leave it, and the error. *)
Definition updateCluster (j : deployJob W) : M (gmap string Value * error) :=
  let image := registryUri j +:+ ":" +:+ sha j in
  let params := Params (state j) in
  let* m := asStrMap (params !! LayoutParam) in
  let* (m', err) := range (updateCluster_cluster j image) m in
  ret (<[LayoutParam := VStrMap m']> params, err).

(** The loops of [checkCluster]; they write nothing, and [Some r] is the
    [return r] that leaves the function. *)
Definition checkCluster_service (j : deployJob W) (cluster : string)
    (service : string) (id : Value) : M (Value * option (bool * error)) :=
  let* ids := asStr id in
  let* (deployed, err) := call (CallCheckService cluster service ids)
                                (CheckService (d j) cluster service ids) in
  match err with
  | Some e => ret (id, Some (false, Some e))
  | None => if negb deployed then ret (id, Some (false, None)) else ret (id, None)
  end.

Definition checkCluster_type (j : deployJob W) (cluster : string)
    (deployType : DeployType) (deployLayout : Value)
    : M (Value * option (bool * error)) :=
  match deployType with
  | DeployType_Service =>
      let* m := asStrMap (Some deployLayout) in
      let* (_, r) := range (checkCluster_service j cluster) m in
      ret (deployLayout, r)
  | DeployType_Task => ret (deployLayout, None)
  | DeployType_Other s =>
      ret (deployLayout,
           Some (false, Some ("checkCluster: invalid deploy type: " +:+ s)))
  end.

Definition checkCluster_cluster (j : deployJob W)
    (cluster : string) (typeLayout : Value) : M (Value * option (bool * error)) :=
  let* m := asTypeMap typeLayout in
  let* (_, r) := range (checkCluster_type j cluster) m in
  ret (typeLayout, r).

Definition checkCluster (j : deployJob W) : M (bool * error) :=
  let* m := asStrMap (Params (state j) !! LayoutParam) in
  let* (_, r) := range (checkCluster_cluster j) m in
  match r with
  | Some res => ret res
  | None => ret (true, None)
  end.

(** Lines 85-89: notify on started/completed/failed, then persist. *)
Definition notifyAndPersist (j : deployJob W) (st : JobState) : M (JobState * error) :=
  let* _ :=
    if JobStage_eqb (Stage st) JobStage_Started
       || JobStage_eqb (Stage st) JobStage_Failed
       || JobStage_eqb (Stage st) JobStage_Completed
    then emit (CallNotifyJob st) (NotifyJob (notifs j) st)
    else ret tt in
  let* err := call (CallUpdateJob st) (UpdateJob (db j) st) in
  ret (st, err).

Definition setStage (st : JobState) (s : JobStage) : JobState :=
  mkJobState s (Ts st) (Params st).

Definition setParams (st : JobState) (p : gmap string Value) : JobState :=
  mkJobState (Stage st) (Ts st) p.

Definition setParam (st : JobState) (k : string) (v : Value) : JobState :=
  setParams st (<[k := v]> (Params st)).

(** [AdvanceJob].  [now] is the reading of [time.Now()]; instants are
    integers, so [time.Now().Add(-D).After(ts)] is [ts < now - D].  The
    receiver is a copy, so the stage is written to the copy that is
    returned, while the parameter bag is the shared map. *)
Definition AdvanceJob (j : deployJob W) (now : Z) : M (JobState * error) :=
  let st := state j in
  if JobStage_eqb (Stage st) JobStage_Queued then
    let* (params, err) := updateCluster j in
    let st := setParams st params in
    match err with
    | Some e =>
        let st := setStage st JobStage_Failed in
        let st := setParam st JobParam_Error (VString e) in
        let* _ := log ("deployJob: error updating service: " +:+ e +:+ ", " +:+ PrintJob st) in
        notifyAndPersist j st
    | None =>
        let st := setStage st JobStage_Started in
        (* For started deployments update the build commit hash in the DB. *)
        let* err := call (CallUpdateBuildHash (component j) (sha j))
                         (UpdateBuildHash (db j) (component j) (sha j)) in
        let* _ :=
          match err with
          | Some e => log ("deployJob: failed to update build hash: " +:+ e +:+ ", " +:+ PrintJob st)
          | None => ret tt
          end in
        notifyAndPersist j st
    end
  else if Z.ltb (Ts st) (now - DefaultFailureTime) then
    let st := setStage st JobStage_Failed in
    let st := setParam st JobParam_Error (VString Error_Timeout) in
    let* _ := log ("deployJob: job timed out: " +:+ PrintJob st) in
    notifyAndPersist j st
  else if JobStage_eqb (Stage st) JobStage_Started then
    (* Check if all service updates completed *)
    let* (running, err) := checkCluster j in
    match err with
    | Some e =>
        let st := setStage st JobStage_Failed in
        let st := setParam st JobParam_Error (VString e) in
        let* _ := log ("deployJob: error checking services running status: " +:+ e +:+ ", " +:+ PrintJob st) in
        notifyAndPersist j st
    | None =>
        if running then
          let st := setStage st JobStage_Completed in
          let* err := call (CallUpdateDeployHash (component j) (sha j))
                           (UpdateDeployHash (db j) (component j) (sha j)) in
          let* _ :=
            match err with
            | Some e => log ("deployJob: failed to update deploy hash: " +:+ e +:+ ", " +:+ PrintJob st)
            | None => ret tt
            end in
          notifyAndPersist j st
        else
          (* Return so we come back again to check *)
          ret (st, None)
    end
  else
    (* There's nothing left to do so we shouldn't have reached here *)
    ret (st, Some ("deployJob: unexpected state: " +:+ PrintJob st)).

End Job.

(** The job state an event hands to the notifier or to the store. *)
Definition stateOf (ev : Event) : option JobState :=
  match ev with
  | CallNotifyJob st | CallUpdateJob st => Some st
  | _ => None
  end.

End Jobs.

(* ===================================================================== *)
(** ** Package [aws]: the ECS deployment driver                           *)
(* ===================================================================== *)

Module Aws.

(** *** The part of the ECS API the driver touches.  A [*string] field
    that the driver dereferences is an [option string]. *)

Record EcsDeployment : Type := mkEcsDeployment {
  DeploymentTaskDefinition : option string;
  RunningCount : Z
}.

Record EcsService : Type := mkEcsService {
  ServiceTaskDefinition : option string;
  Deployments : list EcsDeployment
}.

Record Failure : Type := mkFailure {
  Arn : option string;
  Detail : option string;
  Reason : option string
}.

Record DescribeServicesOutput : Type := mkDescribeServicesOutput {
  Services : list EcsService;
  Failures : list Failure
}.

Record ContainerDefinition : Type := mkContainerDefinition {
  Image : option string;
  ContainerSettings : string   (* every other field of the container *)
}.

(** [Carried] stands for the fourteen fields that a registration takes
    over unchanged from the described definition ([Cpu] ... [Volumes]). *)
Record TaskDefinition : Type := mkTaskDefinition {
  ContainerDefinitions : list ContainerDefinition;
  Family : option string;
  Carried : string;
  TaskDefinitionArn : option string
}.

Record RegisterTaskDefinitionInput : Type := mkRegisterTaskDefinitionInput {
  RegContainerDefinitions : list ContainerDefinition;
  RegFamily : option string;
  RegCarried : string;
  RegTags : list (string * string)
}.

Record UpdateServiceInput : Type := mkUpdateServiceInput {
  UpdService : string;
  UpdCluster : string;
  UpdDesiredCount : Z;
  UpdEnableExecuteCommand : bool;
  UpdForceNewDeployment : bool;
  UpdTaskDefinition : string
}.

(** [types.DesiredStatusRunning], [types.DesiredStatusStopped] and
    [types.SortOrderDesc] of the AWS SDK. *)
Definition DesiredStatusRunning : string := "RUNNING".
Definition DesiredStatusStopped : string := "STOPPED".
Definition SortOrderDesc : string := "DESC".

(** The calls the driver makes, with their inputs. *)
Inductive Event : Type :=
| EcsDescribeServices (cluster : string) (services : list string)
| EcsDescribeTaskDefinition (taskDefinition : string)
| EcsRegisterTaskDefinition (input : RegisterTaskDefinitionInput)
| EcsUpdateService (input : UpdateServiceInput)
| EcsListTaskDefinitions (familyPrefix : string) (maxResults : Z) (sort : string)
| EcsListTasks (cluster desiredStatus family : string)
| EcsStopTask (task cluster : string)
| EcsDescribeTasks (cluster : string) (tasks : list string)
| Log (msg : string).

(** A force-stop of running instances: listing the running tasks of a
    family in order to stop them, and stopping one. *)
Definition isStop (ev : Event) : bool :=
  match ev with
  | EcsListTasks _ _ _ | EcsStopTask _ _ => true
  | _ => false
  end.

Section Client.
Context {W : Type}.

(** [*ecs.Client]. *)
Record EcsClient : Type := {
  DescribeServices : string -> list string -> W -> (DescribeServicesOutput * error) * W;
  DescribeTaskDefinition : string -> W -> (option TaskDefinition * error) * W;
  RegisterTaskDefinition : RegisterTaskDefinitionInput -> W -> (option TaskDefinition * error) * W;
  UpdateService : UpdateServiceInput -> W -> error * W;
  ListTaskDefinitions : string -> Z -> string -> W -> (list string * error) * W;
  ListTasks : string -> string -> string -> W -> (list string * error) * W;
  StopTask : string -> string -> W -> error * W;
  (* the [LastStatus] of each task found *)
  DescribeTasks : string -> list string -> W -> (list (option string) * error) * W
}.

(** [Ecs]; the SSM client serves only the one-shot launches. *)
Record Ecs : Type := mkEcs {
  ecsClient : EcsClient;
  env : string;
  ecrUri : string
}.
End Client.

Arguments EcsClient : clear implicits.
Arguments Ecs : clear implicits.

(** [manager.ResourceTag], whose value is not among the sources. *)
Class Tagging : Type := { ResourceTag : string }.

(** *** Formatting *)

Record ecsFailure : Type := mkEcsFailure {
  arn : string;
  detail : string;
  reason : string
}.

Definition orEmpty (p : option string) : string :=
  match p with Some s => s | None => "" end.

Definition parseEcsFailures (ecsFailures : list Failure) : list ecsFailure :=
  List.map (fun f => mkEcsFailure (orEmpty (Arn f)) (orEmpty (Detail f)) (orEmpty (Reason f)))
           ecsFailures.

Fixpoint joinWith (sep : string) (l : list string) : string :=
  match l with
  | [] => ""
  | [s] => s
  | s :: rest => s +:+ sep +:+ joinWith sep rest
  end.

(** [%v] and [%s] of a slice of strings. *)
Definition fmtStrings (l : list string) : string :=
  "[" +:+ joinWith " " l +:+ "]".

(** [%v] of a slice of failures. *)
Definition fmtFailures (l : list ecsFailure) : string :=
  fmtStrings (List.map (fun f => "{" +:+ arn f +:+ " " +:+ detail f +:+ " " +:+ reason f +:+ "}") l).

(** [len(s) > 0] *)
Definition nonEmpty (s : string) : bool :=
  match s with
  | EmptyString => false
  | String _ _ => true
  end.

(** [m[k] = v] on a map kept as an association list. *)
Fixpoint mapSet {V} (k : string) (v : V) (m : list (string * V)) : list (string * V) :=
  match m with
  | [] => [(k, v)]
  | (k', v') :: rest =>
      if String.eqb k k' then (k, v) :: rest else (k', v') :: mapSet k v rest
  end.

(** A write through the pointer [m[k]]. *)
Fixpoint mapAlter {V} (f : V -> V) (k : string) (m : list (string * V)) : list (string * V) :=
  match m with
  | [] => []
  | (k', v') :: rest =>
      if String.eqb k k' then (k', f v') :: rest else (k', v') :: mapAlter f k rest
  end.

(** *** Topology resolution *)

Definition serviceSet (names : list string) : option TaskSet :=
  Some (mkTaskSet (List.map (fun n => (n, emptyTask)) names) "").

Definition addServiceTask (name : string) (c : Cluster) : Cluster :=
  match ServiceTasks c with
  | Some ts =>
      mkCluster (Some (mkTaskSet (mapSet name emptyTask (Tasks ts)) (TaskSetRepo ts)))
                (ClusterTasks c) (ClusterRepo c)
  | None => c
  end.

(** [PopulateEnvLayout].  [getenv] is [os.Getenv]. *)
Definition PopulateEnvLayout {W} (e : Ecs W) (getenv : string -> string)
    (component : string) : option Layout * error :=
  let ServiceSuffix_CeramicNode := "node" in
  let ServiceSuffix_CeramicGateway := "gateway" in
  let ServiceSuffix_Elp11CeramicNode := "elp-1-1-node" in
  let ServiceSuffix_Elp12CeramicNode := "elp-1-2-node" in
  let ServiceSuffix_IpfsNode := "ipfs-nd" in
  let ServiceSuffix_IpfsGateway := "ipfs-gw" in
  let ServiceSuffix_Elp11IpfsNode := "elp-1-1-ipfs-nd" in
  let ServiceSuffix_Elp12IpfsNode := "elp-1-2-ipfs-nd" in
  let ServiceSuffix_CasApi := "api" in
  let ServiceSuffix_CasScheduler := "scheduler" in
  let ServiceSuffix_CasRunner := "anchor" in
  let env_ := getenv "ENV" in
  let globalPrefix := "ceramic" in
  let privateCluster := globalPrefix +:+ "-" +:+ env_ in
  let publicCluster := globalPrefix +:+ "-" +:+ env_ +:+ "-ex" in
  let casCluster := globalPrefix +:+ "-" +:+ env_ +:+ "-cas" in
  let threeClusters (node gateway : string) : list (string * Cluster) :=
    mapSet casCluster
      (mkCluster (serviceSet [casCluster +:+ "-" +:+ node]) None "")
      (mapSet publicCluster
        (mkCluster (Some (mkTaskSet
                     (mapSet (publicCluster +:+ "-" +:+ gateway) emptyTask
                       [(publicCluster +:+ "-" +:+ node, emptyTask)]) ""))
                   None "")
        [(privateCluster,
          mkCluster (serviceSet [privateCluster +:+ "-" +:+ node]) None "")]) in
  let addProd (a b : string) (clusters : list (string * Cluster)) :=
    mapAlter (addServiceTask (globalPrefix +:+ "-" +:+ b)) publicCluster
      (mapAlter (addServiceTask (globalPrefix +:+ "-" +:+ a)) publicCluster clusters) in
  if String.eqb component DeployComponent_Ceramic then
    let clusters := threeClusters ServiceSuffix_CeramicNode ServiceSuffix_CeramicGateway in
    let clusters :=
      if String.eqb (env e) EnvType_Prod
      then addProd ServiceSuffix_Elp11CeramicNode ServiceSuffix_Elp12CeramicNode clusters
      else clusters in
    (Some (mkLayout clusters ("ceramic-" +:+ env_)), None)
  else if String.eqb component DeployComponent_Ipfs then
    let clusters := threeClusters ServiceSuffix_IpfsNode ServiceSuffix_IpfsGateway in
    let clusters :=
      if String.eqb (env e) EnvType_Prod
      then addProd ServiceSuffix_Elp11IpfsNode ServiceSuffix_Elp12IpfsNode clusters
      else clusters in
    (Some (mkLayout clusters ("go-ipfs-" +:+ env_)), None)
  else if String.eqb component DeployComponent_Cas then
    (Some (mkLayout
       [(casCluster,
         mkCluster
           (Some (mkTaskSet
              (mapSet (casCluster +:+ "-" +:+ ServiceSuffix_CasScheduler) emptyTask
                 [(casCluster +:+ "-" +:+ ServiceSuffix_CasApi, emptyTask)]) ""))
           (Some (mkTaskSet
              [(casCluster +:+ "-" +:+ ServiceSuffix_CasRunner,
                mkTask "" ("ceramic-" +:+ env_ +:+ "-cas-runner") true)] ""))
           "")]
       ("ceramic-" +:+ env_ +:+ "-cas")), None)
  else
    (None, Some ("deployJob: unexpected component: " +:+ component)).

(** *** The driver *)

Section Driver.
Context {W : Type} {tg : Tagging}.
Variable e : Ecs W.

Local Abbreviation M := (Go.M W Event).

Definition log (msg : string) : M unit := emit (Log msg) (fun w => w).

(** [CheckTask(running, cluster, taskArn...)] *)
Definition CheckTask (running : bool) (cluster : string) (taskArn : list string)
    : M (bool * error) :=
  let* (output, err) := call (EcsDescribeTasks cluster taskArn)
                             (DescribeTasks (ecsClient e) cluster taskArn) in
  match err with
  | Some msg =>
      let* _ := log ("checkTask: describe service error: " +:+ cluster +:+ ", "
                     +:+ fmtStrings taskArn +:+ ", " +:+ msg) in
      ret (false, Some msg)
  | None =>
      let checkStatus := if running then DesiredStatusRunning else DesiredStatusStopped in
      (* Check whether the specified tasks are running *)
      match output with
      | _ :: _ =>
          (* only return true if all specified tasks were in the right state *)
          (fix each (tasks : list (option string)) : M (bool * error) :=
             match tasks with
             | [] => ret (true, None)
             | lastStatus :: rest =>
                 let* s := deref lastStatus in
                 if negb (String.eqb s checkStatus) then ret (false, None) else each rest
             end) output
      | [] => ret (false, None)
      end
  end.

(** [describeEcsService]: a nil output together with the error. *)
Definition describeEcsService (cluster service : string)
    : M (option DescribeServicesOutput * error) :=
  let* (output, err) := call (EcsDescribeServices cluster [service])
                             (DescribeServices (ecsClient e) cluster [service]) in
  match err with
  | Some msg =>
      let* _ := log ("describeEcsService: " +:+ service +:+ ", " +:+ cluster +:+ ", " +:+ msg) in
      ret (None, Some msg)
  | None =>
      match Failures output with
      | _ :: _ =>
          let ecsFailures := parseEcsFailures (Failures output) in
          let* _ := log ("describeEcsService: failure: " +:+ service +:+ ", " +:+ cluster
                         +:+ ", " +:+ fmtFailures ecsFailures) in
          ret (None, Some (fmtFailures ecsFailures))
      | [] => ret (Some output, None)
      end
  end.

(** [taskDef.ContainerDefinitions[0].Image = img] *)
Definition setFirstImage (img : string) (cds : list ContainerDefinition)
    : M (list ContainerDefinition) :=
  match cds with
  | cd :: rest => ret (mkContainerDefinition (Some img) (ContainerSettings cd) :: rest)
  | [] => panic "index out of range [0] with length 0"
  end.

Definition updateEcsTaskDefinition (taskDefArn image : string) : M (string * error) :=
  let* (descTaskDefOutput, err) :=
    call (EcsDescribeTaskDefinition taskDefArn)
         (DescribeTaskDefinition (ecsClient e) taskDefArn) in
  match err with
  | Some msg =>
      let* _ := log ("updateEcsTaskDefinition: describe task def error: " +:+ taskDefArn
                     +:+ ", " +:+ image +:+ ", " +:+ msg) in
      ret ("", Some msg)
  | None =>
      (* Register a new task definition with an updated image *)
      let* taskDef := deref descTaskDefOutput in
      let* cds := setFirstImage (ecrUri e +:+ image) (ContainerDefinitions taskDef) in
      let regTaskDefInput :=
        mkRegisterTaskDefinitionInput cds (Family taskDef) (Carried taskDef)
          [(ResourceTag, env e)] in
      let* (regTaskDefOutput, err) :=
        call (EcsRegisterTaskDefinition regTaskDefInput)
             (RegisterTaskDefinition (ecsClient e) regTaskDefInput) in
      match err with
      | Some msg =>
          let* _ := log ("updateEcsTaskDefinition: register task def error: " +:+ taskDefArn
                         +:+ ", " +:+ image +:+ ", " +:+ msg) in
          ret ("", Some msg)
      | None =>
          let* registered := deref regTaskDefOutput in
          let* newArn := deref (TaskDefinitionArn registered) in
          ret (newArn, None)
      end
  end.

Definition stopEcsTasks (cluster family : string) : M error :=
  let* (taskArns, err) := call (EcsListTasks cluster DesiredStatusRunning family)
                               (ListTasks (ecsClient e) cluster DesiredStatusRunning family) in
  match err with
  | Some msg =>
      let* _ := log ("stopEcsTasks: list tasks error: " +:+ cluster +:+ ", " +:+ family
                     +:+ ", " +:+ msg) in
      ret (Some msg)
  | None =>
      (fix each (arns : list string) : M error :=
         match arns with
         | [] => ret None
         | taskArn :: rest =>
             let* err := call (EcsStopTask taskArn cluster)
                              (StopTask (ecsClient e) taskArn cluster) in
             match err with
             | Some msg =>
                 let* _ := log ("stopEcsTasks: stop task error: " +:+ cluster +:+ ", "
                                +:+ family +:+ ", " +:+ msg) in
                 ret (Some msg)
             | None => each rest
             end
         end) taskArns
  end.

(** [updateEcsService].  The errors of the first two calls are
    overwritten without being looked at (lines 322 and 325); the nil
    output of a failed description is dereferenced. *)
Definition updateEcsService (cluster service image : string) (transientTask : bool)
    : M (string * error) :=
  (* Describe service to get task definition ARN *)
  let* (descSvcOutput, _) := describeEcsService cluster service in
  (* Describe task to get full task definition *)
  let* output := deref descSvcOutput in
  let* svc := index0 (Services output) in
  let* taskDefArn := deref (ServiceTaskDefinition svc) in
  let* (newTaskDefArn, _) := updateEcsTaskDefinition taskDefArn image in
  (* Update the service to use the new task definition *)
  let updateSvcInput := mkUpdateServiceInput service cluster 1 true false newTaskDefArn in
  let* err := call (EcsUpdateService updateSvcInput)
                   (UpdateService (ecsClient e) updateSvcInput) in
  match err with
  | Some msg =>
      let* _ := log ("updateEcsService: update service error: " +:+ cluster +:+ ", "
                     +:+ service +:+ ", " +:+ image +:+ ", " +:+ msg) in
      ret ("", Some msg)
  | None =>
      if negb transientTask then
        (* Stop all permanently running tasks in the service *)
        let* err := stopEcsTasks cluster service in
        match err with
        | Some msg =>
            let* _ := log ("updateEcsService: stop tasks error: " +:+ cluster +:+ ", "
                           +:+ service +:+ ", " +:+ image +:+ ", " +:+ msg) in
            ret ("", Some msg)
        | None => ret (newTaskDefArn, None)
        end
      else ret (newTaskDefArn, None)
  end.

Definition updateEcsTask (cluster family image : string) (transientTask : bool)
    : M (string * error) :=
  (* Get the latest task definition ARN *)
  let* (taskDefinitionArns, err) :=
    call (EcsListTaskDefinitions family 1 SortOrderDesc)
         (ListTaskDefinitions (ecsClient e) family 1 SortOrderDesc) in
  match err with
  | Some msg => ret ("", Some msg)
  | None =>
      let* stopped :=
        if negb transientTask then
          (* Stop all permanently running tasks in the service *)
          let* err := stopEcsTasks cluster family in
          match err with
          | Some msg =>
              let* _ := log ("updateEcsTask: stop tasks error: " +:+ cluster +:+ ", "
                             +:+ image +:+ ", " +:+ msg) in
              ret (Some msg)
          | None => ret None
          end
        else ret None in
      match stopped with
      | Some msg => ret ("", Some msg)
      | None =>
          let* taskDefArn := index0 taskDefinitionArns in
          updateEcsTaskDefinition taskDefArn image
      end
  end.

Definition checkEcsService (cluster service taskDefArn : string) : M (bool * error) :=
  (* Describe service to get deployment status *)
  let* (descOutput, err) := call (EcsDescribeServices cluster [service])
                                 (DescribeServices (ecsClient e) cluster [service]) in
  match err with
  | Some msg =>
      let* _ := log ("checkEcsService: describe service error: " +:+ cluster +:+ ", "
                     +:+ service +:+ ", " +:+ taskDefArn +:+ ", " +:+ msg) in
      ret (false, Some msg)
  | None =>
      match Failures descOutput with
      | _ :: _ =>
          let ecsFailures := parseEcsFailures (Failures descOutput) in
          let* _ := log ("checkEcsService: describe service error: " +:+ cluster +:+ ", "
                         +:+ service +:+ ", " +:+ taskDefArn +:+ ", "
                         +:+ fmtFailures ecsFailures) in
          ret (false, Some (fmtFailures ecsFailures))
      | [] =>
          (* Look for deployments using the new task definition with at
             least 1 running task. *)
          let* svc := index0 (Services descOutput) in
          (fix each (ds : list EcsDeployment) : M (bool * error) :=
             match ds with
             | [] => ret (false, None)
             | deployment :: rest =>
                 let* td := deref (DeploymentTaskDefinition deployment) in
                 if String.eqb td taskDefArn && (0 <? RunningCount deployment)
                 then ret (true, None)
                 else each rest
             end) (Deployments svc)
      end
  end.

Definition setId (task : Task) (id : string) : Task :=
  mkTask id (Repo task) (Temp task).

Definition updateEnvServiceTask (task : Task) (cluster service taskSetRepo commitHash : string)
    : M (Task * error) :=
  let taskRepo := if nonEmpty (Repo task) then Repo task else taskSetRepo in
  let* (id, err) := updateEcsService cluster service (taskRepo +:+ ":" +:+ commitHash)
                                     (Temp task) in
  match err with
  | Some msg => ret (task, Some msg)
  | None => ret (setId task id, None)
  end.

Definition updateEnvTask (task : Task) (cluster taskName taskSetRepo commitHash : string)
    : M (Task * error) :=
  let taskRepo := if nonEmpty (Repo task) then Repo task else taskSetRepo in
  let* (id, err) := updateEcsTask cluster taskName (taskRepo +:+ ":" +:+ commitHash)
                                  (Temp task) in
  match err with
  | Some msg => ret (task, Some msg)
  | None => ret (setId task id, None)
  end.

(** The body of the loop of [updateEnvTaskSet]. *)
Definition updateEnvTaskSet_body (taskSet : TaskSet) (deployType : DeployType)
    (cluster clusterRepo commitHash : string)
    (taskSetName : string) (task : Task) : M (Task * option string) :=
  let taskSetRepo := if nonEmpty (TaskSetRepo taskSet) then TaskSetRepo taskSet
                     else clusterRepo in
  match deployType with
  | DeployType_Service =>
      updateEnvServiceTask task cluster taskSetName taskSetRepo commitHash
  | DeployType_Task =>
      updateEnvTask task cluster taskSetName taskSetRepo commitHash
  | DeployType_Other s =>
      ret (task, Some ("updateTaskSet: invalid deploy type: " +:+ s))
  end.

Definition updateEnvTaskSet (taskSet : option TaskSet) (deployType : DeployType)
    (cluster clusterRepo commitHash : string) : M (option TaskSet * error) :=
  match taskSet with
  | Some ts =>
      let* (tasks, err) :=
        range (updateEnvTaskSet_body ts deployType cluster clusterRepo commitHash)
              (Tasks ts) in
      ret (Some (mkTaskSet tasks (TaskSetRepo ts)), err)
  | None => ret (None, None)
  end.

Definition updateEnvCluster (cluster : Cluster) (clusterName clusterRepo commitHash : string)
    : M (Cluster * error) :=
  let* (serviceTasks, err) :=
    updateEnvTaskSet (ServiceTasks cluster) DeployType_Service
                     clusterName clusterRepo commitHash in
  match err with
  | Some msg => ret (mkCluster serviceTasks (ClusterTasks cluster) (ClusterRepo cluster), Some msg)
  | None =>
      let* (tasks, err) :=
        updateEnvTaskSet (ClusterTasks cluster) DeployType_Task
                         clusterName clusterRepo commitHash in
      ret (mkCluster serviceTasks tasks (ClusterRepo cluster), err)
  end.

(** The body of the loop of [UpdateEnv]. *)
Definition UpdateEnv_body (layout : Layout) (commitHash : string)
    (clusterName : string) (cluster : Cluster) : M (Cluster * option string) :=
  let clusterRepo := if nonEmpty (ClusterRepo cluster) then ClusterRepo cluster
                     else LayoutRepo layout in
  updateEnvCluster cluster clusterName clusterRepo commitHash.

(** [UpdateEnv]: yields the layout as the walk leaves it, and the error. *)
Definition UpdateEnv (layout : Layout) (commitHash : string) : M (Layout * error) :=
  let* (clusters, err) := range (UpdateEnv_body layout commitHash) (Clusters layout) in
  ret (mkLayout clusters (LayoutRepo layout), err).

(** The body of the loop of [checkEnvTaskSet]. *)
Definition checkEnvTaskSet_body (deployType : DeployType) (cluster : string)
    (taskSetName : string) (task : Task) : M (Task * option (bool * error)) :=
  match deployType with
  | DeployType_Service =>
      let* (deployed, err) := checkEcsService cluster taskSetName (Id task) in
      match err with
      | Some msg => ret (task, Some (false, Some msg))
      | None =>
          if negb deployed then ret (task, Some (false, None))
          else ret (task, Some (true, None))
      end
  | DeployType_Task =>
      (* Only check tasks that are meant to stay up permanently *)
      if negb (Temp task) then
        let* (deployed, err) := CheckTask true cluster [taskSetName; Id task] in
        match err with
        | Some msg => ret (task, Some (false, Some msg))
        | None =>
            if negb deployed then ret (task, Some (false, None))
            else ret (task, Some (true, None))
        end
      else ret (task, None)
  | DeployType_Other s =>
      ret (task, Some (false, Some ("updateTaskSet: invalid deploy type: " +:+ s)))
  end.

Definition checkEnvTaskSet (taskSet : option TaskSet) (deployType : DeployType)
    (cluster : string) : M (bool * error) :=
  match taskSet with
  | Some ts =>
      let* (_, r) := range (checkEnvTaskSet_body deployType cluster) (Tasks ts) in
      match r with
      | Some res => ret res
      | None => ret (true, None)
      end
  | None => ret (true, None)
  end.

Definition checkEnvCluster (cluster : Cluster) (clusterName : string) : M (bool * error) :=
  let* (deployed, err) := checkEnvTaskSet (ServiceTasks cluster) DeployType_Service clusterName in
  match err with
  | Some msg => ret (false, Some msg)
  | None =>
      if negb deployed then ret (false, None)
      else
        let* (deployed, err) := checkEnvTaskSet (ClusterTasks cluster) DeployType_Task clusterName in
        match err with
        | Some msg => ret (false, Some msg)
        | None => ret (deployed, None)
        end
  end.

(** The body of the loop of [CheckEnv]. *)
Definition CheckEnv_body (clusterName : string) (cluster : Cluster)
    : M (Cluster * option (bool * error)) :=
  let* (deployed, err) := checkEnvCluster cluster clusterName in
  match err with
  | Some msg => ret (cluster, Some (false, Some msg))
  | None => if negb deployed then ret (cluster, Some (false, None)) else ret (cluster, None)
  end.

Definition CheckEnv (layout : Layout) : M (bool * error) :=
  let* (_, r) := range CheckEnv_body (Clusters layout) in
  match r with
  | Some res => ret res
  | None => ret (true, None)
  end.

End Driver.

End Aws.

(* ===================================================================== *)
(** ** The update phase as a walk over deployment units                   *)
(* ===================================================================== *)

Module Rollout.
Import Aws.

(** The repository resolution invariant in the words of the spec: the
    task's repository if set, else the task set's, else the cluster's, else
    the layout's; first non-empty wins. *)
Definition effectiveRepo (layoutRepo clusterRepo taskSetRepo taskRepo : string) : string :=
  if nonEmpty taskRepo then taskRepo
  else if nonEmpty taskSetRepo then taskSetRepo
  else if nonEmpty clusterRepo then clusterRepo
  else layoutRepo.

(** A deployment unit of a layout: its kind, where it lives, and the
    repository its image is taken from. *)
Record Unit : Type := mkUnit {
  unitType : DeployType;
  unitCluster : string;
  unitName : string;
  unitRepo : string
}.

Definition taskSetUnits (layoutRepo clusterName clusterRepo : string)
    (deployType : DeployType) (taskSet : option TaskSet) : list (Unit * Task) :=
  match taskSet with
  | Some ts =>
      List.map (fun '(name, task) =>
                  (mkUnit deployType clusterName name
                          (effectiveRepo layoutRepo clusterRepo (TaskSetRepo ts) (Repo task)),
                   task))
               (Tasks ts)
  | None => []
  end.

Definition clusterUnits (layoutRepo : string) (clusterName : string) (cluster : Cluster)
    : list (Unit * Task) :=
  taskSetUnits layoutRepo clusterName (ClusterRepo cluster) DeployType_Service
               (ServiceTasks cluster)
  ++ taskSetUnits layoutRepo clusterName (ClusterRepo cluster) DeployType_Task
                  (ClusterTasks cluster).

(** The units of a layout in the order the update phase visits them: cluster
    by cluster, the services of a cluster before its plain tasks. *)
Definition units (layout : Layout) : list (Unit * Task) :=
  List.flat_map (fun '(clusterName, cluster) => clusterUnits (LayoutRepo layout) clusterName cluster)
                (Clusters layout).

Section Walk.
Context {W : Type} {tg : Tagging}.
Variable e : Ecs W.

(** The update of one unit in the words of the spec: call the service-update
    or the task-update operation with the resolved repository and the tag and
    with the task's [temp] flag, and store the identifier returned. *)
Definition updateUnit (commitHash : string) (u : Unit) (task : Task)
    : Go.M W Event (Task * option string) :=
  let image := unitRepo u +:+ ":" +:+ commitHash in
  match unitType u with
  | DeployType_Service =>
      let* (id, err) := updateEcsService e (unitCluster u) (unitName u) image (Temp task) in
      match err with
      | Some msg => ret (task, Some msg)
      | None => ret (setId task id, None)
      end
  | DeployType_Task =>
      let* (id, err) := updateEcsTask e (unitCluster u) (unitName u) image (Temp task) in
      match err with
      | Some msg => ret (task, Some msg)
      | None => ret (setId task id, None)
      end
  | DeployType_Other s =>
      ret (task, Some ("updateTaskSet: invalid deploy type: " +:+ s))
  end.

(** Unit after unit, stopping at the first failure. *)
Definition updateUnits (commitHash : string) (us : list (Unit * Task))
    : Go.M W Event (list (Unit * Task) * option string) :=
  range (updateUnit commitHash) us.

End Walk.

(** Two runs that leave the same world, made the same calls, and either both
    panic with the same message or return related results. *)
Definition sameRun {W E A B} (R : A -> B -> Prop) (r1 : run W E A) (r2 : run W E B) : Prop :=
  world r1 = world r2 /\ events r1 = events r2 /\
  match out r1, out r2 with
  | Ret a, Ret b => R a b
  | Panic m1, Panic m2 => m1 = m2
  | _, _ => False
  end.

(** A run with its result mapped. *)
Definition mapOut {W E A B} (f : A -> B) (r : run W E A) : run W E B :=
  Run (match out r with
       | Ret a => Ret (f a)
       | Panic msg => Panic msg
       end)
      (world r) (events r).

End Rollout.

(* ===================================================================== *)
(** ** Shapes of the layout a deploy job carries                          *)
(* ===================================================================== *)

Module Layouts.
Import Jobs.

(** A notification or a write to the store. *)
Definition isReport (ev : Event) : bool :=
  match stateOf ev with
  | Some _ => true
  | None => false
  end.

(** The stages [AdvanceJob] can leave a job in, by the stage it finds. *)
Definition JobStage_step (from to : JobStage) : bool :=
  match from, to with
  | JobStage_Queued, (JobStage_Started | JobStage_Failed) => true
  | JobStage_Started, (JobStage_Started | JobStage_Completed | JobStage_Failed) => true
  | JobStage_Completed, (JobStage_Completed | JobStage_Failed) => true
  | JobStage_Failed, JobStage_Failed => true
  | _, _ => false
  end.

(** Every unit of the map holds a string, as after an update. *)
Definition unitsStamped (units : list (string * Value)) : Prop :=
  Forall (fun kv => exists id, snd kv = VString id) units.

(** Every entry is for services or for tasks and holds stamped units. *)
Definition typesStamped (typeLayout : list (DeployType * Value)) : Prop :=
  Forall (fun kv => (fst kv = DeployType_Service \/ fst kv = DeployType_Task) /\
                    exists units, snd kv = VStrMap units /\ unitsStamped units)
         typeLayout.

Definition layoutStamped (clusters : list (string * Value)) : Prop :=
  Forall (fun kv => exists typeLayout, snd kv = VTypeMap typeLayout /\ typesStamped typeLayout)
         clusters.

(** Every entry of every cluster is for plain tasks. *)
Definition onlyTasks (clusters : list (string * Value)) : Prop :=
  Forall (fun kv => exists typeLayout,
                      snd kv = VTypeMap typeLayout /\
                      Forall (fun tv => fst tv = DeployType_Task) typeLayout)
         clusters.

(** The value of an entry before and after a walk: untouched, or a map with
    the same keys in the same order. *)
Definition sameUnits (v v' : Value) : Prop :=
  v' = v \/
  exists units units', v = VStrMap units /\ v' = VStrMap units' /\
                       List.map fst units' = List.map fst units.

Definition sameTypes (v v' : Value) : Prop :=
  v' = v \/
  exists typeLayout typeLayout',
    v = VTypeMap typeLayout /\ v' = VTypeMap typeLayout' /\
    Forall2 (fun kv kv' => fst kv' = fst kv /\ sameUnits (snd kv) (snd kv'))
            typeLayout typeLayout'.

Definition sameClusters (clusters clusters' : list (string * Value)) : Prop :=
  Forall2 (fun kv kv' => fst kv' = fst kv /\ sameTypes (snd kv) (snd kv'))
          clusters clusters'.

(** The layout has a unit of that kind and name in that cluster. *)
Definition hasUnit (clusters : list (string * Value)) (deployType : DeployType)
    (cluster unit : string) (v : Value) : Prop :=
  exists typeLayout units,
    (cluster, VTypeMap typeLayout) ∈ clusters /\
    (deployType, VStrMap units) ∈ typeLayout /\
    (unit, v) ∈ units.

(** The event is the update, with that image, of a unit of the layout: of a
    service with its cluster, or of a task by its name alone. *)
Definition isUnitUpdate (clusters : list (string * Value)) (image : string)
    (ev : Event) : Prop :=
  (exists cluster service v,
      ev = CallUpdateService cluster service image /\
      hasUnit clusters DeployType_Service cluster service v)
  \/ (exists cluster task v,
         ev = CallUpdateTask task image /\
         hasUnit clusters DeployType_Task cluster task v).

(** The event is the check of a service of the layout against the
    identifier the layout holds for it. *)
Definition isUnitCheck (clusters : list (string * Value)) (ev : Event) : Prop :=
  exists cluster service id,
    ev = CallCheckService cluster service id /\
    hasUnit clusters DeployType_Service cluster service (VString id).

End Layouts.

(* ===================================================================== *)
(** ** Kinds of calls of the ECS driver                                   *)
(* ===================================================================== *)

Module AwsEvents.
Import Aws.

(** A call that reads, registers or switches a task definition. *)
Definition isDefinitionCall (ev : Event) : bool :=
  match ev with
  | EcsDescribeServices _ _ | EcsDescribeTaskDefinition _
  | EcsRegisterTaskDefinition _ | EcsUpdateService _
  | EcsListTaskDefinitions _ _ _ => true
  | _ => false
  end.

(** The calls fall in two stretches, the earlier ones all satisfying [P],
    the later ones all satisfying [Q]. *)
Definition inTwoStretches (P Q : Event -> Prop) (evs : list Event) : Prop :=
  exists earlier later, evs = earlier ++ later /\ Forall P earlier /\ Forall Q later.

(** The image of the first container of a registration. *)
Definition registeredImage (input : RegisterTaskDefinitionInput) : option string :=
  match RegContainerDefinitions input with
  | cd :: _ => Image cd
  | [] => None
  end.

(** A call that reads or registers a task definition. *)
Definition isRegistration (ev : Event) : bool :=
  match ev with
  | EcsDescribeTaskDefinition _ | EcsRegisterTaskDefinition _ => true
  | _ => false
  end.

(** The layout has no service unit and no plain task that is meant to stay
    up. *)
Definition nothingToCheck (layout : Layout) : bool :=
  List.forallb
    (fun nc =>
       match ServiceTasks (snd nc) with
       | Some ts => match Tasks ts with [] => true | _ :: _ => false end
       | None => true
       end
       && match ClusterTasks (snd nc) with
          | Some ts => List.forallb (fun nt => Temp (snd nt)) (Tasks ts)
          | None => true
          end)
    (Clusters layout).

End AwsEvents.

(* ===================================================================== *)
(** ** Construction of the driver, and the layouts of the node components *)
(* ===================================================================== *)

Module Topology.
Import Aws.

(** [NewEcs(cfg)].  [getenv] is [os.Getenv]; [client] is the ECS client
    made from [cfg]. *)
Definition NewEcs {W} (getenv : string -> string) (client : EcsClient W) : Ecs W :=
  let ecrUri := getenv "AWS_ACCOUNT_ID" +:+ ".dkr.ecr." +:+ getenv "AWS_REGION"
                +:+ ".amazonaws.com/" in
  mkEcs client (getenv "ENV") ecrUri.

(** A cluster that holds services only, none with a repository of its own. *)
Definition servicesOnly (names : list string) : Cluster :=
  mkCluster (Some (mkTaskSet (List.map (fun n => (n, emptyTask)) names) "")) None "".

(** Three clusters of services for the environment [env_]: the private one
    with a node, the public one with a node, a gateway and the services
    [more], the anchor one with a node. *)
Definition nodeLayout (env_ node gateway : string) (more : list string) (repo : string)
    : Layout :=
  mkLayout
    [("ceramic-" +:+ env_,
      servicesOnly ["ceramic-" +:+ env_ +:+ "-" +:+ node]);
     ("ceramic-" +:+ env_ +:+ "-ex",
      servicesOnly (["ceramic-" +:+ env_ +:+ "-ex-" +:+ node;
                     "ceramic-" +:+ env_ +:+ "-ex-" +:+ gateway] ++ more));
     ("ceramic-" +:+ env_ +:+ "-cas",
      servicesOnly ["ceramic-" +:+ env_ +:+ "-cas-" +:+ node])]
    repo.

(** The call, when it registers a task definition, registers one whose
    first container has one of [images] behind the registry prefix, and tags
    it with the environment. *)
Definition registersOneOf {tg : Tagging} (registry environment : string)
    (images : list string) (ev : Event) : Prop :=
  match ev with
  | EcsRegisterTaskDefinition input =>
      RegTags input = [(ResourceTag, environment)] /\
      exists image cd rest,
        image ∈ images /\
        RegContainerDefinitions input
        = mkContainerDefinition (Some (registry +:+ image)) (ContainerSettings cd) :: rest
  | _ => True
  end.

End Topology.

(* ===================================================================== *)
(** ** Package [aws]: launching a one-off task                            *)
(* ===================================================================== *)

Module Launch.
Import Aws.

(** *** The part of the API a launch touches *)

(** [types.AwsVpcConfiguration] *)
Record AwsVpcConfiguration : Type := mkAwsVpcConfiguration {
  AssignPublicIp : string;
  SecurityGroups : list string;
  Subnets : list string
}.

(** [types.NetworkConfiguration] *)
Record NetworkConfiguration : Type := mkNetworkConfiguration {
  AwsvpcConfiguration : option AwsVpcConfiguration
}.

(** A service as [DescribeServices] returns it: the fields the rollout
    reads, and the network configuration a launch reads. *)
Record Service : Type := mkService {
  Described : EcsService;
  ServiceNetworkConfiguration : option NetworkConfiguration
}.

Record ServicesOutput : Type := mkServicesOutput {
  OutServices : list Service;
  OutFailures : list Failure
}.

(** [types.ContainerOverride] with its [Environment] as pairs, and
    [types.TaskOverride]. *)
Record ContainerOverride : Type := mkContainerOverride {
  OverrideName : string;
  OverrideEnvironment : list (string * string)
}.

Record TaskOverride : Type := mkTaskOverride {
  ContainerOverrides : list ContainerOverride
}.

Record RunTaskInput : Type := mkRunTaskInput {
  RunTaskDefinition : string;
  RunCluster : string;
  RunCount : Z;
  RunEnableExecuteCommand : bool;
  RunLaunchType : string;
  RunNetworkConfiguration : option NetworkConfiguration;
  RunStartedBy : string;
  RunTags : list (string * string);
  RunOverrides : option TaskOverride
}.

(** The calls a launch makes, with their inputs. *)
Inductive Event : Type :=
| LaunchDescribeServices (cluster : string) (services : list string)
| EcsRunTask (input : RunTaskInput)
| SsmGetParameter (name : string) (withDecryption : bool)
| LaunchLog (msg : string).

Definition isRunTask (ev : Event) : bool :=
  match ev with
  | EcsRunTask _ => true
  | _ => false
  end.

Section Client.
Context {W : Type}.

(** [*ecs.Client] and [*ssm.Client], as far as a launch uses them. *)
Record LaunchClient : Type := {
  LaunchDescribe : string -> list string -> W -> (ServicesOutput * error) * W;
  (* the [TaskArn] of each task started *)
  RunTask : RunTaskInput -> W -> (list (option string) * error) * W
}.

Record SsmClient : Type := {
  (* [output.Parameter], and in it [Value] *)
  GetParameter : string -> bool -> W -> (option (option string) * error) * W
}.

(** [Ecs], with the clients a launch uses. *)
Record Launcher : Type := mkLauncher {
  launchClient : LaunchClient;
  ssmClient : SsmClient;
  launchEnv : string
}.
End Client.

Arguments LaunchClient : clear implicits.
Arguments SsmClient : clear implicits.
Arguments Launcher : clear implicits.

(** [manager.ServiceName], whose value is not among the sources;
    [json.Unmarshal] into a [types.AwsVpcConfiguration]; and [%+v] of the
    overrides. *)
Class Runtime : Type := {
  ServiceName : string;
  Unmarshal : string -> AwsVpcConfiguration * error;
  fmtOverrides : option (list (string * string)) -> string
}.

Section Launches.
Context {W : Type} {tg : Tagging} {rt : Runtime}.
Variable e : Launcher W.

Local Abbreviation M := (Go.M W Event).

Definition log (msg : string) : M unit := emit (LaunchLog msg) (fun w => w).

(** [describeEcsService], with the whole of the output. *)
Definition describeEcsService (cluster service : string)
    : M (option ServicesOutput * error) :=
  let* (output, err) := call (LaunchDescribeServices cluster [service])
                             (LaunchDescribe (launchClient e) cluster [service]) in
  match err with
  | Some msg =>
      let* _ := log ("describeEcsService: " +:+ service +:+ ", " +:+ cluster +:+ ", " +:+ msg) in
      ret (None, Some msg)
  | None =>
      match OutFailures output with
      | _ :: _ =>
          let ecsFailures := parseEcsFailures (OutFailures output) in
          let* _ := log ("describeEcsService: failure: " +:+ service +:+ ", " +:+ cluster
                         +:+ ", " +:+ fmtFailures ecsFailures) in
          ret (None, Some (fmtFailures ecsFailures))
      | [] => ret (Some output, None)
      end
  end.

(** [runEcsTask].  [overrides] is [None] for a nil map. *)
Definition runEcsTask (cluster family container : string)
    (networkConfig : option NetworkConfiguration)
    (overrides : option (list (string * string))) : M (string * error) :=
  let input :=
    mkRunTaskInput family cluster 1 true "FARGATE" networkConfig ServiceName
                   [(ResourceTag, launchEnv e)] None in
  let input :=
    match overrides with
    | Some ((_ :: _) as kvs) =>
        (* (overrides != nil) && (len(overrides) > 0) *)
        let overrideEnv := List.map (fun '(k, v) => (k, v)) kvs in
        mkRunTaskInput (RunTaskDefinition input) (RunCluster input) (RunCount input)
          (RunEnableExecuteCommand input) (RunLaunchType input)
          (RunNetworkConfiguration input) (RunStartedBy input) (RunTags input)
          (Some (mkTaskOverride [mkContainerOverride container overrideEnv]))
    | _ => input
    end in
  let* (tasks, err) := call (EcsRunTask input) (RunTask (launchClient e) input) in
  match err with
  | Some msg =>
      let* _ := log ("runEcsTask: " +:+ cluster +:+ ", " +:+ family +:+ ", " +:+ container
                     +:+ ", " +:+ fmtOverrides overrides +:+ ", " +:+ msg) in
      ret ("", Some msg)
  | None =>
      let* task := index0 tasks in
      let* taskArn := deref task in
      ret (taskArn, None)
  end.

Definition LaunchServiceTask (cluster service family container : string)
    (overrides : option (list (string * string))) : M (string * error) :=
  let* (output, err) := describeEcsService cluster service in
  match err with
  | Some msg => ret ("", Some msg)
  | None =>
      let* output := deref output in
      let* svc := index0 (OutServices output) in
      runEcsTask cluster family container (ServiceNetworkConfiguration svc) overrides
  end.

Definition LaunchTask (cluster family container vpcConfigParam : string)
    (overrides : option (list (string * string))) : M (string * error) :=
  (* Get the VPC configuration from SSM *)
  let* (output, err) := call (SsmGetParameter vpcConfigParam false)
                             (GetParameter (ssmClient e) vpcConfigParam false) in
  match err with
  | Some msg =>
      let* _ := log ("launchTask: get vpc config error: " +:+ cluster +:+ ", " +:+ family
                     +:+ ", " +:+ vpcConfigParam +:+ ", " +:+ fmtOverrides overrides
                     +:+ ", " +:+ msg) in
      ret ("", Some msg)
  | None =>
      let* parameter := deref output in
      let* value := deref parameter in
      let (vpcConfig, err) := Unmarshal value in
      match err with
      | Some msg =>
          let* _ := log ("launchTask: error unmarshaling worker network configuration: "
                         +:+ cluster +:+ ", " +:+ family +:+ ", " +:+ vpcConfigParam
                         +:+ ", " +:+ fmtOverrides overrides +:+ ", " +:+ msg) in
          ret ("", Some msg)
      | None =>
          runEcsTask cluster family container
                     (Some (mkNetworkConfiguration (Some vpcConfig))) overrides
      end
  end.

End Launches.

(** The rollout's view of a launch client: the same answers to
    [DescribeServices], without the network configurations. *)
Definition describedOutput (output : ServicesOutput) : DescribeServicesOutput :=
  mkDescribeServicesOutput (List.map Described (OutServices output)) (OutFailures output).

(** The rollout's record of a call of a launch, if it makes such a call. *)
Definition rolloutEvent (ev : Event) : option Aws.Event :=
  match ev with
  | LaunchDescribeServices cluster services => Some (EcsDescribeServices cluster services)
  | LaunchLog msg => Some (Log msg)
  | _ => None
  end.

End Launch.

(* ===================================================================== *)
(** ** Concrete collaborators, for running the definitions                *)
(* ===================================================================== *)

Module Demo.
Import Jobs Aws Rollout.

#[local] Instance consts : Consts := {|
  JobParam_Component := "component";
  JobParam_Sha := "sha";
  JobParam_Error := "error";
  Error_Timeout := "Timeout";
  DefaultFailureTime := 1800000000000%Z;
  PrintJob := fun st =>
    match Stage st with
    | JobStage_Queued => "queued"
    | JobStage_Started => "started"
    | JobStage_Completed => "completed"
    | JobStage_Failed => "failed"
    end
|}.

#[local] Instance tagging : Tagging := {| ResourceTag := "Ceramic" |}.

(** A store that accepts every write. *)
Definition okDb : Jobs.Database unit := {|
  UpdateBuildHash := fun _ _ w => (None, w);
  UpdateDeployHash := fun _ _ w => (None, w);
  UpdateJob := fun _ w => (None, w)
|}.

(** A deployment client that updates every unit and reports the services
    converged or not as [converged] says. *)
Definition okDeployment (converged : bool) : Jobs.Deployment unit := {|
  PopulateLayout := fun _ w =>
    (([("ceramic-dev-cas",
        VTypeMap [(DeployType_Service, VStrMap [("ceramic-dev-cas-api", VString "")])])],
      None), w);
  GetRegistryUri := fun c w => (("registry/" +:+ c, None), w);
  Jobs.UpdateService := fun _ service _ w => (("rev-" +:+ service, None), w);
  UpdateTask := fun task _ w => (("rev-" +:+ task, None), w);
  CheckService := fun _ _ _ w => ((converged, None), w)
|}.

Definition quietNotifs : Jobs.Notifs unit := {| NotifyJob := fun _ w => w |}.

(** A layout already stamped by an earlier update phase. *)
Definition stampedLayout : Value :=
  VStrMap [("ceramic-dev-cas",
            VTypeMap [(DeployType_Service,
                       VStrMap [("ceramic-dev-cas-api", VString "rev-7");
                                ("ceramic-dev-cas-scheduler", VString "rev-9")]);
                      (DeployType_Task,
                       VStrMap [("ceramic-dev-cas-anchor", VString "rev-3")])])].

Definition demoParams : gmap string Value :=
  <["component" := VString "cas"]> (<["sha" := VString "abc123"]> (<["layout" := stampedLayout]> ∅)).

Definition freshParams : gmap string Value :=
  <["component" := VString "cas"]> (<["sha" := VString "abc123"]> ∅).

Definition jobAt (stage : JobStage) (ts : Z) (converged : bool) : deployJob unit :=
  mkDeployJob (mkJobState stage ts demoParams) okDb (okDeployment converged) quietNotifs
              "cas" "abc123" "registry/cas".

(** An ECS client in whose cluster the API service runs its new revision
    while the scheduler still runs the old one, and whose [UpdateService]
    fails for the service [failing]. *)
Definition demoClient (failing : string) : EcsClient unit := {|
  DescribeServices := fun _ services w =>
    let deployments :=
      match services with
      | ["ceramic-dev-cas-api"] => [mkEcsDeployment (Some "api:8") 1]
      | ["ceramic-dev-cas-scheduler"] =>
          [mkEcsDeployment (Some "scheduler:4") 1; mkEcsDeployment (Some "scheduler:5") 0]
      | _ => []
      end in
    ((mkDescribeServicesOutput
        [mkEcsService (Some (joinWith "," services +:+ ":1")) deployments] [], None), w);
  DescribeTaskDefinition := fun arn w =>
    ((Some (mkTaskDefinition [mkContainerDefinition (Some "old-image") "settings"]
                             (Some arn) "carried" (Some arn)), None), w);
  RegisterTaskDefinition := fun input w =>
    ((Some (mkTaskDefinition (RegContainerDefinitions input) (RegFamily input)
                             (RegCarried input) (Some (orEmpty (RegFamily input) +:+ "+1"))),
      None), w);
  Aws.UpdateService := fun input w =>
    (if String.eqb (UpdService input) failing then Some "service update refused" else None, w);
  ListTaskDefinitions := fun family _ _ w => (([family +:+ ":1"], None), w);
  ListTasks := fun _ _ family w => (([family +:+ "/task-a"], None), w);
  StopTask := fun _ _ w => (None, w);
  DescribeTasks := fun _ _ w => (([Some "RUNNING"], None), w)
|}.

Definition demoEcs (failing : string) : Ecs unit := mkEcs (demoClient failing) "dev" "ecr/".

(** The layout of component cas in environment dev after an update phase. *)
Definition casLayout : Layout :=
  mkLayout
    [("ceramic-dev-cas",
      mkCluster
        (Some (mkTaskSet [("ceramic-dev-cas-api", mkTask "api:8" "" false);
                          ("ceramic-dev-cas-scheduler", mkTask "scheduler:5" "" false)] ""))
        (Some (mkTaskSet [("ceramic-dev-cas-anchor",
                           mkTask "anchor:2" "ceramic-dev-cas-runner" true)] ""))
        "")]
    "ceramic-dev-cas".

(** An ECS client that cannot describe task definitions, and cannot describe
    services either when [describeFails] is set; everything else succeeds. *)
Definition brokenClient (describeFails : bool) : EcsClient unit := {|
  DescribeServices := fun _ services w =>
    ((mkDescribeServicesOutput
        [mkEcsService (Some (joinWith "," services +:+ ":1")) []] [],
      if describeFails then Some "cluster not found" else None), w);
  DescribeTaskDefinition := fun _ w => ((None, Some "access denied"), w);
  RegisterTaskDefinition := fun _ w => ((None, Some "access denied"), w);
  Aws.UpdateService := fun _ w => (None, w);
  ListTaskDefinitions := fun _ _ _ w => (([], None), w);
  ListTasks := fun _ _ family w => (([family +:+ "/task-a"; family +:+ "/task-b"], None), w);
  StopTask := fun _ _ w => (None, w);
  DescribeTasks := fun _ _ w => (([], None), w)
|}.

Definition brokenEcs (describeFails : bool) : Ecs unit :=
  mkEcs (brokenClient describeFails) "dev" "ecr/".

End Demo.


(* ===================================================================== *)
(** ** Facts about runs and loops                                         *)
(* ===================================================================== *)

Module GoFacts.

Section Facts.
Context {W E : Type}.

Lemma run_eta {A} (r : run W E A) : r = Run (out r) (world r) (events r).
Proof. by destruct r. Qed.

Lemma bind_Ret {A B} (m : M W E A) (f : A -> M W E B) w a w1 evs :
  m w = Run (Ret a) w1 evs ->
  bind m f w = Run (out (f a w1)) (world (f a w1)) (evs ++ events (f a w1)).
Proof. intros Hm. unfold bind. by rewrite Hm. Qed.

Lemma bind_Panic {A B} (m : M W E A) (f : A -> M W E B) w msg w1 evs :
  m w = Run (Panic msg) w1 evs ->
  bind m f w = Run (Panic msg) w1 evs.
Proof. intros Hm. unfold bind. by rewrite Hm. Qed.

(** A property of events passes through sequencing. *)
Lemma events_bind_Forall {A B} (P : E -> Prop) (m : M W E A) (f : A -> M W E B) w :
  Forall P (events (m w)) ->
  (forall a w', Forall P (events (f a w'))) ->
  Forall P (events (bind m f w)).
Proof.
  intros Hm Hf. unfold bind.
  destruct (m w) as [[a | msg] w1 evs]; simpl in *; [| done].
  apply Forall_app. split; [done | apply Hf].
Qed.

Lemma events_ret_Forall {A} (P : E -> Prop) (a : A) (w : W) : Forall P (events (ret (E := E) a w)).
Proof. constructor. Qed.

Lemma events_panic_Forall {A} (P : E -> Prop) msg (w : W) :
  Forall P (events (panic (E := E) (A := A) msg w)).
Proof. constructor. Qed.

Lemma events_call_Forall {A} (P : E -> Prop) ev (f : W -> A * W) w :
  P ev -> Forall P (events (call ev f w)).
Proof. intros Hev. simpl. by repeat constructor. Qed.

Lemma events_emit_Forall (P : E -> Prop) ev (f : W -> W) w :
  P ev -> Forall P (events (emit ev f w)).
Proof. intros Hev. simpl. by repeat constructor. Qed.

Lemma events_deref_Forall {A} (P : E -> Prop) (p : option A) (w : W) :
  Forall P (events (deref (E := E) p w)).
Proof. destruct p; constructor. Qed.

Lemma events_index0_Forall {A} (P : E -> Prop) (s : list A) (w : W) :
  Forall P (events (index0 (E := E) s w)).
Proof. destruct s; constructor. Qed.

(** A loop makes only calls its body makes. *)
Lemma range_events_Forall {K V R} (P : E -> Prop) (body : K -> V -> M W E (V * option R)) :
  (forall k v w, Forall P (events (body k v w))) ->
  forall m w, Forall P (events (range body m w)).
Proof.
  intros Hbody m. induction m as [| [k v] rest IH]; intros w; simpl.
  - constructor.
  - apply events_bind_Forall; [apply Hbody |].
    intros [v' [x |]] w'.
    + constructor.
    + apply events_bind_Forall; [apply IH |].
      intros [rest' r'] w''. constructor.
Qed.

(** Loops with bodies that run alike run alike. *)
Lemma range_ext {K V R} (body1 body2 : K -> V -> M W E (V * option R)) :
  (forall k v w, body1 k v w = body2 k v w) ->
  forall m w, range body1 m w = range body2 m w.
Proof.
  intros Hbody m. induction m as [| [k v] rest IH]; intros w; simpl; [done |].
  unfold bind. rewrite Hbody.
  destruct (body2 k v w) as [[[v' [x |]] | msg] w1 evs]; simpl; try done.
  by rewrite IH.
Qed.

(** The run of a loop over the first entry, case by case. *)
Lemma range_cons_stop {K V R} (body : K -> V -> M W E (V * option R)) k v rest w v' x w1 evs :
  body k v w = Run (Ret (v', Some x)) w1 evs ->
  range body ((k, v) :: rest) w = Run (Ret ((k, v') :: rest, Some x)) w1 (evs ++ []).
Proof. intros Hb. simpl. unfold bind. by rewrite Hb. Qed.

Lemma range_cons_go {K V R} (body : K -> V -> M W E (V * option R)) k v rest w v' w1 evs :
  body k v w = Run (Ret (v', None)) w1 evs ->
  range body ((k, v) :: rest) w =
  let r := range body rest w1 in
  Run (match out r with
       | Ret (rest', x) => Ret ((k, v') :: rest', x)
       | Panic msg => Panic msg
       end)
      (world r)
      (evs ++ match out r with Ret _ => events r ++ [] | Panic _ => events r end).
Proof.
  intros Hb. simpl. unfold bind at 1. rewrite Hb. simpl.
  unfold bind. destruct (range body rest w1) as [[[rest' x] | msg] w2 evs2]; by simpl.
Qed.

Lemma range_cons_panic {K V R} (body : K -> V -> M W E (V * option R)) k v rest w msg w1 evs :
  body k v w = Run (Panic msg) w1 evs ->
  range body ((k, v) :: rest) w = Run (Panic msg) w1 evs.
Proof. intros Hb. simpl. unfold bind. by rewrite Hb. Qed.

End Facts.

Section Loops.
Context {W E K V R : Type}.
Variable body : K -> V -> M W E (V * option R).

(** A loop over two stretches of entries: the first stretch, and the second
    one unless the first one returned or panicked. *)
Lemma range_app (l1 l2 : list (K * V)) (w : W) :
  range body (l1 ++ l2) w =
  let r1 := range body l1 w in
  match out r1 with
  | Ret (l1', Some x) => Run (Ret (l1' ++ l2, Some x)) (world r1) (events r1)
  | Ret (l1', None) =>
      let r2 := range body l2 (world r1) in
      Run (match out r2 with
           | Ret (l2', x) => Ret (l1' ++ l2', x)
           | Panic msg => Panic msg
           end)
          (world r2) (events r1 ++ events r2)
  | Panic msg => Run (Panic msg) (world r1) (events r1)
  end.
Proof.
  revert w. induction l1 as [| [k v] rest IH]; intros w.
  - simpl. by destruct (range body l2 w) as [[[l2' x] | msg] w2 evs2].
  - change (((k, v) :: rest) ++ l2) with ((k, v) :: (rest ++ l2)).
    destruct (body k v w) as [[[v' [x |]] | msg] w1 evs] eqn:Hb.
    + rewrite (range_cons_stop _ _ _ _ _ _ _ _ _ Hb).
      by rewrite (range_cons_stop _ _ _ _ _ _ _ _ _ Hb).
    + rewrite !(range_cons_go _ _ _ _ _ _ _ _ Hb). rewrite IH. simpl.
      destruct (range body rest w1) as [[[rest' [x |]] | msg] w2 evs2]; simpl.
      * done.
      * destruct (range body l2 w2) as [[[l2' x] | msg] w3 evs3]; simpl;
          by rewrite ?app_nil_r, ?app_assoc.
      * done.
    + rewrite !(range_cons_panic _ _ _ _ _ _ _ _ Hb). done.
Qed.

(** A loop neither adds, drops nor renames entries. *)
Lemma range_keys (m m' : list (K * V)) (x : option R) (w : W) :
  out (range body m w) = Ret (m', x) -> List.map fst m' = List.map fst m.
Proof.
  revert w m' x. induction m as [| [k v] rest IH]; intros w m' x.
  - simpl. intros Hout. by injection Hout as <- <-.
  - destruct (body k v w) as [[[v' [y |]] | msg] w1 evs] eqn:Hb.
    + rewrite (range_cons_stop _ _ _ _ _ _ _ _ _ Hb). simpl.
      intros Hout. by injection Hout as <- <-.
    + rewrite (range_cons_go _ _ _ _ _ _ _ _ Hb). simpl.
      destruct (range body rest w1) as [[[rest' y] | msg] w2 evs2] eqn:Hr; simpl;
        [| discriminate].
      intros Hout. injection Hout as <- <-. simpl. f_equal.
      apply (IH w1 rest' y). by rewrite Hr.
    + rewrite (range_cons_panic _ _ _ _ _ _ _ _ Hb). discriminate.
Qed.

(** What a loop returns early, one of its entries returned. *)
Lemma range_returned (P : R -> Prop) :
  (forall k v w v' x, out (body k v w) = Ret (v', Some x) -> P x) ->
  forall m w m' x, out (range body m w) = Ret (m', Some x) -> P x.
Proof.
  intros Hbody m. induction m as [| [k v] rest IH]; intros w m' x.
  - simpl. discriminate.
  - destruct (body k v w) as [[[v' [y |]] | msg] w1 evs] eqn:Hb.
    + rewrite (range_cons_stop _ _ _ _ _ _ _ _ _ Hb). simpl.
      intros Hout. injection Hout as <- <-. apply (Hbody k v w v'). by rewrite Hb.
    + rewrite (range_cons_go _ _ _ _ _ _ _ _ Hb). simpl.
      destruct (range body rest w1) as [[[rest' y] | msg] w2 evs2] eqn:Hr; simpl;
        [| discriminate].
      intros Hout. injection Hout as <- ->. apply (IH w1 rest'). by rewrite Hr.
    + rewrite (range_cons_panic _ _ _ _ _ _ _ _ Hb). discriminate.
Qed.

(** A loop that runs to its end has visited every entry: the body ran on
    it, from some world, without returning, and its calls are among the
    loop's. *)
Lemma range_visits_all (m m' : list (K * V)) (w : W) :
  out (range body m w) = Ret (m', None) ->
  forall k v, (k, v) ∈ m ->
  exists w1 v', out (body k v w1) = Ret (v', None) /\
    forall ev, ev ∈ events (body k v w1) -> ev ∈ events (range body m w).
Proof.
  revert w m'. induction m as [| [k0 v0] rest IH]; intros w m' Hout k v Hin.
  - by apply elem_of_nil in Hin.
  - destruct (body k0 v0 w) as [[[v' [y |]] | msg] w1 evs] eqn:Hb.
    + rewrite (range_cons_stop _ _ _ _ _ _ _ _ _ Hb) in Hout. discriminate.
    + rewrite (range_cons_go _ _ _ _ _ _ _ _ Hb) in Hout |- *. simpl in Hout |- *.
      destruct (range body rest w1) as [[[rest' y] | msg] w2 evs2] eqn:Hr;
        simpl in Hout |- *; [| discriminate].
      injection Hout as <- ->.
      apply elem_of_cons in Hin as [Heq | Hin].
      * injection Heq as -> ->. exists w, v'. rewrite Hb. simpl. split; [done |].
        intros ev Hev. apply elem_of_app. by left.
      * destruct (IH w1 rest') with (k := k) (v := v) as (w3 & v3 & Hv & Hsub);
          [by rewrite Hr | done |].
        exists w3, v3. split; [done |].
        intros ev Hev. apply elem_of_app. right. apply elem_of_app. left.
        specialize (Hsub ev Hev). by rewrite Hr in Hsub.
    + rewrite (range_cons_panic _ _ _ _ _ _ _ _ Hb) in Hout. discriminate.
Qed.

End Loops.

Section LoopResults.
Context {W E K V R : Type}.
Variable body : K -> V -> M W E (V * option R).

(** A loop whose body never panics on its entries never panics. *)
Lemma range_no_panic (m : list (K * V)) :
  (forall k v, (k, v) ∈ m -> forall w, exists r, out (body k v w) = Ret r) ->
  forall w, exists r, out (range body m w) = Ret r.
Proof.
  induction m as [| [k v] rest IH]; intros Hbody w.
  - simpl. eauto.
  - destruct (Hbody k v ltac:(by left) w) as [[v' [x |]] Hb].
    + destruct (body k v w) as [o w1 evs] eqn:Hrun. simpl in Hb. subst o.
      rewrite (range_cons_stop _ _ _ _ _ _ _ _ _ Hrun). simpl. eauto.
    + destruct (body k v w) as [o w1 evs] eqn:Hrun. simpl in Hb. subst o.
      rewrite (range_cons_go _ _ _ _ _ _ _ _ Hrun). simpl.
      destruct (IH (fun k0 v0 Hin => Hbody k0 v0 ltac:(by right)) w1) as [[rest' x] Hr].
      rewrite Hr. eauto.
Qed.

(** The entries a loop leaves behind: each is what the body made of it, or
    it is untouched. *)
Lemma range_values (Rel : K -> V -> V -> Prop) :
  (forall k v w v' r, out (body k v w) = Ret (v', r) -> Rel k v v') ->
  forall m w m' r, out (range body m w) = Ret (m', r) ->
  Forall2 (fun kv kv' => fst kv' = fst kv /\
                         (Rel (fst kv) (snd kv) (snd kv') \/ snd kv' = snd kv)) m m'.
Proof.
  intros Hbody m. induction m as [| [k v] rest IH]; intros w m' r.
  - simpl. intros Hout. injection Hout as <- <-. constructor.
  - destruct (body k v w) as [[[v' [y |]] | msg] w1 evs] eqn:Hb.
    + rewrite (range_cons_stop _ _ _ _ _ _ _ _ _ Hb). simpl.
      intros Hout. injection Hout as <- <-. constructor.
      * simpl. split; [done |]. left. apply (Hbody k v w v' (Some y)). by rewrite Hb.
      * clear. induction rest; constructor; auto.
    + rewrite (range_cons_go _ _ _ _ _ _ _ _ Hb). simpl.
      destruct (range body rest w1) as [[[rest' y] | msg] w2 evs2] eqn:Hr; simpl;
        [| discriminate].
      intros Hout. injection Hout as <- <-. constructor.
      * simpl. split; [done |]. left. apply (Hbody k v w v' None). by rewrite Hb.
      * apply (IH w1 rest' y). by rewrite Hr.
    + rewrite (range_cons_panic _ _ _ _ _ _ _ _ Hb). discriminate.
Qed.

(** After a loop that ran to its end, every entry is as the body leaves an
    entry when it does not return. *)
Lemma range_complete_values (Q : K -> V -> Prop) :
  (forall k v w v', out (body k v w) = Ret (v', None) -> Q k v') ->
  forall m w m', out (range body m w) = Ret (m', None) ->
  Forall (fun kv => Q (fst kv) (snd kv)) m'.
Proof.
  intros Hbody m. induction m as [| [k v] rest IH]; intros w m'.
  - simpl. intros Hout. injection Hout as <-. constructor.
  - destruct (body k v w) as [[[v' [y |]] | msg] w1 evs] eqn:Hb.
    + rewrite (range_cons_stop _ _ _ _ _ _ _ _ _ Hb). discriminate.
    + rewrite (range_cons_go _ _ _ _ _ _ _ _ Hb). simpl.
      destruct (range body rest w1) as [[[rest' y] | msg] w2 evs2] eqn:Hr; simpl;
        [| discriminate].
      intros Hout. injection Hout as <- ->. constructor.
      * simpl. apply (Hbody k v w v'). by rewrite Hb.
      * apply (IH w1 rest'). by rewrite Hr.
    + rewrite (range_cons_panic _ _ _ _ _ _ _ _ Hb). discriminate.
Qed.

End LoopResults.

Section LoopSkips.
Context {W E K V R : Type}.
Variable body : K -> V -> M W E (V * option R).

(** A loop whose body does nothing on its entries does nothing. *)
Lemma range_skip (m : list (K * V)) (w : W) :
  (forall k v, (k, v) ∈ m -> body k v w = Run (Ret (v, None)) w []) ->
  range body m w = Run (Ret (m, None)) w [].
Proof.
  induction m as [| [k v] rest IH]; intros Hbody; [done |].
  rewrite (range_cons_go _ _ _ _ _ _ _ _ (Hbody k v ltac:(by left))).
  rewrite IH; [done |]. intros k0 v0 Hin. apply Hbody. by right.
Qed.

End LoopSkips.

Section LoopCalls.
Context {W E K V R : Type}.
Variable body : K -> V -> M W E (V * option R).

(** A loop makes only the calls its body makes on the entries of the map. *)
Lemma range_events_Forall_in (P : E -> Prop) (m : list (K * V)) :
  (forall k v, (k, v) ∈ m -> forall w, Forall P (events (body k v w))) ->
  forall w, Forall P (events (range body m w)).
Proof.
  induction m as [| [k v] rest IH]; intros Hbody w; simpl.
  - constructor.
  - apply events_bind_Forall; [apply Hbody; by left |].
    intros [v' [x |]] w'.
    + constructor.
    + apply events_bind_Forall.
      * apply IH. intros k0 v0 Hin. apply Hbody. by right.
      * intros [rest' r'] w''. constructor.
Qed.

End LoopCalls.

Section Calls.
Context {W E : Type}.

Lemma call_run {A} (ev : E) (f : W -> A * W) (w : W) (a : A) :
  fst (f w) = a -> call ev f w = Run (Ret a) (snd (f w)) [ev].
Proof. intros <-. reflexivity. Qed.

End Calls.

End GoFacts.

(* ===================================================================== *)
(** ** The deploy job                                                     *)
(* ===================================================================== *)

Module JobsFacts.
Import Jobs GoFacts.

Section Facts.
Context {W : Type} {mc : Consts}.

Lemma JobStage_eqb_eq (a b : JobStage) : JobStage_eqb a b = true <-> a = b.
Proof. destruct a, b; simpl; split; (done || intros; discriminate). Qed.

Lemma JobStage_eqb_neq (a b : JobStage) : a <> b -> JobStage_eqb a b = false.
Proof.
  intros Hne. destruct (JobStage_eqb a b) eqn:Heq; [| done].
  by apply JobStage_eqb_eq in Heq.
Qed.

(** What [notifyAndPersist] does: at most a notification, then the write to
    the store whose answer is the error returned with the state. *)
Lemma notifyAndPersist_run (j : deployJob W) (st : JobState) (w : W) :
  exists w1 pre,
    (pre = [] \/ pre = [CallNotifyJob st]) /\
    notifyAndPersist j st w =
    Run (Ret (st, fst (UpdateJob (db j) st w1))) (snd (UpdateJob (db j) st w1))
        (pre ++ [CallUpdateJob st]).
Proof.
  unfold notifyAndPersist.
  destruct (JobStage_eqb (Stage st) JobStage_Started
            || JobStage_eqb (Stage st) JobStage_Failed
            || JobStage_eqb (Stage st) JobStage_Completed).
  - exists (NotifyJob (notifs j) st w), [CallNotifyJob st]. split; [by right | done].
  - exists w, []. split; [by left | done].
Qed.

(** C4.  A started job whose timestamp is older than the maximum job
    duration is moved to [Failed] with the timeout error in its parameters;
    the only calls made are the log line, the notification and the write to
    the store, so the check phase is not consulted, whatever the state of
    the layout. *)
Theorem AdvanceJob_started_timeout (j : deployJob W) (now : Z) (w : W) :
  Stage (state j) = JobStage_Started ->
  Ts (state j) < now - DefaultFailureTime ->
  let st := mkJobState JobStage_Failed (Ts (state j))
                       (<[JobParam_Error := VString Error_Timeout]> (Params (state j))) in
  let r := AdvanceJob j now w in
  (exists err, out r = Ret (st, err)) /\
  Params st !! JobParam_Error = Some (VString Error_Timeout) /\
  events r = [Log ("deployJob: job timed out: " +:+ PrintJob st);
              CallNotifyJob st; CallUpdateJob st] /\
  (forall cluster service id, CallCheckService cluster service id ∉ events r).
Proof.
  intros Hstage Hlate st r.
  assert (Hr : r = Run (Ret (st, fst (UpdateJob (db j) st (NotifyJob (notifs j) st w))))
                       (snd (UpdateJob (db j) st (NotifyJob (notifs j) st w)))
                       [Log ("deployJob: job timed out: " +:+ PrintJob st);
                        CallNotifyJob st; CallUpdateJob st]).
  { subst r. unfold AdvanceJob. rewrite Hstage. simpl JobStage_eqb. cbv iota.
    rewrite (proj2 (Z.ltb_lt _ _) Hlate). reflexivity. }
  rewrite Hr. simpl. repeat split.
  - eauto.
  - apply lookup_insert_eq.
  - intros cluster service id Hin.
    repeat (apply elem_of_cons in Hin as [Hin | Hin]; [discriminate |]).
    by apply elem_of_nil in Hin.
Qed.

End Facts.

(** The theorem at a job started at instant 0 and advanced one nanosecond
    after the deadline, on a layout whose services have all converged. *)
Lemma AdvanceJob_started_timeout_witness :
  let j := Demo.jobAt JobStage_Started 0 true in
  Stage (state j) = JobStage_Started /\
  Ts (state j) < 1800000000001 - DefaultFailureTime (Consts := Demo.consts) /\
  forall cluster service id,
    CallCheckService cluster service id
      ∉ events (AdvanceJob (mc := Demo.consts) j 1800000000001 tt).
Proof.
  split; [reflexivity |]. split; [reflexivity |].
  apply (AdvanceJob_started_timeout (mc := Demo.consts)
           (Demo.jobAt JobStage_Started 0 true) 1800000000001 tt);
    reflexivity.
Defined.

Section Cases.
Context {W : Type} {mc : Consts}.

Local Abbreviation stateless := (fun ev : Event => stateOf ev = None).

Lemma updateCluster_stateless (j : deployJob W) (w : W) :
  Forall stateless (events (updateCluster j w)).
Proof.
  unfold updateCluster, asStrMap.
  apply events_bind_Forall.
  { destruct (Params (state j) !! LayoutParam) as [[] |]; constructor. }
  intros m w1. apply events_bind_Forall; [| intros [m' err] w2; constructor].
  apply range_events_Forall. intros cluster typeLayout w2.
  unfold updateCluster_cluster, asTypeMap.
  apply events_bind_Forall; [destruct typeLayout; constructor |].
  intros tl w3. apply events_bind_Forall; [| intros [m' err] w4; constructor].
  apply range_events_Forall. intros deployType deployLayout w4.
  unfold updateCluster_type, asStrMap.
  destruct deployType.
  - apply events_bind_Forall; [destruct deployLayout; constructor |].
    intros sm w5. apply events_bind_Forall; [| intros [m' err] w6; constructor].
    apply range_events_Forall. intros service v w6. unfold updateCluster_service.
    apply events_bind_Forall; [by apply events_call_Forall |].
    intros [id [e |]] w7; constructor.
  - apply events_bind_Forall; [destruct deployLayout; constructor |].
    intros sm w5. apply events_bind_Forall; [| intros [m' err] w6; constructor].
    apply range_events_Forall. intros task v w6. unfold updateCluster_task.
    apply events_bind_Forall; [by apply events_call_Forall |].
    intros [id [e |]] w7; constructor.
  - constructor.
Qed.

(** The check phase only asks the client about services. *)
Lemma checkCluster_events (j : deployJob W) (w : W) :
  Forall (fun ev => exists cluster service id, ev = CallCheckService cluster service id)
         (events (checkCluster j w)).
Proof.
  unfold checkCluster, asStrMap.
  apply events_bind_Forall.
  { destruct (Params (state j) !! LayoutParam) as [[] |]; constructor. }
  intros m w1. apply events_bind_Forall; [| intros [m' [res |]] w2; constructor].
  apply range_events_Forall. intros cluster typeLayout w2.
  unfold checkCluster_cluster, asTypeMap.
  apply events_bind_Forall; [destruct typeLayout; constructor |].
  intros tl w3. apply events_bind_Forall; [| intros [m' r] w4; constructor].
  apply range_events_Forall. intros deployType deployLayout w4.
  unfold checkCluster_type, asStrMap.
  destruct deployType; try constructor.
  apply events_bind_Forall; [destruct deployLayout; constructor |].
  intros sm w5. apply events_bind_Forall; [| intros [m' r] w6; constructor].
  apply range_events_Forall. intros service id w6. unfold checkCluster_service, asStr.
  apply events_bind_Forall; [destruct id; constructor |].
  intros ids w7. apply events_bind_Forall; [apply events_call_Forall; eauto |].
  intros [deployed [e |]] w8; [constructor |]. destruct deployed; constructor.
Qed.

Lemma checkCluster_stateless (j : deployJob W) (w : W) :
  Forall stateless (events (checkCluster j w)).
Proof.
  eapply Forall_impl; [apply checkCluster_events |].
  intros ev (cluster & service & id & ->). done.
Qed.

(** The four ways a call of [AdvanceJob] ends: a panic inside one of the
    phases; a stage transition, notified and then persisted, both with the
    state returned; the not-yet-converged return; the unexpected-stage
    return. *)
Lemma AdvanceJob_cases (j : deployJob W) (now : Z) (w : W) :
  let r := AdvanceJob j now w in
  (exists msg, out r = Panic msg /\ Forall stateless (events r))
  \/ (exists st err pre,
        out r = Ret (st, err) /\ Ts st = Ts (state j) /\ Forall stateless pre /\
        events r = pre ++ [CallNotifyJob st; CallUpdateJob st])
  \/ (Stage (state j) = JobStage_Started /\ now - DefaultFailureTime <= Ts (state j) /\
      out (checkCluster j w) = Ret (false, None) /\
      out r = Ret (state j, None) /\ world r = world (checkCluster j w) /\
      events r = events (checkCluster j w))
  \/ (Stage (state j) <> JobStage_Queued /\ Stage (state j) <> JobStage_Started /\
      now - DefaultFailureTime <= Ts (state j) /\
      r = Run (Ret (state j, Some ("deployJob: unexpected state: " +:+ PrintJob (state j)))) w []).
Proof.
  intros r. subst r. unfold AdvanceJob.
  destruct (JobStage_eqb (Stage (state j)) JobStage_Queued) eqn:Hq.
  { (* the update phase *)
    pose proof (updateCluster_stateless j w) as Hev.
    destruct (updateCluster j w) as [[[params [e |]] | msg] w1 evs] eqn:Hu; simpl in Hev.
    - rewrite (bind_Ret _ _ _ _ _ _ Hu). simpl.
      right; left. eexists _, _, (evs ++ [Log _]). split; [reflexivity |].
      split; [reflexivity |]. split.
      + apply Forall_app. split; [done | by repeat constructor].
      + by rewrite <- app_assoc.
    - rewrite (bind_Ret _ _ _ _ _ _ Hu). simpl.
      right; left.
      destruct (fst (UpdateBuildHash (db j) (component j) (sha j) w1)) as [e |]; simpl.
      + eexists _, _, (evs ++ [CallUpdateBuildHash _ _; Log _]). split; [reflexivity |].
        split; [reflexivity |]. split.
        * apply Forall_app. split; [done | by repeat constructor].
        * by rewrite <- app_assoc.
      + eexists _, _, (evs ++ [CallUpdateBuildHash _ _]). split; [reflexivity |].
        split; [reflexivity |]. split.
        * apply Forall_app. split; [done | by repeat constructor].
        * by rewrite <- app_assoc.
    - rewrite (bind_Panic _ _ _ _ _ _ Hu). left. eauto. }
  destruct (Z.ltb (Ts (state j)) (now - DefaultFailureTime)) eqn:Hlate.
  { (* the timeout *)
    right; left. eexists _, _, [Log _]. split; [reflexivity |].
    split; [reflexivity |]. split; [by repeat constructor | reflexivity]. }
  apply Z.ltb_ge in Hlate.
  destruct (JobStage_eqb (Stage (state j)) JobStage_Started) eqn:Hs.
  { (* the check phase *)
    apply JobStage_eqb_eq in Hs.
    pose proof (checkCluster_stateless j w) as Hev.
    destruct (checkCluster j w) as [[[running [e |]] | msg] w1 evs] eqn:Hc; simpl in Hev.
    - rewrite (bind_Ret _ _ _ _ _ _ Hc). simpl.
      right; left. eexists _, _, (evs ++ [Log _]). split; [reflexivity |].
      split; [reflexivity |]. split.
      + apply Forall_app. split; [done | by repeat constructor].
      + by rewrite <- app_assoc.
    - rewrite (bind_Ret _ _ _ _ _ _ Hc). destruct running; simpl.
      + right; left.
        destruct (fst (UpdateDeployHash (db j) (component j) (sha j) w1)) as [e |]; simpl.
        * eexists _, _, (evs ++ [CallUpdateDeployHash _ _; Log _]). split; [reflexivity |].
          split; [reflexivity |]. split.
          -- apply Forall_app. split; [done | by repeat constructor].
          -- by rewrite <- app_assoc.
        * eexists _, _, (evs ++ [CallUpdateDeployHash _ _]). split; [reflexivity |].
          split; [reflexivity |]. split.
          -- apply Forall_app. split; [done | by repeat constructor].
          -- by rewrite <- app_assoc.
      + right; right; left. rewrite app_nil_r. done.
    - rewrite (bind_Panic _ _ _ _ _ _ Hc). left. eauto. }
  right; right; right. repeat split; try done.
  - intros Heq. rewrite Heq in Hq. discriminate.
  - intros Heq. rewrite Heq in Hs. discriminate.
Qed.

End Cases.

Section Claims.
Context {W : Type} {mc : Consts}.

(** C2 (amended).  On a job whose stage is neither [Queued] nor [Started]
    and whose timestamp is not older than the maximum job duration,
    [AdvanceJob] returns the state it was given together with the
    unexpected-state error, makes no call and leaves the world as it is. *)
Theorem AdvanceJob_unexpected_stage (j : deployJob W) (now : Z) (w : W) :
  Stage (state j) <> JobStage_Queued ->
  Stage (state j) <> JobStage_Started ->
  now - DefaultFailureTime <= Ts (state j) ->
  AdvanceJob j now w =
  Run (Ret (state j, Some ("deployJob: unexpected state: " +:+ PrintJob (state j)))) w [].
Proof.
  intros Hq Hs Hfresh. unfold AdvanceJob.
  rewrite (JobStage_eqb_neq _ _ Hq), (JobStage_eqb_neq _ _ Hs).
  by rewrite (proj2 (Z.ltb_ge _ _) Hfresh).
Qed.


(** C9.  [AdvanceJob] never writes the timestamp: the state it returns, and
    every state it hands to the notifier or to the store, carries the
    timestamp of the state the job was constructed with. *)
Theorem AdvanceJob_keeps_timestamp (j : deployJob W) (now : Z) (w : W) :
  let r := AdvanceJob j now w in
  (forall st err, out r = Ret (st, err) -> Ts st = Ts (state j)) /\
  (forall ev st, ev ∈ events r -> stateOf ev = Some st -> Ts st = Ts (state j)).
Proof.
  intros r. subst r.
  destruct (AdvanceJob_cases j now w)
    as [(msg & Hp & Hall) | [(st0 & err0 & pre & Hr & Hts & Hall & Hev)
       | [(_ & _ & _ & Hr & _ & Hev) | (_ & _ & _ & Hr)]]].
  - split.
    + intros st err Hout. rewrite Hp in Hout. discriminate.
    + intros ev st Hin Hst. rewrite Forall_forall in Hall.
      rewrite (Hall _ Hin) in Hst. discriminate.
  - split.
    + intros st err Hout. rewrite Hr in Hout. by injection Hout as <- <-.
    + intros ev st Hin Hst. rewrite Hev in Hin.
      apply elem_of_app in Hin as [Hin | Hin].
      * rewrite Forall_forall in Hall. rewrite (Hall _ Hin) in Hst. discriminate.
      * apply elem_of_cons in Hin as [-> | Hin]; [by injection Hst as <- |].
        apply elem_of_cons in Hin as [-> | Hin]; [by injection Hst as <- |].
        by apply elem_of_nil in Hin.
  - split.
    + intros st err Hout. rewrite Hr in Hout. by injection Hout as <- <-.
    + intros ev st Hin Hst. rewrite Hev in Hin.
      pose proof (checkCluster_stateless j w) as Hall.
      rewrite Forall_forall in Hall. rewrite (Hall _ Hin) in Hst. discriminate.
  - rewrite Hr. simpl. split.
    + intros st err Hout. by injection Hout as <- <-.
    + intros ev st Hin. by apply elem_of_nil in Hin.
Qed.

(** C10.  When the constructor succeeds, a parameter bag that already holds
    a layout entry is left exactly as it was, so the entry keeps its value;
    only when there is no entry does the constructor store the layout that
    [PopulateLayout] has just resolved for the job's component.  Stage and
    timestamp are taken over in both cases. *)
Theorem DeployJob_keeps_present_layout (db : Database W) (d : Deployment W)
    (notifs : Notifs W) (jobState : JobState) (w : W) (j : deployJob W) (err : error) :
  out (DeployJob db d notifs jobState w) = Ret (Some j, err) ->
  (forall v, Params jobState !! LayoutParam = Some v ->
     Params (state j) = Params jobState /\ Params (state j) !! LayoutParam = Some v) /\
  (Params jobState !! LayoutParam = None ->
     exists c, Params jobState !! JobParam_Component = Some (VString c) /\
       let fresh := VStrMap (fst (fst (PopulateLayout d c w))) in
       Params (state j) = <[LayoutParam := fresh]> (Params jobState) /\
       Params (state j) !! LayoutParam = Some fresh) /\
  Stage (state j) = Stage jobState /\ Ts (state j) = Ts jobState.
Proof.
  unfold DeployJob, asString.
  destruct (Params jobState !! JobParam_Component) as [[c | | |] |] eqn:Hc;
    simpl; try discriminate.
  destruct (Params jobState !! JobParam_Sha) as [[s | | |] |] eqn:Hs;
    simpl; try discriminate.
  unfold bind, call. simpl.
  destruct (PopulateLayout d c w) as [[clusterLayout [e |]] w1] eqn:Hp;
    simpl; [discriminate |].
  destruct (GetRegistryUri d c w1) as [[uri [e |]] w2]; simpl; [discriminate |].
  intros Hout. injection Hout as <- <-. simpl.
  destruct (Params jobState !! LayoutParam) as [v0 |] eqn:Hl.
  - split; [| split; [intros Hnone; discriminate | done]].
    intros v Hv. split; [done | by rewrite Hl].
  - split; [intros v Hv; discriminate | split; [| done]].
    intros _. exists c. split; [done |]. rewrite Hp. simpl.
    split; [done | apply lookup_insert_eq].
Qed.

End Claims.

(** At a completed job past the deadline the timeout branch runs first: the
    job is moved to [Failed] and no error is returned. *)
Lemma AdvanceJob_terminal_stage_times_out :
  let j := Demo.jobAt JobStage_Completed 0 true in
  let r := AdvanceJob (mc := Demo.consts) j 1800000000001 tt in
  Stage (state j) = JobStage_Completed /\
  (forall msg, out r <> Ret (state j, Some msg)) /\
  (exists st, out r = Ret (st, None) /\ Stage st = JobStage_Failed) /\
  events r <> [].
Proof.
  split; [reflexivity |]. split; [| split].
  - intros msg Hout. vm_compute in Hout. discriminate.
  - eexists. split; [vm_compute; reflexivity | reflexivity].
  - vm_compute. discriminate.
Qed.

Lemma AdvanceJob_unexpected_stage_witness :
  let j := Demo.jobAt JobStage_Completed 0 true in
  Stage (state j) <> JobStage_Queued /\
  Stage (state j) <> JobStage_Started /\
  5 - DefaultFailureTime (Consts := Demo.consts) <= Ts (state j) /\
  AdvanceJob (mc := Demo.consts) j 5 tt =
  Run (Ret (state j, Some "deployJob: unexpected state: completed")) tt [].
Proof.
  split; [discriminate |]. split; [discriminate |]. split; [vm_compute; discriminate |].
  apply (AdvanceJob_unexpected_stage (mc := Demo.consts)
           (Demo.jobAt JobStage_Completed 0 true) 5 tt);
    [discriminate | discriminate | vm_compute; discriminate].
Defined.



Lemma AdvanceJob_keeps_timestamp_witness :
  let j := Demo.jobAt JobStage_Queued 42 true in
  let r := AdvanceJob (mc := Demo.consts) j 50 tt in
  exists st, out r = Ret (st, None) /\ Ts st = 42.
Proof.
  eexists. split; [vm_compute; reflexivity |].
  apply (proj1 (AdvanceJob_keeps_timestamp (mc := Demo.consts)
                  (Demo.jobAt JobStage_Queued 42 true) 50 tt) _ None).
  reflexivity.
Defined.

(** A job resumed with a stamped layout keeps it, although the client would
    resolve a fresh one; a job without a layout gets the fresh one. *)
Lemma DeployJob_keeps_present_layout_witness :
  let st := mkJobState JobStage_Started 0 Demo.demoParams in
  let r := DeployJob (mc := Demo.consts) Demo.okDb (Demo.okDeployment true)
                     Demo.quietNotifs st tt in
  exists j, out r = Ret (Some j, None) /\
    Params st !! LayoutParam = Some Demo.stampedLayout /\
    Params (state j) !! LayoutParam = Some Demo.stampedLayout.
Proof.
  eexists. split; [vm_compute; reflexivity |]. split; [reflexivity |].
  apply (proj1 (DeployJob_keeps_present_layout (mc := Demo.consts) Demo.okDb
                  (Demo.okDeployment true) Demo.quietNotifs
                  (mkJobState JobStage_Started 0 Demo.demoParams) tt _ None eq_refl)).
  reflexivity.
Defined.

Section Converged.
Context {W : Type} {mc : Consts}.
Variable j : deployJob W.

(** The loops of [checkCluster] return early with [false] only. *)
Lemma checkCluster_service_returns_false cluster service id w v' x :
  out (checkCluster_service j cluster service id w) = Ret (v', Some x) -> fst x = false.
Proof.
  unfold checkCluster_service, asStr, bind. destruct id; simpl; try discriminate.
  destruct (fst (CheckService (d j) cluster service s w)) as [deployed [msg |]]; simpl.
  - intros Hout. by injection Hout as <- <-.
  - destruct deployed; simpl; [discriminate |]. intros Hout. by injection Hout as <- <-.
Qed.

Lemma checkCluster_type_returns_false cluster deployType deployLayout w v' x :
  out (checkCluster_type j cluster deployType deployLayout w) = Ret (v', Some x) ->
  fst x = false.
Proof.
  unfold checkCluster_type, asStrMap, bind. destruct deployType; simpl.
  - destruct deployLayout; simpl; try discriminate.
    destruct (range (checkCluster_service j cluster) m w) as [[[m' r] | msg] w1 evs] eqn:Hr;
      simpl; [| discriminate].
    intros Hout. injection Hout as <- ->.
    eapply (range_returned _ (fun x => fst x = false)).
    + intros k v w0 v0 x0. apply checkCluster_service_returns_false.
    + by rewrite Hr.
  - discriminate.
  - intros Hout. by injection Hout as <- <-.
Qed.

Lemma checkCluster_cluster_returns_false cluster typeLayout w v' x :
  out (checkCluster_cluster j cluster typeLayout w) = Ret (v', Some x) -> fst x = false.
Proof.
  unfold checkCluster_cluster, asTypeMap, bind. destruct typeLayout; simpl; try discriminate.
  destruct (range (checkCluster_type j cluster) m w) as [[[m' r] | msg] w1 evs] eqn:Hr;
    simpl; [| discriminate].
  intros Hout. injection Hout as <- ->.
  eapply (range_returned _ (fun x => fst x = false)).
  - intros k v w0 v0 x0. apply checkCluster_type_returns_false.
  - by rewrite Hr.
Qed.

(** X12.  The check phase of [deploy.go] reports the layout converged only after
    it has asked the client about every service of every cluster and has been
    told each time that the service is deployed. *)
Lemma checkCluster_converged_asks_every_service (w : W)
    (clusters : list (string * Value)) (cluster : string)
    (typeLayout : list (DeployType * Value)) (services : list (string * Value))
    (service id : string) :
  out (checkCluster j w) = Ret (true, None) ->
  Params (state j) !! LayoutParam = Some (VStrMap clusters) ->
  (cluster, VTypeMap typeLayout) ∈ clusters ->
  (DeployType_Service, VStrMap services) ∈ typeLayout ->
  (service, VString id) ∈ services ->
  CallCheckService cluster service id ∈ events (checkCluster j w) /\
  exists w1, fst (CheckService (d j) cluster service id w1) = (true, None).
Proof.
  intros Hout Hparams Hc Ht Hs. revert Hout.
  unfold checkCluster. rewrite Hparams. unfold asStrMap, bind. simpl.
  destruct (range (checkCluster_cluster j) clusters w) as [[[m1 [x |]] | msg] w1 evs1] eqn:Hr1;
    simpl; [| | discriminate].
  { intros Hout. injection Hout as ->.
    assert (fst (true, @None string) = false) as Hf; [| discriminate].
    eapply (range_returned _ (fun x => fst x = false)).
    - intros k v w0 v0 x0. apply checkCluster_cluster_returns_false.
    - exact (f_equal out Hr1). }
  intros _.
  destruct (range_visits_all (checkCluster_cluster j) clusters m1 w) with
    (k := cluster) (v := VTypeMap typeLayout) as (w2 & v2 & Hout2 & Hsub2);
    [by rewrite Hr1 | done |].
  rewrite Hr1 in Hsub2. simpl in Hsub2.
  revert Hout2 Hsub2. unfold checkCluster_cluster, asTypeMap, bind. simpl.
  destruct (range (checkCluster_type j cluster) typeLayout w2)
    as [[[m2 x] | msg] w3 evs2] eqn:Hr2; simpl; [| discriminate].
  intros Hout2 Hsub2. injection Hout2 as _ ->.
  destruct (range_visits_all (checkCluster_type j cluster) typeLayout m2 w2) with
    (k := DeployType_Service) (v := VStrMap services) as (w4 & v4 & Hout4 & Hsub4);
    [by rewrite Hr2 | done |].
  rewrite Hr2 in Hsub4. simpl in Hsub4.
  revert Hout4 Hsub4. unfold checkCluster_type, asStrMap, bind. simpl.
  destruct (range (checkCluster_service j cluster) services w4)
    as [[[m3 x] | msg] w5 evs3] eqn:Hr3; simpl; [| discriminate].
  intros Hout4 Hsub4. injection Hout4 as _ ->.
  destruct (range_visits_all (checkCluster_service j cluster) services m3 w4) with
    (k := service) (v := VString id) as (w6 & v6 & Hout6 & Hsub6);
    [by rewrite Hr3 | done |].
  rewrite Hr3 in Hsub6. simpl in Hsub6.
  revert Hout6 Hsub6. unfold checkCluster_service, asStr, bind. simpl.
  destruct (fst (CheckService (d j) cluster service id w6)) as [deployed [msg |]] eqn:Hcs;
    simpl; [discriminate |].
  destruct deployed; simpl; [| discriminate].
  intros _ Hsub6. split; [| by exists w6].
  rewrite app_nil_r. apply Hsub2. rewrite app_nil_r. apply Hsub4.
  rewrite app_nil_r. apply Hsub6. apply elem_of_cons. by left.
Qed.

End Converged.

End JobsFacts.


(* ===================================================================== *)
(** ** The ECS driver                                                     *)
(* ===================================================================== *)

Module AwsFacts.
Import Aws Rollout GoFacts.

Section Stops.
Context {W : Type} {tg : Tagging}.
Variable e : Ecs W.

Local Abbreviation quiet := (fun ev : Event => isStop ev = false).

Lemma describeEcsService_quiet (cluster service : string) (w : W) :
  Forall quiet (events (describeEcsService e cluster service w)).
Proof.
  unfold describeEcsService.
  apply events_bind_Forall; [by apply events_call_Forall |].
  intros [output [msg |]] w1.
  - apply events_bind_Forall; [by apply events_emit_Forall | intros; constructor].
  - destruct (Failures output).
    + constructor.
    + apply events_bind_Forall; [by apply events_emit_Forall | intros; constructor].
Qed.

Lemma updateEcsTaskDefinition_quiet (taskDefArn image : string) (w : W) :
  Forall quiet (events (updateEcsTaskDefinition e taskDefArn image w)).
Proof.
  unfold updateEcsTaskDefinition.
  apply events_bind_Forall; [by apply events_call_Forall |].
  intros [descTaskDefOutput [msg |]] w1.
  - apply events_bind_Forall; [by apply events_emit_Forall | intros; constructor].
  - apply events_bind_Forall; [apply events_deref_Forall |].
    intros taskDef w2. apply events_bind_Forall.
    { unfold setFirstImage. destruct (ContainerDefinitions taskDef); constructor. }
    intros cds w3. apply events_bind_Forall; [by apply events_call_Forall |].
    intros [regTaskDefOutput [msg |]] w4.
    + apply events_bind_Forall; [by apply events_emit_Forall | intros; constructor].
    + apply events_bind_Forall; [apply events_deref_Forall |].
      intros registered w5. apply events_bind_Forall; [apply events_deref_Forall |].
      intros newArn w6. constructor.
Qed.

(** The service update of a transient unit lists and stops no task. *)
Lemma updateEcsService_transient_quiet (cluster service image : string) (w : W) :
  Forall quiet (events (updateEcsService e cluster service image true w)).
Proof.
  unfold updateEcsService.
  apply events_bind_Forall; [apply describeEcsService_quiet |].
  intros [descSvcOutput err0] w1.
  apply events_bind_Forall; [apply events_deref_Forall |]. intros output w2.
  apply events_bind_Forall; [apply events_index0_Forall |]. intros svc w3.
  apply events_bind_Forall; [apply events_deref_Forall |]. intros taskDefArn w4.
  apply events_bind_Forall; [apply updateEcsTaskDefinition_quiet |].
  intros [newTaskDefArn err1] w5.
  apply events_bind_Forall; [by apply events_call_Forall |].
  intros [msg |] w6; simpl.
  - by repeat constructor.
  - constructor.
Qed.

(** The plain-task update of a transient unit lists and stops no task. *)
Lemma updateEcsTask_transient_quiet (cluster family image : string) (w : W) :
  Forall quiet (events (updateEcsTask e cluster family image true w)).
Proof.
  unfold updateEcsTask.
  apply events_bind_Forall; [by apply events_call_Forall |].
  intros [taskDefinitionArns [msg |]] w1; [constructor |].
  simpl negb. cbv iota.
  apply events_bind_Forall; [constructor |].
  intros [msg |] w2; [constructor |].
  apply events_bind_Forall; [apply events_index0_Forall |].
  intros taskDefArn w3. apply updateEcsTaskDefinition_quiet.
Qed.

(** C6.  For a task with [temp == true] the update phase issues no
    force-stop: neither the service update nor the plain-task update of that
    unit lists the running tasks of the family or stops one. *)
Theorem transient_unit_never_stopped (task : Task)
    (cluster name taskSetRepo commitHash : string) (w : W) :
  Temp task = true ->
  Forall (fun ev => isStop ev = false)
         (events (updateEnvServiceTask e task cluster name taskSetRepo commitHash w)) /\
  Forall (fun ev => isStop ev = false)
         (events (updateEnvTask e task cluster name taskSetRepo commitHash w)).
Proof.
  intros Htemp. unfold updateEnvServiceTask, updateEnvTask. rewrite Htemp. split.
  - apply events_bind_Forall; [apply updateEcsService_transient_quiet |].
    intros [id [msg |]] w1; constructor.
  - apply events_bind_Forall; [apply updateEcsTask_transient_quiet |].
    intros [id [msg |]] w1; constructor.
Qed.

End Stops.

(** The theorem at the anchor worker of the cas layout. *)
Lemma transient_unit_never_stopped_witness :
  let anchor := mkTask "" "ceramic-dev-cas-runner" true in
  Temp anchor = true /\
  Forall (fun ev => isStop ev = false)
         (events (updateEnvTask (tg := Demo.tagging) (Demo.demoEcs "") anchor
                                "ceramic-dev-cas" "ceramic-dev-cas-anchor"
                                "ceramic-dev-cas" "abc123" tt)).
Proof.
  split; [reflexivity |].
  apply (transient_unit_never_stopped (tg := Demo.tagging) (Demo.demoEcs "")
           (mkTask "" "ceramic-dev-cas-runner" true)
           "ceramic-dev-cas" "ceramic-dev-cas-anchor" "ceramic-dev-cas" "abc123" tt).
  reflexivity.
Defined.

(** A unit that is not transient is stopped by the same update. *)
Example permanent_unit_is_stopped :
  Exists (fun ev => isStop ev = true)
         (events (updateEnvTask (tg := Demo.tagging) (Demo.demoEcs "")
                                (mkTask "" "" false)
                                "ceramic-dev-cas" "ceramic-dev-cas-anchor"
                                "ceramic-dev-cas" "abc123" tt)).
Proof. vm_compute. apply Exists_cons_tl. by apply Exists_cons_hd. Qed.

Section Topology.
Context {W : Type}.

(** C8.  Component cas in environment dev resolves to one cluster,
    ceramic-dev-cas, whose service tasks are exactly ceramic-dev-cas-api and
    ceramic-dev-cas-scheduler and whose plain tasks are exactly the transient
    ceramic-dev-cas-anchor. *)
Theorem PopulateEnvLayout_cas_dev (e : Ecs W) (getenv : string -> string) :
  getenv "ENV" = "dev" ->
  PopulateEnvLayout e getenv "cas" =
  (Some (mkLayout
     [("ceramic-dev-cas",
       mkCluster
         (Some (mkTaskSet [("ceramic-dev-cas-api", emptyTask);
                           ("ceramic-dev-cas-scheduler", emptyTask)] ""))
         (Some (mkTaskSet [("ceramic-dev-cas-anchor",
                            mkTask "" "ceramic-dev-cas-runner" true)] ""))
         "")]
     "ceramic-dev-cas"),
   None).
Proof. intros Henv. unfold PopulateEnvLayout. rewrite Henv. reflexivity. Qed.

End Topology.

Lemma PopulateEnvLayout_cas_dev_witness :
  (fun _ : string => "dev") "ENV" = "dev" /\
  exists layout,
    PopulateEnvLayout (Demo.demoEcs "") (fun _ => "dev") "cas" = (Some layout, None) /\
    List.map fst (Clusters layout) = ["ceramic-dev-cas"].
Proof.
  split; [reflexivity |]. eexists. split.
  - apply (PopulateEnvLayout_cas_dev (Demo.demoEcs "") (fun _ => "dev")). reflexivity.
  - reflexivity.
Defined.

Section Check.
Context {W : Type} {tg : Tagging}.
Variable e : Ecs W.

(** The loop of [checkEnvTaskSet] over services leaves the function in its
    first iteration, whatever the service reports: the units after the first
    one visited are never asked about. *)
Lemma checkEnvTaskSet_first_service_only (ts : TaskSet) (name : string) (task : Task)
    (rest : list (string * Task)) (cluster : string) (w : W) :
  Tasks ts = (name, task) :: rest ->
  checkEnvTaskSet e (Some ts) DeployType_Service cluster w =
  checkEnvTaskSet e (Some (mkTaskSet [(name, task)] (TaskSetRepo ts)))
                  DeployType_Service cluster w.
Proof.
  intros Hts. unfold checkEnvTaskSet. rewrite Hts. simpl.
  unfold bind.
  destruct (checkEcsService e cluster name (Id task) w) as [[[deployed [msg |]] | msg] w1 evs];
    simpl; try done.
  by destruct deployed.
Qed.

(** So a task set whose first service has converged is reported converged. *)
Lemma checkEnvTaskSet_first_service_decides (ts : TaskSet) (name : string) (task : Task)
    (rest : list (string * Task)) (cluster : string) (w : W) :
  Tasks ts = (name, task) :: rest ->
  out (checkEcsService e cluster name (Id task) w) = Ret (true, None) ->
  out (checkEnvTaskSet e (Some ts) DeployType_Service cluster w) = Ret (true, None).
Proof.
  intros Hts Hfirst. unfold checkEnvTaskSet. rewrite Hts. simpl.
  unfold bind.
  destruct (checkEcsService e cluster name (Id task) w) as [[[deployed [msg |]] | msg] w1 evs];
    simpl in *; try discriminate.
  injection Hfirst as ->. done.
Qed.

End Check.

(** C1.  The check phase of the ECS driver at the stamped cas layout, in a
    cluster where the API service runs its stored revision and the scheduler
    does not: [CheckEnv] reports the layout converged after a single
    question about the API service, although [checkEcsService] answers
    not-converged for the scheduler. *)
Theorem CheckEnv_stops_at_first_service :
  let e := Demo.demoEcs "" in
  out (CheckEnv e Demo.casLayout tt) = Ret (true, None) /\
  events (CheckEnv e Demo.casLayout tt)
  = [EcsDescribeServices "ceramic-dev-cas" ["ceramic-dev-cas-api"]] /\
  out (checkEcsService e "ceramic-dev-cas" "ceramic-dev-cas-scheduler" "scheduler:5" tt)
  = Ret (false, None).
Proof. repeat split; reflexivity. Qed.

Section Flat.
Context {W : Type} {tg : Tagging}.
Variable e : Ecs W.
Variable commitHash : string.

(** The body of the loop of [updateEnvTaskSet], run inside the loop of
    [UpdateEnv], is the update of the unit with the repository resolved in
    the order task, task set, cluster, layout. *)
Lemma updateEnvTaskSet_body_unit (ts : TaskSet) (deployType : DeployType)
    (clusterName clusterRepo layoutRepo name : string) (task : Task) (w : W) :
  updateEnvTaskSet_body e ts deployType clusterName
    (if nonEmpty clusterRepo then clusterRepo else layoutRepo) commitHash name task w
  = updateUnit e commitHash
      (mkUnit deployType clusterName name
              (effectiveRepo layoutRepo clusterRepo (TaskSetRepo ts) (Repo task)))
      task w.
Proof.
  unfold updateEnvTaskSet_body, updateUnit, updateEnvServiceTask, updateEnvTask,
    effectiveRepo. simpl.
  destruct deployType, (nonEmpty (Repo task)), (nonEmpty (TaskSetRepo ts)),
    (nonEmpty clusterRepo); reflexivity.
Qed.

(** The update of a unit writes the identifier only, and nothing when it
    fails. *)
Lemma updateUnit_keeps (u : Unit) (task task' : Task) (x : option string) (w : W) :
  out (updateUnit e commitHash u task w) = Ret (task', x) ->
  Repo task' = Repo task /\ Temp task' = Temp task /\ (x <> None -> task' = task).
Proof.
  unfold updateUnit. destruct (unitType u).
  - unfold bind.
    destruct (updateEcsService e _ _ _ _ w) as [[[id [msg |]] | msg] w1 evs]; simpl;
      intros Hout; try discriminate; injection Hout as <- <-; by repeat split.
  - unfold bind.
    destruct (updateEcsTask e _ _ _ _ w) as [[[id [msg |]] | msg] w1 evs]; simpl;
      intros Hout; try discriminate; injection Hout as <- <-; by repeat split.
  - simpl. intros Hout. injection Hout as <- <-. by repeat split.
Qed.

Lemma tasks_flat (ts : TaskSet) (deployType : DeployType)
    (clusterName clusterRepo layoutRepo : string) (tasks : list (string * Task)) (w : W) :
  let key := fun '(name, task) =>
    (mkUnit deployType clusterName name
            (effectiveRepo layoutRepo clusterRepo (TaskSetRepo ts) (Repo task)), task) in
  range (updateUnit e commitHash) (List.map key tasks) w
  = mapOut (fun '(tasks', err) => (List.map key tasks', err))
      (range (updateEnvTaskSet_body e ts deployType clusterName
                (if nonEmpty clusterRepo then clusterRepo else layoutRepo) commitHash)
             tasks w).
Proof.
  intros key. revert w. induction tasks as [| [name task] rest IH]; intros w; [done |].
  pose proof (updateEnvTaskSet_body_unit ts deployType clusterName clusterRepo layoutRepo
                name task w) as Hunit.
  change (List.map key ((name, task) :: rest))
    with ((mkUnit deployType clusterName name
             (effectiveRepo layoutRepo clusterRepo (TaskSetRepo ts) (Repo task)), task)
          :: List.map key rest).
  destruct (updateUnit e commitHash _ task w) as [[[task' [x |]] | msg] w1 evs] eqn:Hu.
  - destruct (updateUnit_keeps _ _ _ _ _ (f_equal out Hu)) as (Hrepo & _ & _).
    rewrite (range_cons_stop _ _ _ _ _ _ _ _ _ Hu).
    rewrite (range_cons_stop _ _ _ _ _ _ _ _ _ Hunit).
    unfold mapOut. simpl. by rewrite Hrepo.
  - destruct (updateUnit_keeps _ _ _ _ _ (f_equal out Hu)) as (Hrepo & _ & _).
    rewrite (range_cons_go _ _ _ _ _ _ _ _ Hu).
    rewrite (range_cons_go _ _ _ _ _ _ _ _ Hunit).
    rewrite IH. unfold mapOut. simpl.
    destruct (range _ rest w1) as [[[rest' x] | msg] w2 evs2]; simpl; [| done].
    by rewrite Hrepo.
  - rewrite (range_cons_panic _ _ _ _ _ _ _ _ Hu).
    by rewrite (range_cons_panic _ _ _ _ _ _ _ _ Hunit).
Qed.

Lemma updateEnvTaskSet_flat (taskSet : option TaskSet) (deployType : DeployType)
    (clusterName clusterRepo layoutRepo : string) (w : W) :
  range (updateUnit e commitHash)
        (taskSetUnits layoutRepo clusterName clusterRepo deployType taskSet) w
  = mapOut (fun '(taskSet', err) =>
              (taskSetUnits layoutRepo clusterName clusterRepo deployType taskSet', err))
      (updateEnvTaskSet e taskSet deployType clusterName
         (if nonEmpty clusterRepo then clusterRepo else layoutRepo) commitHash w).
Proof.
  destruct taskSet as [ts |]; [| done].
  unfold taskSetUnits, updateEnvTaskSet. rewrite tasks_flat.
  unfold mapOut, bind.
  destruct (range _ (Tasks ts) w) as [[[tasks' err] | msg] w1 evs]; simpl; [| done].
  by rewrite app_nil_r.
Qed.

Lemma updateEnvCluster_flat (cluster : Cluster) (clusterName layoutRepo : string) (w : W) :
  range (updateUnit e commitHash) (clusterUnits layoutRepo clusterName cluster) w
  = mapOut (fun '(cluster', err) => (clusterUnits layoutRepo clusterName cluster', err))
      (updateEnvCluster e cluster clusterName
         (if nonEmpty (ClusterRepo cluster) then ClusterRepo cluster else layoutRepo)
         commitHash w).
Proof.
  unfold clusterUnits. rewrite range_app. simpl. rewrite updateEnvTaskSet_flat.
  unfold updateEnvCluster, bind, mapOut.
  destruct (updateEnvTaskSet e (ServiceTasks cluster) _ _ _ _ w)
    as [[[serviceTasks [msg |]] | msg] w1 evs]; simpl.
  - by rewrite app_nil_r.
  - rewrite updateEnvTaskSet_flat. unfold mapOut.
    destruct (updateEnvTaskSet e (ClusterTasks cluster) _ _ _ _ w1)
      as [[[tasks err] | msg] w2 evs2]; simpl; [| done].
    by rewrite app_nil_r.
  - done.
Qed.

Lemma clusters_flat (layout : Layout) (clusters : list (string * Cluster)) (w : W) :
  let flat := List.flat_map (fun '(clusterName, cluster) =>
                               clusterUnits (LayoutRepo layout) clusterName cluster) in
  range (updateUnit e commitHash) (flat clusters) w
  = mapOut (fun '(clusters', err) => (flat clusters', err))
      (range (UpdateEnv_body e layout commitHash) clusters w).
Proof.
  intros flat. revert w. induction clusters as [| [clusterName cluster] rest IH]; intros w;
    [done |].
  change (flat ((clusterName, cluster) :: rest))
    with (clusterUnits (LayoutRepo layout) clusterName cluster ++ flat rest).
  rewrite range_app. cbv zeta. rewrite updateEnvCluster_flat.
  change (updateEnvCluster e cluster clusterName _ commitHash w)
    with (UpdateEnv_body e layout commitHash clusterName cluster w).
  destruct (UpdateEnv_body e layout commitHash clusterName cluster w)
    as [[[cluster' [msg |]] | msg] w1 evs] eqn:Hb.
  - rewrite (range_cons_stop _ _ _ _ _ _ _ _ _ Hb). unfold mapOut. simpl.
    by rewrite app_nil_r.
  - rewrite (range_cons_go _ _ _ _ _ _ _ _ Hb). unfold mapOut at 1 2 3. simpl.
    rewrite IH. unfold mapOut. simpl.
    destruct (range _ rest w1) as [[[rest' x] | msg'] w2 evs2]; simpl;
      by rewrite ?app_nil_r.
  - rewrite (range_cons_panic _ _ _ _ _ _ _ _ Hb). done.
Qed.

(** The update phase is the walk over the units of the layout. *)
Lemma UpdateEnv_flat (layout : Layout) (w : W) :
  range (updateUnit e commitHash) (units layout) w
  = mapOut (fun '(layout', err) => (units layout', err)) (UpdateEnv e layout commitHash w).
Proof.
  unfold units. rewrite clusters_flat. unfold UpdateEnv, bind, mapOut.
  destruct (range _ (Clusters layout) w) as [[[clusters' err] | msg] w1 evs]; simpl;
    [| done].
  by rewrite app_nil_r.
Qed.

End Flat.

Section Resolution.

(** First non-empty wins, in the order task, task set, cluster, layout. *)
Lemma effectiveRepo_order (layoutRepo clusterRepo taskSetRepo taskRepo : string) :
  (taskRepo <> "" -> effectiveRepo layoutRepo clusterRepo taskSetRepo taskRepo = taskRepo) /\
  (taskSetRepo <> "" -> effectiveRepo layoutRepo clusterRepo taskSetRepo "" = taskSetRepo) /\
  (clusterRepo <> "" -> effectiveRepo layoutRepo clusterRepo "" "" = clusterRepo) /\
  effectiveRepo layoutRepo "" "" "" = layoutRepo.
Proof.
  unfold effectiveRepo. repeat split.
  - by destruct taskRepo.
  - by destruct taskSetRepo.
  - by destruct clusterRepo.
Qed.

End Resolution.

Section Describe.
Context {W : Type} {tg : Tagging}.
Variable e : Ecs W.

(** X19.  When the description of the service fails, [updateEcsService] does not
    return the error: it goes on to dereference the nil output. *)
Remark updateEcsService_describe_error_panics (cluster service image : string)
    (transientTask : bool) (msg : string) (w : W) :
  snd (fst (DescribeServices (ecsClient e) cluster [service] w)) = Some msg ->
  out (updateEcsService e cluster service image transientTask w)
  = Panic "invalid memory address or nil pointer dereference".
Proof.
  intros Herr.
  destruct (fst (DescribeServices (ecsClient e) cluster [service] w)) as [output err] eqn:Hd.
  simpl in Herr. subst err.
  assert (Hrun : exists evs,
             describeEcsService e cluster service w
             = Run (Ret (None, Some msg))
                   (snd (DescribeServices (ecsClient e) cluster [service] w)) evs).
  { unfold describeEcsService. rewrite (bind_Ret _ _ _ _ _ _ (call_run _ _ _ _ Hd)).
    eexists. reflexivity. }
  destruct Hrun as [evs Hrun]. unfold updateEcsService.
  rewrite (bind_Ret _ _ _ _ _ _ Hrun). cbv beta iota.
  by rewrite (bind_Panic (deref None) _ _ _ _ [] eq_refl).
Qed.

End Describe.

Section Update.
Context {W : Type} {tg : Tagging}.
Variable e : Ecs W.

(** Every task of a layout is one of its units, with the repository resolved
    from the task, its task set, its cluster and the layout. *)
Lemma units_of_layout (layout : Layout) (clusterName : string) (cluster : Cluster)
    (deployType : DeployType) (ts : TaskSet) (name : string) (task : Task) :
  (clusterName, cluster) ∈ Clusters layout ->
  (deployType = DeployType_Service /\ ServiceTasks cluster = Some ts
   \/ deployType = DeployType_Task /\ ClusterTasks cluster = Some ts) ->
  (name, task) ∈ Tasks ts ->
  (mkUnit deployType clusterName name
          (effectiveRepo (LayoutRepo layout) (ClusterRepo cluster) (TaskSetRepo ts) (Repo task)),
   task) ∈ units layout.
Proof.
  intros Hc Hts Ht. unfold units.
  apply list_elem_of_In, in_flat_map. exists (clusterName, cluster).
  split; [by apply list_elem_of_In |].
  apply list_elem_of_In. unfold clusterUnits. apply elem_of_app.
  destruct Hts as [[-> Hs] | [-> Hs]]; [left | right]; rewrite Hs; simpl;
    apply list_elem_of_In, in_map_iff; exists (name, task);
    (split; [done | by apply list_elem_of_In]).
Qed.

(** C3.  The update phase runs exactly as the walk that updates each unit of
    the layout with the image [repo:commitHash], where [repo] is the task's
    repository if non-empty, else the task set's, else the cluster's, else
    the layout's: same calls, same world, same error, and the layout left
    behind has the units the walk leaves. *)
Theorem UpdateEnv_uses_effective_repository (layout : Layout) (commitHash : string) (w : W) :
  sameRun (fun '(layout', err) '(us, err') => us = units layout' /\ err' = err)
          (UpdateEnv e layout commitHash w)
          (updateUnits e commitHash (units layout) w).
Proof.
  unfold sameRun, updateUnits. rewrite UpdateEnv_flat. unfold mapOut.
  destruct (UpdateEnv e layout commitHash w) as [[[layout' err] | msg] w1 evs]; by simpl.
Qed.

Lemma UpdateEnv_shape (layout layout' : Layout) (commitHash : string) (err : error) (w : W) :
  out (UpdateEnv e layout commitHash w) = Ret (layout', err) ->
  List.map fst (Clusters layout') = List.map fst (Clusters layout) /\
  LayoutRepo layout' = LayoutRepo layout.
Proof.
  unfold UpdateEnv, bind.
  destruct (range _ (Clusters layout) w) as [[[clusters' x] | msg] w1 evs] eqn:Hr; simpl;
    [| discriminate].
  intros Hout. injection Hout as <- <-. simpl. split; [| done].
  eapply range_keys. by rewrite Hr.
Qed.

(** C7.  If the units before some unit are updated without error and the
    update of that unit fails, then the update phase returns that error, has
    made no call after the failing one, and leaves a layout in which the
    units updated before the failure carry the identifiers written to them,
    while the failing unit and the units after it are as they were. *)
Theorem UpdateEnv_aborts_at_first_failure (layout : Layout) (commitHash : string) (w : W)
    (before before' rest : list (Unit * Task)) (u : Unit) (task task' : Task) (msg : string) :
  units layout = before ++ (u, task) :: rest ->
  out (updateUnits e commitHash before w) = Ret (before', None) ->
  out (updateUnit e commitHash u task (world (updateUnits e commitHash before w)))
  = Ret (task', Some msg) ->
  exists layout',
    out (UpdateEnv e layout commitHash w) = Ret (layout', Some msg) /\
    units layout' = before' ++ (u, task) :: rest /\
    List.map fst (Clusters layout') = List.map fst (Clusters layout) /\
    world (UpdateEnv e layout commitHash w)
    = world (updateUnit e commitHash u task (world (updateUnits e commitHash before w))) /\
    events (UpdateEnv e layout commitHash w)
    = events (updateUnits e commitHash before w)
      ++ events (updateUnit e commitHash u task (world (updateUnits e commitHash before w))).
Proof.
  unfold updateUnits. intros Hunits Hbefore Hfail.
  pose proof (UpdateEnv_flat e commitHash layout w) as Hflat.
  rewrite Hunits, range_app in Hflat. cbv zeta in Hflat.
  destruct (range (updateUnit e commitHash) before w) as [[[b x] | m] w1 evs1];
    simpl in Hbefore, Hfail |- *; [| discriminate].
  injection Hbefore as -> ->.
  destruct (updateUnit e commitHash u task w1) as [[[t y] | m] w2 evs2] eqn:Hu;
    simpl in Hfail |- *; [| discriminate].
  injection Hfail as -> ->.
  destruct (updateUnit_keeps e commitHash u task task' (Some msg) w1) as (_ & _ & Hsame);
    [by rewrite Hu |].
  rewrite (Hsame ltac:(discriminate)) in Hu.
  cbn [out world events] in Hflat.
  rewrite (range_cons_stop _ _ _ _ _ _ _ _ _ Hu) in Hflat.
  unfold mapOut in Hflat.
  destruct (UpdateEnv e layout commitHash w) as [[[layout' err] | m] w3 evs3] eqn:Hrun;
    cbn [out world events] in Hflat |- *; [| discriminate].
  injection Hflat as Hl He Hw Hev. exists layout'. subst err w3 evs3.
  split; [done |]. split; [done |]. split.
  - eapply UpdateEnv_shape. by rewrite Hrun.
  - by rewrite app_nil_r.
Qed.

End Update.

(** The repositories of the three units of the cas layout: the layout's for
    the services, the task's own for the anchor worker. *)
Example casLayout_unit_repositories :
  List.map (fun ut => unitRepo (fst ut)) (units Demo.casLayout)
  = ["ceramic-dev-cas"; "ceramic-dev-cas"; "ceramic-dev-cas-runner"].
Proof. reflexivity. Qed.

(** The theorem at the cas layout when the update of the scheduler service is
    refused: the API service, updated before, keeps its new identifier; the
    scheduler and the anchor worker are as they were. *)
Lemma UpdateEnv_aborts_at_first_failure_witness :
  exists layout',
    out (UpdateEnv (tg := Demo.tagging) (Demo.demoEcs "ceramic-dev-cas-scheduler")
                   Demo.casLayout "abc123" tt)
    = Ret (layout', Some "service update refused") /\
    List.map (fun ut => (unitName (fst ut), Id (snd ut))) (units layout')
    = [("ceramic-dev-cas-api", "ceramic-dev-cas-api:1+1");
       ("ceramic-dev-cas-scheduler", "scheduler:5");
       ("ceramic-dev-cas-anchor", "anchor:2")].
Proof.
  destruct (UpdateEnv_aborts_at_first_failure (tg := Demo.tagging)
              (Demo.demoEcs "ceramic-dev-cas-scheduler") Demo.casLayout "abc123" tt
              [(mkUnit DeployType_Service "ceramic-dev-cas" "ceramic-dev-cas-api"
                       "ceramic-dev-cas", mkTask "api:8" "" false)]
              [(mkUnit DeployType_Service "ceramic-dev-cas" "ceramic-dev-cas-api"
                       "ceramic-dev-cas", mkTask "ceramic-dev-cas-api:1+1" "" false)]
              [(mkUnit DeployType_Task "ceramic-dev-cas" "ceramic-dev-cas-anchor"
                       "ceramic-dev-cas-runner",
                mkTask "anchor:2" "ceramic-dev-cas-runner" true)]
              (mkUnit DeployType_Service "ceramic-dev-cas" "ceramic-dev-cas-scheduler"
                      "ceramic-dev-cas")
              (mkTask "scheduler:5" "" false) (mkTask "scheduler:5" "" false)
              "service update refused" eq_refl eq_refl eq_refl)
    as (layout' & Hout & Hunits & _).
  exists layout'. split; [exact Hout |]. rewrite Hunits. reflexivity.
Defined.

End AwsFacts.


(* ===================================================================== *)
(** ** More on the deploy job                                             *)
(* ===================================================================== *)

Module JobsMore.
Import Jobs Layouts GoFacts JobsFacts.

Section Constructor.
Context {W : Type} {mc : Consts}.

(** X1.  A job is not constructed, and no collaborator is called, when the
    component or the commit hash is missing from the parameters or is not a
    string. *)
Theorem DeployJob_requires_component_and_sha (db : Database W) (d : Deployment W)
    (notifs : Notifs W) (jobState : JobState) (w : W) :
  (forall s, Params jobState !! JobParam_Component <> Some (VString s)) \/
  (forall s, Params jobState !! JobParam_Sha <> Some (VString s)) ->
  exists msg, DeployJob db d notifs jobState w = Run (Ret (None, Some msg)) w [].
Proof.
  intros Hmissing. unfold DeployJob, asString.
  destruct (Params jobState !! JobParam_Component) as [[c | | |] |] eqn:Hc; simpl; eauto.
  destruct (Params jobState !! JobParam_Sha) as [[s | | |] |] eqn:Hs; simpl; eauto.
  destruct Hmissing as [Hm | Hm]; [by destruct (Hm c) | by destruct (Hm s)].
Qed.

(** X2.  With both parameters present the constructor resolves the layout, then
    the registry; the first error is returned and ends the construction, so
    the registry is not asked when the layout cannot be resolved.  A job that
    is constructed carries the component, the commit hash and the registry
    it was given. *)
Theorem DeployJob_resolves_layout_then_registry (db : Database W) (d : Deployment W)
    (notifs : Notifs W) (jobState : JobState) (w : W) (c s : string) :
  Params jobState !! JobParam_Component = Some (VString c) ->
  Params jobState !! JobParam_Sha = Some (VString s) ->
  let p := PopulateLayout d c w in
  let g := GetRegistryUri d c (snd p) in
  let r := DeployJob db d notifs jobState w in
  match snd (fst p), snd (fst g) with
  | Some e, _ =>
      r = Run (Ret (None, Some e)) (snd p) [CallPopulateLayout c]
  | None, Some e =>
      r = Run (Ret (None, Some e)) (snd g) [CallPopulateLayout c; CallGetRegistryUri c]
  | None, None =>
      exists j, r = Run (Ret (Some j, None)) (snd g)
                        [CallPopulateLayout c; CallGetRegistryUri c] /\
        component j = c /\ sha j = s /\ registryUri j = fst (fst g)
  end.
Proof.
  intros Hc Hs p g r. subst p g r. unfold DeployJob, asString. rewrite Hc, Hs. simpl.
  unfold bind, call. simpl.
  destruct (PopulateLayout d c w) as [[clusterLayout [e |]] w1]; simpl; [done |].
  destruct (GetRegistryUri d c w1) as [[uri [e |]] w2]; simpl; [done |].
  eexists. split; [reflexivity | done].
Qed.

End Constructor.

Lemma DeployJob_requires_component_and_sha_witness :
  exists msg,
    DeployJob (mc := Demo.consts) Demo.okDb (Demo.okDeployment true) Demo.quietNotifs
              (mkJobState JobStage_Queued 0 (<["component" := VOther "int"]> Demo.freshParams)) tt
    = Run (Ret (None, Some msg)) tt [].
Proof.
  apply (DeployJob_requires_component_and_sha (mc := Demo.consts)).
  left. intros s Hs. vm_compute in Hs. discriminate.
Defined.

Lemma DeployJob_resolves_layout_then_registry_witness :
  exists j,
    DeployJob (mc := Demo.consts) Demo.okDb (Demo.okDeployment true) Demo.quietNotifs
              (mkJobState JobStage_Queued 0 Demo.freshParams) tt
    = Run (Ret (Some j, None)) tt [CallPopulateLayout "cas"; CallGetRegistryUri "cas"] /\
    registryUri j = "registry/cas".
Proof.
  destruct (DeployJob_resolves_layout_then_registry (mc := Demo.consts) Demo.okDb
              (Demo.okDeployment true) Demo.quietNotifs
              (mkJobState JobStage_Queued 0 Demo.freshParams) tt "cas" "abc123"
              eq_refl eq_refl) as (j & Hrun & _ & _ & Huri).
  exists j. split; [exact Hrun | exact Huri].
Defined.

Section Advance.
Context {W : Type} {mc : Consts}.
Variable j : deployJob W.

(** The run of [AdvanceJob] on a queued job, from the run of the update
    phase. *)
Lemma AdvanceJob_queued_run (now : Z) (w : W) :
  Stage (state j) = JobStage_Queued ->
  AdvanceJob j now w =
  let u := updateCluster j w in
  match out u with
  | Panic msg => Run (Panic msg) (world u) (events u)
  | Ret (params, Some e) =>
      let st := mkJobState JobStage_Failed (Ts (state j))
                           (<[JobParam_Error := VString e]> params) in
      let w1 := NotifyJob (notifs j) st (world u) in
      Run (Ret (st, fst (UpdateJob (db j) st w1))) (snd (UpdateJob (db j) st w1))
          (events u ++ [Log ("deployJob: error updating service: " +:+ e +:+ ", "
                             +:+ PrintJob st);
                        CallNotifyJob st; CallUpdateJob st])
  | Ret (params, None) =>
      let st := mkJobState JobStage_Started (Ts (state j)) params in
      let b := UpdateBuildHash (db j) (component j) (sha j) (world u) in
      let w1 := NotifyJob (notifs j) st (snd b) in
      Run (Ret (st, fst (UpdateJob (db j) st w1))) (snd (UpdateJob (db j) st w1))
          (events u ++ CallUpdateBuildHash (component j) (sha j)
             :: match fst b with
                | Some e => [Log ("deployJob: failed to update build hash: " +:+ e +:+ ", "
                                  +:+ PrintJob st)]
                | None => []
                end ++ [CallNotifyJob st; CallUpdateJob st])
  end.
Proof.
  intros Hq. unfold AdvanceJob. rewrite Hq.
  change (JobStage_eqb JobStage_Queued JobStage_Queued) with true. cbv iota zeta.
  destruct (updateCluster j w) as [[[params [e |]] | msg] w1 evs] eqn:Hu.
  - rewrite (bind_Ret _ _ _ _ _ _ Hu). reflexivity.
  - rewrite (bind_Ret _ _ _ _ _ _ Hu). simpl.
    destruct (fst (UpdateBuildHash (db j) (component j) (sha j) w1)); reflexivity.
  - rewrite (bind_Panic _ _ _ _ _ _ Hu). reflexivity.
Qed.

(** The run of [AdvanceJob] on a started job before the deadline, from the
    run of the check phase. *)
Lemma AdvanceJob_started_run (now : Z) (w : W) :
  Stage (state j) = JobStage_Started ->
  now - DefaultFailureTime <= Ts (state j) ->
  AdvanceJob j now w =
  let c := checkCluster j w in
  match out c with
  | Panic msg => Run (Panic msg) (world c) (events c)
  | Ret (_, Some e) =>
      let st := mkJobState JobStage_Failed (Ts (state j))
                           (<[JobParam_Error := VString e]> (Params (state j))) in
      let w1 := NotifyJob (notifs j) st (world c) in
      Run (Ret (st, fst (UpdateJob (db j) st w1))) (snd (UpdateJob (db j) st w1))
          (events c ++ [Log ("deployJob: error checking services running status: "
                             +:+ e +:+ ", " +:+ PrintJob st);
                        CallNotifyJob st; CallUpdateJob st])
  | Ret (true, None) =>
      let st := mkJobState JobStage_Completed (Ts (state j)) (Params (state j)) in
      let b := UpdateDeployHash (db j) (component j) (sha j) (world c) in
      let w1 := NotifyJob (notifs j) st (snd b) in
      Run (Ret (st, fst (UpdateJob (db j) st w1))) (snd (UpdateJob (db j) st w1))
          (events c ++ CallUpdateDeployHash (component j) (sha j)
             :: match fst b with
                | Some e => [Log ("deployJob: failed to update deploy hash: " +:+ e +:+ ", "
                                  +:+ PrintJob st)]
                | None => []
                end ++ [CallNotifyJob st; CallUpdateJob st])
  | Ret (false, None) => Run (Ret (state j, None)) (world c) (events c)
  end.
Proof.
  intros Hs Hfresh. unfold AdvanceJob. rewrite Hs.
  change (JobStage_eqb JobStage_Started JobStage_Queued) with false.
  change (JobStage_eqb JobStage_Started JobStage_Started) with true. cbv iota zeta.
  rewrite (proj2 (Z.ltb_ge _ _) Hfresh).
  destruct (checkCluster j w) as [[[running [e |]] | msg] w1 evs] eqn:Hc.
  - rewrite (bind_Ret _ _ _ _ _ _ Hc). by destruct running.
  - rewrite (bind_Ret _ _ _ _ _ _ Hc). destruct running; simpl.
    + destruct (fst (UpdateDeployHash (db j) (component j) (sha j) w1)); reflexivity.
    + by rewrite app_nil_r.
  - rewrite (bind_Panic _ _ _ _ _ _ Hc). reflexivity.
Qed.

End Advance.

Section Outcomes.
Context {W : Type} {mc : Consts}.
Variable j : deployJob W.

Lemma AdvanceJob_timeout_run (now : Z) (w : W) :
  Stage (state j) <> JobStage_Queued ->
  Ts (state j) < now - DefaultFailureTime ->
  AdvanceJob j now w =
  let st := mkJobState JobStage_Failed (Ts (state j))
                       (<[JobParam_Error := VString Error_Timeout]> (Params (state j))) in
  let w1 := NotifyJob (notifs j) st w in
  Run (Ret (st, fst (UpdateJob (db j) st w1))) (snd (UpdateJob (db j) st w1))
      [Log ("deployJob: job timed out: " +:+ PrintJob st); CallNotifyJob st; CallUpdateJob st].
Proof.
  intros Hq Hlate. unfold AdvanceJob.
  rewrite (JobStage_eqb_neq _ _ Hq), (proj2 (Z.ltb_lt _ _) Hlate). reflexivity.
Qed.

Lemma AdvanceJob_terminal_run (now : Z) (w : W) :
  Stage (state j) <> JobStage_Queued ->
  Stage (state j) <> JobStage_Started ->
  now - DefaultFailureTime <= Ts (state j) ->
  AdvanceJob j now w =
  Run (Ret (state j, Some ("deployJob: unexpected state: " +:+ PrintJob (state j)))) w [].
Proof.
  intros Hq Hs Hfresh. unfold AdvanceJob.
  rewrite (JobStage_eqb_neq _ _ Hq), (JobStage_eqb_neq _ _ Hs).
  by rewrite (proj2 (Z.ltb_ge _ _) Hfresh).
Qed.

(** The deadline applies to every job that is not queued, a completed or
    failed one included: past it, the job is moved to [Failed] with the
    timeout error, notified and persisted, and the store's answer is the
    error returned. *)
Theorem AdvanceJob_deadline_fails_any_stage (now : Z) (w : W) :
  Stage (state j) <> JobStage_Queued ->
  Ts (state j) < now - DefaultFailureTime ->
  let r := AdvanceJob j now w in
  exists st, Stage st = JobStage_Failed /\
    Params st = <[JobParam_Error := VString Error_Timeout]> (Params (state j)) /\
    out r = Ret (st, fst (UpdateJob (db j) st (NotifyJob (notifs j) st w))) /\
    List.filter isReport (events r) = [CallNotifyJob st; CallUpdateJob st].
Proof.
  intros Hq Hlate r. subst r. rewrite (AdvanceJob_timeout_run now w Hq Hlate).
  eexists. repeat split; reflexivity.
Qed.

(** A queued job is not subject to the deadline: what [AdvanceJob] does with
    it does not depend on the clock. *)
Theorem AdvanceJob_queued_ignores_clock (now now' : Z) (w : W) :
  Stage (state j) = JobStage_Queued ->
  AdvanceJob j now w = AdvanceJob j now' w.
Proof.
  intros Hq.
  by rewrite (AdvanceJob_queued_run j now w Hq), (AdvanceJob_queued_run j now' w Hq).
Qed.

(** X3.  The stage a job is left in follows the state machine: a queued job
    becomes started or failed, a started job stays started or becomes
    completed or failed, a completed job stays so or is failed by the
    deadline, a failed job stays failed. *)
Theorem AdvanceJob_stage_step (now : Z) (w : W) (st : JobState) (err : error) :
  out (AdvanceJob j now w) = Ret (st, err) ->
  JobStage_step (Stage (state j)) (Stage st) = true.
Proof.
  destruct (Stage (state j)) eqn:Hstage.
  - rewrite (AdvanceJob_queued_run j now w Hstage). cbv zeta.
    destruct (updateCluster j w) as [[[params [e |]] | msg] w1 evs]; simpl;
      intros Hout; try discriminate; by injection Hout as <- <-.
  - destruct (Z.ltb (Ts (state j)) (now - DefaultFailureTime)) eqn:Hlate.
    + apply Z.ltb_lt in Hlate.
      rewrite (AdvanceJob_timeout_run now w); [| by rewrite Hstage | done].
      simpl. intros Hout. by injection Hout as <- <-.
    + apply Z.ltb_ge in Hlate. rewrite (AdvanceJob_started_run j now w Hstage Hlate).
      cbv zeta.
      destruct (checkCluster j w) as [[[[] [e |]] | msg] w1 evs]; simpl;
        intros Hout; try discriminate; injection Hout as <- <-; simpl; by rewrite ?Hstage.
  - destruct (Z.ltb (Ts (state j)) (now - DefaultFailureTime)) eqn:Hlate.
    + apply Z.ltb_lt in Hlate.
      rewrite (AdvanceJob_timeout_run now w); [| by rewrite Hstage | done].
      simpl. intros Hout. by injection Hout as <- <-.
    + apply Z.ltb_ge in Hlate.
      rewrite (AdvanceJob_terminal_run now w); [| by rewrite Hstage | by rewrite Hstage | done].
      simpl. intros Hout. injection Hout as <- <-. by rewrite Hstage.
  - destruct (Z.ltb (Ts (state j)) (now - DefaultFailureTime)) eqn:Hlate.
    + apply Z.ltb_lt in Hlate.
      rewrite (AdvanceJob_timeout_run now w); [| by rewrite Hstage | done].
      simpl. intros Hout. by injection Hout as <- <-.
    + apply Z.ltb_ge in Hlate.
      rewrite (AdvanceJob_terminal_run now w); [| by rewrite Hstage | by rewrite Hstage | done].
      simpl. intros Hout. injection Hout as <- <-. by rewrite Hstage.
Qed.

Lemma stateless_no_report (evs : list Event) :
  Forall (fun ev => stateOf ev = None) evs -> List.filter isReport evs = [].
Proof.
  induction 1 as [| ev l Hst _ IH]; [done |].
  simpl. unfold isReport at 1. by rewrite Hst.
Qed.

(** X4.  A call that returns has notified once and then persisted once, both
    with the state it returns, or it has done neither and returns the state
    it was given. *)
Theorem AdvanceJob_reports_once (now : Z) (w : W) (st : JobState) (err : error) :
  out (AdvanceJob j now w) = Ret (st, err) ->
  List.filter isReport (events (AdvanceJob j now w)) = [CallNotifyJob st; CallUpdateJob st]
  \/ (List.filter isReport (events (AdvanceJob j now w)) = [] /\ st = state j).
Proof.
  intros Hout.
  destruct (AdvanceJob_cases j now w)
    as [(msg & Hp & _) | [(st0 & err0 & pre & Hr & _ & Hall & Hev)
       | [(_ & _ & _ & Hr & _ & Hev) | (_ & _ & _ & Hr)]]].
  - rewrite Hp in Hout. discriminate.
  - left. rewrite Hr in Hout. injection Hout as -> ->.
    rewrite Hev, List.filter_app, (stateless_no_report pre Hall). reflexivity.
  - right. rewrite Hr in Hout. injection Hout as <- <-. split; [| done].
    rewrite Hev. apply stateless_no_report, checkCluster_stateless.
  - right. rewrite Hr in Hout |- *. simpl in Hout. by injection Hout as <- <-.
Qed.

End Outcomes.

Lemma AdvanceJob_deadline_fails_any_stage_witness :
  let j := Demo.jobAt JobStage_Completed 0 true in
  exists st, Stage st = JobStage_Failed /\
    out (AdvanceJob (mc := Demo.consts) j 1800000000001 tt) = Ret (st, None).
Proof.
  destruct (AdvanceJob_deadline_fails_any_stage (mc := Demo.consts)
              (Demo.jobAt JobStage_Completed 0 true) 1800000000001 tt
              ltac:(discriminate) eq_refl) as (st & Hst & _ & Hout & _).
  exists st. split; [exact Hst | exact Hout].
Defined.

Lemma AdvanceJob_queued_ignores_clock_witness :
  let j := Demo.jobAt JobStage_Queued 0 true in
  AdvanceJob (mc := Demo.consts) j 5 tt = AdvanceJob (mc := Demo.consts) j 1800000000001 tt.
Proof.
  apply (AdvanceJob_queued_ignores_clock (mc := Demo.consts)
           (Demo.jobAt JobStage_Queued 0 true) 5 1800000000001 tt).
  reflexivity.
Defined.

Lemma AdvanceJob_stage_step_witness :
  let j := Demo.jobAt JobStage_Started 0 true in
  exists st, out (AdvanceJob (mc := Demo.consts) j 5 tt) = Ret (st, None) /\
    JobStage_step JobStage_Started (Stage st) = true.
Proof.
  eexists. split; [vm_compute; reflexivity |].
  apply (AdvanceJob_stage_step (mc := Demo.consts)
           (Demo.jobAt JobStage_Started 0 true) 5 tt _ None).
  reflexivity.
Defined.

Lemma AdvanceJob_reports_once_witness :
  let j := Demo.jobAt JobStage_Queued 0 true in
  let r := AdvanceJob (mc := Demo.consts) j 5 tt in
  exists st, out r = Ret (st, None) /\
    (List.filter isReport (events r) = [CallNotifyJob st; CallUpdateJob st]
     \/ (List.filter isReport (events r) = [] /\ st = state j)).
Proof.
  eexists. split; [vm_compute; reflexivity |].
  apply (AdvanceJob_reports_once (mc := Demo.consts)
           (Demo.jobAt JobStage_Queued 0 true) 5 tt _ None).
  reflexivity.
Defined.

Section Calls.
Context {W : Type} {mc : Consts}.
Variable j : deployJob W.

(** X7.  The update phase calls the client only to update units of the layout,
    each with the image [registryUri:sha] of the job: a service with its
    cluster, a task by its name alone. *)
Theorem updateCluster_calls (w : W) (clusters : list (string * Value)) :
  Params (state j) !! LayoutParam = Some (VStrMap clusters) ->
  Forall (isUnitUpdate clusters (registryUri j +:+ ":" +:+ sha j))
         (events (updateCluster j w)).
Proof.
  intros Hparams. unfold updateCluster. rewrite Hparams.
  rewrite (bind_Ret (asStrMap (Some (VStrMap clusters))) _ w clusters w [] eq_refl). simpl.
  apply events_bind_Forall; [| intros [m' err] w2; constructor].
  apply range_events_Forall_in. intros cluster typeLayout Hc w2.
  unfold updateCluster_cluster.
  destruct typeLayout as [s0 | m0 | tl | t0]; try (unfold bind; simpl; by constructor).
  rewrite (bind_Ret (asTypeMap (VTypeMap tl)) _ w2 tl w2 [] eq_refl). simpl.
  apply events_bind_Forall; [| intros [m' err] w3; constructor].
  apply range_events_Forall_in. intros deployType deployLayout Ht w3.
  unfold updateCluster_type. destruct deployType; [| | constructor].
  - destruct deployLayout as [s0 | units | m0 | t0]; try (unfold bind; simpl; by constructor).
    rewrite (bind_Ret (asStrMap (Some (VStrMap units))) _ w3 units w3 [] eq_refl). simpl.
    apply events_bind_Forall; [| intros [m' err] w4; constructor].
    apply range_events_Forall_in. intros service v Hs w4.
    unfold updateCluster_service.
    apply events_bind_Forall; [| intros [id [e |]] w5; constructor].
    apply events_call_Forall. left. exists cluster, service, v. split; [done |].
    by exists tl, units.
  - destruct deployLayout as [s0 | units | m0 | t0]; try (unfold bind; simpl; by constructor).
    rewrite (bind_Ret (asStrMap (Some (VStrMap units))) _ w3 units w3 [] eq_refl). simpl.
    apply events_bind_Forall; [| intros [m' err] w4; constructor].
    apply range_events_Forall_in. intros task v Hs w4.
    unfold updateCluster_task.
    apply events_bind_Forall; [| intros [id [e |]] w5; constructor].
    apply events_call_Forall. right. exists cluster, task, v. split; [done |].
    by exists tl, units.
Qed.

(** X10.  The check phase calls the client only to check services of the layout,
    each against the identifier the layout holds for it; it asks nothing
    about plain tasks and updates nothing. *)
Theorem checkCluster_calls (w : W) (clusters : list (string * Value)) :
  Params (state j) !! LayoutParam = Some (VStrMap clusters) ->
  Forall (isUnitCheck clusters) (events (checkCluster j w)).
Proof.
  intros Hparams. unfold checkCluster. rewrite Hparams.
  rewrite (bind_Ret (asStrMap (Some (VStrMap clusters))) _ w clusters w [] eq_refl). simpl.
  apply events_bind_Forall; [| intros [m' [res |]] w2; constructor].
  apply range_events_Forall_in. intros cluster typeLayout Hc w2.
  unfold checkCluster_cluster.
  destruct typeLayout as [s0 | m0 | tl | t0]; try (unfold bind; simpl; by constructor).
  rewrite (bind_Ret (asTypeMap (VTypeMap tl)) _ w2 tl w2 [] eq_refl). simpl.
  apply events_bind_Forall; [| intros [m' r] w3; constructor].
  apply range_events_Forall_in. intros deployType deployLayout Ht w3.
  unfold checkCluster_type. destruct deployType; [| constructor | constructor].
  destruct deployLayout as [s0 | units | m0 | t0]; try (unfold bind; simpl; by constructor).
  rewrite (bind_Ret (asStrMap (Some (VStrMap units))) _ w3 units w3 [] eq_refl). simpl.
  apply events_bind_Forall; [| intros [m' r] w4; constructor].
  apply range_events_Forall_in. intros service v Hs w4.
  unfold checkCluster_service.
  destruct v as [id | m0 | m0 | t0]; try (unfold bind; simpl; by constructor).
  rewrite (bind_Ret (asStr (VString id)) _ w4 id w4 [] eq_refl). simpl.
  constructor.
  - exists cluster, service, id. split; [done |]. by exists tl, units.
  - destruct (fst (CheckService (d j) cluster service id w4)) as [deployed [e |]];
      [constructor |].
    destruct deployed; constructor.
Qed.

End Calls.

Lemma updateCluster_calls_witness :
  let j := Demo.jobAt JobStage_Queued 0 true in
  Forall (isUnitUpdate
            [("ceramic-dev-cas",
              VTypeMap [(DeployType_Service,
                         VStrMap [("ceramic-dev-cas-api", VString "rev-7");
                                  ("ceramic-dev-cas-scheduler", VString "rev-9")]);
                        (DeployType_Task,
                         VStrMap [("ceramic-dev-cas-anchor", VString "rev-3")])])]
            "registry/cas:abc123")
         (events (updateCluster j tt)).
Proof.
  apply (updateCluster_calls (Demo.jobAt JobStage_Queued 0 true) tt). reflexivity.
Defined.

Lemma checkCluster_calls_witness :
  let j := Demo.jobAt JobStage_Started 0 true in
  Forall (isUnitCheck
            [("ceramic-dev-cas",
              VTypeMap [(DeployType_Service,
                         VStrMap [("ceramic-dev-cas-api", VString "rev-7");
                                  ("ceramic-dev-cas-scheduler", VString "rev-9")]);
                        (DeployType_Task,
                         VStrMap [("ceramic-dev-cas-anchor", VString "rev-3")])])])
         (events (checkCluster j tt)).
Proof.
  apply (checkCluster_calls (Demo.jobAt JobStage_Started 0 true) tt). reflexivity.
Defined.

Section Paths.
Context {W : Type} {mc : Consts}.
Variable j : deployJob W.

(** X5.  A queued job is started when the update phase succeeds, whether or not
    the build hash can be recorded, and failed with the error of the update
    phase otherwise.  Either way the parameters persisted are those the
    update phase left, so a partly stamped layout is kept with the error. *)
Theorem AdvanceJob_queued_outcome (now : Z) (w : W) (params : gmap string Value)
    (err : error) :
  Stage (state j) = JobStage_Queued ->
  out (updateCluster j w) = Ret (params, err) ->
  let r := AdvanceJob j now w in
  let st := match err with
            | Some e => mkJobState JobStage_Failed (Ts (state j))
                                   (<[JobParam_Error := VString e]> params)
            | None => mkJobState JobStage_Started (Ts (state j)) params
            end in
  (exists stored, out r = Ret (st, stored)) /\
  exists logs,
    Forall (fun ev => exists msg, ev = Log msg) logs /\
    events r = events (updateCluster j w)
               ++ match err with
                  | Some _ => []
                  | None => [CallUpdateBuildHash (component j) (sha j)]
                  end
               ++ logs ++ [CallNotifyJob st; CallUpdateJob st].
Proof.
  intros Hq Hu r st. subst r st. rewrite (AdvanceJob_queued_run j now w Hq). cbv zeta.
  destruct (updateCluster j w) as [o w1 evs]. simpl in Hu. subst o.
  destruct err as [e |]; simpl.
  - split; [eauto |]. eexists [Log _]. split; [repeat constructor; eauto | done].
  - split; [eauto |].
    destruct (fst (UpdateBuildHash (db j) (component j) (sha j) w1)) as [e |].
    + eexists [Log _]. split; [repeat constructor; eauto | done].
    + exists []. split; [constructor | done].
Qed.

(** X6.  A started job before the deadline is completed when the check phase
    reports convergence, whether or not the deploy hash can be recorded; it
    is failed with the error of the check phase when there is one; its
    parameters are otherwise untouched. *)
Theorem AdvanceJob_started_outcome (now : Z) (w : W) (running : bool) (err : error) :
  Stage (state j) = JobStage_Started ->
  now - DefaultFailureTime <= Ts (state j) ->
  out (checkCluster j w) = Ret (running, err) ->
  (running = true \/ err <> None) ->
  let r := AdvanceJob j now w in
  let st := match err with
            | Some e => mkJobState JobStage_Failed (Ts (state j))
                                   (<[JobParam_Error := VString e]> (Params (state j)))
            | None => mkJobState JobStage_Completed (Ts (state j)) (Params (state j))
            end in
  (exists stored, out r = Ret (st, stored)) /\
  exists logs,
    Forall (fun ev => exists msg, ev = Log msg) logs /\
    events r = events (checkCluster j w)
               ++ match err with
                  | Some _ => []
                  | None => [CallUpdateDeployHash (component j) (sha j)]
                  end
               ++ logs ++ [CallNotifyJob st; CallUpdateJob st].
Proof.
  intros Hs Hfresh Hc Hmoves r st. subst r st.
  rewrite (AdvanceJob_started_run j now w Hs Hfresh). cbv zeta.
  destruct (checkCluster j w) as [o w1 evs]. simpl in Hc. subst o.
  destruct err as [e |]; simpl.
  - destruct running; simpl; (split; [eauto |]); eexists [Log _];
      (split; [repeat constructor; eauto | done]).
  - destruct Hmoves as [-> | Hne]; [| done]. simpl. split; [eauto |].
    destruct (fst (UpdateDeployHash (db j) (component j) (sha j) w1)) as [e |].
    + eexists [Log _]. split; [repeat constructor; eauto | done].
    + exists []. split; [constructor | done].
Qed.

End Paths.

Lemma AdvanceJob_queued_outcome_witness :
  let j := Demo.jobAt JobStage_Queued 0 true in
  exists params stored,
    out (updateCluster j tt) = Ret (params, None) /\
    out (AdvanceJob (mc := Demo.consts) j 5 tt)
    = Ret (mkJobState JobStage_Started 0 params, stored).
Proof.
  destruct (AdvanceJob_queued_outcome (mc := Demo.consts)
              (Demo.jobAt JobStage_Queued 0 true) 5 tt _ None eq_refl eq_refl)
    as ([stored Hout] & _).
  eexists _, stored. split; [| exact Hout]. reflexivity.
Defined.

Lemma AdvanceJob_started_outcome_witness :
  let j := Demo.jobAt JobStage_Started 0 true in
  exists stored,
    out (AdvanceJob (mc := Demo.consts) j 5 tt)
    = Ret (mkJobState JobStage_Completed 0 Demo.demoParams, stored).
Proof.
  exact (proj1 (AdvanceJob_started_outcome (mc := Demo.consts)
                  (Demo.jobAt JobStage_Started 0 true) 5 tt true None
                  eq_refl ltac:(vm_compute; discriminate) eq_refl (or_introl eq_refl))).
Defined.

Section Shape.
Context {W : Type} {mc : Consts}.
Variable j : deployJob W.

Lemma sameTypes_or (v v' : Value) : sameTypes v v' \/ v' = v -> sameTypes v v'.
Proof. intros [Hs | ->]; [done | by left]. Qed.

Lemma sameUnits_or (v v' : Value) : sameUnits v v' \/ v' = v -> sameUnits v v'.
Proof. intros [Hs | ->]; [done | by left]. Qed.

Lemma updateCluster_type_shape cluster image deployType v w v' r :
  out (updateCluster_type j cluster image deployType v w) = Ret (v', r) -> sameUnits v v'.
Proof.
  unfold updateCluster_type. destruct deployType.
  - destruct v as [s0 | units | m0 | t0]; try (unfold bind; simpl; discriminate).
    rewrite (bind_Ret (asStrMap (Some (VStrMap units))) _ w units w [] eq_refl). simpl.
    unfold bind.
    destruct (range (updateCluster_service j cluster image) units w)
      as [[[units' x] | msg] w1 evs] eqn:Hr; simpl; [| discriminate].
    intros Hout. injection Hout as <- <-. right. exists units, units'.
    split; [done |]. split; [done |].
    apply (range_keys (updateCluster_service j cluster image) units units' x w).
    by rewrite Hr.
  - destruct v as [s0 | units | m0 | t0]; try (unfold bind; simpl; discriminate).
    rewrite (bind_Ret (asStrMap (Some (VStrMap units))) _ w units w [] eq_refl). simpl.
    unfold bind.
    destruct (range (updateCluster_task j image) units w)
      as [[[units' x] | msg] w1 evs] eqn:Hr; simpl; [| discriminate].
    intros Hout. injection Hout as <- <-. right. exists units, units'.
    split; [done |]. split; [done |].
    apply (range_keys (updateCluster_task j image) units units' x w).
    by rewrite Hr.
  - simpl. intros Hout. injection Hout as <- <-. by left.
Qed.

Lemma updateCluster_cluster_shape image cluster v w v' r :
  out (updateCluster_cluster j image cluster v w) = Ret (v', r) -> sameTypes v v'.
Proof.
  unfold updateCluster_cluster.
  destruct v as [s0 | m0 | tl | t0]; try (unfold bind; simpl; discriminate).
  rewrite (bind_Ret (asTypeMap (VTypeMap tl)) _ w tl w [] eq_refl). simpl.
  unfold bind.
  destruct (range (updateCluster_type j cluster image) tl w)
    as [[[tl' x] | msg] w1 evs] eqn:Hr; simpl; [| discriminate].
  intros Hout. injection Hout as <- <-. right. exists tl, tl'.
  split; [done |]. split; [done |].
  eapply Forall2_impl.
  - apply (range_values (updateCluster_type j cluster image)
             (fun _ v v' => sameUnits v v')) with (w := w) (r := x).
    + intros k v w0 v' r0. apply updateCluster_type_shape.
    + by rewrite Hr.
  - intros kv kv' [Hk Hv]. split; [done | by apply sameUnits_or].
Qed.

(** X8.  The update phase writes nothing but the layout entry of the parameters,
    and in the layout it neither adds, drops, renames nor reorders a cluster,
    a deploy type or a unit, whether it succeeds or not. *)
Theorem updateCluster_keeps_shape (w : W) (params' : gmap string Value) (err : error) :
  out (updateCluster j w) = Ret (params', err) ->
  exists clusters clusters',
    Params (state j) !! LayoutParam = Some (VStrMap clusters) /\
    params' = <[LayoutParam := VStrMap clusters']> (Params (state j)) /\
    sameClusters clusters clusters'.
Proof.
  unfold updateCluster.
  destruct (Params (state j) !! LayoutParam) as [[s0 | clusters | m0 | t0] |];
    try (unfold bind; simpl; discriminate).
  rewrite (bind_Ret (asStrMap (Some (VStrMap clusters))) _ w clusters w [] eq_refl). simpl.
  unfold bind.
  destruct (range (updateCluster_cluster j (registryUri j +:+ ":" +:+ sha j)) clusters w)
    as [[[clusters' x] | msg] w1 evs] eqn:Hr; simpl; [| discriminate].
  intros Hout. injection Hout as <- <-. exists clusters, clusters'.
  split; [done |]. split; [done |]. unfold sameClusters.
  eapply Forall2_impl.
  - apply (range_values (updateCluster_cluster j (registryUri j +:+ ":" +:+ sha j))
             (fun _ v v' => sameTypes v v')) with (w := w) (r := x).
    + intros k v w0 v' r0. apply updateCluster_cluster_shape.
    + by rewrite Hr.
  - intros kv kv' [Hk Hv]. split; [done | by apply sameTypes_or].
Qed.

Lemma updateCluster_type_stamps cluster image deployType v w v' :
  out (updateCluster_type j cluster image deployType v w) = Ret (v', None) ->
  (deployType = DeployType_Service \/ deployType = DeployType_Task) /\
  exists units, v' = VStrMap units /\ unitsStamped units.
Proof.
  unfold updateCluster_type. destruct deployType.
  - destruct v as [s0 | units | m0 | t0]; try (unfold bind; simpl; discriminate).
    rewrite (bind_Ret (asStrMap (Some (VStrMap units))) _ w units w [] eq_refl). simpl.
    unfold bind.
    destruct (range (updateCluster_service j cluster image) units w)
      as [[[units' x] | msg] w1 evs] eqn:Hr; simpl; [| discriminate].
    intros Hout. injection Hout as <- ->. split; [by left |]. exists units'.
    split; [done |].
    apply (range_complete_values (updateCluster_service j cluster image)
             (fun _ v => exists id, v = VString id)) with (m := units) (w := w);
      [| by rewrite Hr].
    intros service v0 w0 v1. unfold updateCluster_service, bind, call. simpl.
    destruct (fst (UpdateService (d j) cluster service image w0)) as [id [e |]]; simpl;
      [discriminate |].
    intros Hout. injection Hout as <-. eauto.
  - destruct v as [s0 | units | m0 | t0]; try (unfold bind; simpl; discriminate).
    rewrite (bind_Ret (asStrMap (Some (VStrMap units))) _ w units w [] eq_refl). simpl.
    unfold bind.
    destruct (range (updateCluster_task j image) units w)
      as [[[units' x] | msg] w1 evs] eqn:Hr; simpl; [| discriminate].
    intros Hout. injection Hout as <- ->. split; [by right |]. exists units'.
    split; [done |].
    apply (range_complete_values (updateCluster_task j image)
             (fun _ v => exists id, v = VString id)) with (m := units) (w := w);
      [| by rewrite Hr].
    intros task v0 w0 v1. unfold updateCluster_task, bind, call. simpl.
    destruct (fst (UpdateTask (d j) task image w0)) as [id [e |]]; simpl;
      [discriminate |].
    intros Hout. injection Hout as <-. eauto.
  - simpl. discriminate.
Qed.

(** What an update phase without error leaves behind is a stamped layout. *)
Lemma updateCluster_stamped (w : W) (params' : gmap string Value) :
  out (updateCluster j w) = Ret (params', None) ->
  exists clusters',
    params' !! LayoutParam = Some (VStrMap clusters') /\ layoutStamped clusters'.
Proof.
  unfold updateCluster.
  destruct (Params (state j) !! LayoutParam) as [[s0 | clusters | m0 | t0] |];
    try (unfold bind; simpl; discriminate).
  rewrite (bind_Ret (asStrMap (Some (VStrMap clusters))) _ w clusters w [] eq_refl). simpl.
  unfold bind.
  destruct (range (updateCluster_cluster j (registryUri j +:+ ":" +:+ sha j)) clusters w)
    as [[[clusters' x] | msg] w1 evs] eqn:Hr; simpl; [| discriminate].
  intros Hout. injection Hout as <- ->. exists clusters'.
  split; [apply lookup_insert_eq |].
  apply (range_complete_values (updateCluster_cluster j (registryUri j +:+ ":" +:+ sha j))
           (fun _ v => exists tl, v = VTypeMap tl /\ typesStamped tl))
    with (m := clusters) (w := w); [| by rewrite Hr].
  intros cluster v w0 v'. unfold updateCluster_cluster.
  destruct v as [s0 | m0 | tl | t0]; try (unfold bind; simpl; discriminate).
  rewrite (bind_Ret (asTypeMap (VTypeMap tl)) _ w0 tl w0 [] eq_refl). simpl.
  unfold bind.
  destruct (range (updateCluster_type j cluster (registryUri j +:+ ":" +:+ sha j)) tl w0)
    as [[[tl' y] | msg] w2 evs2] eqn:Hr2; simpl; [| discriminate].
  intros Hout. injection Hout as <- ->. exists tl'. split; [done |].
  apply (range_complete_values
           (updateCluster_type j cluster (registryUri j +:+ ":" +:+ sha j))
           (fun k v => (k = DeployType_Service \/ k = DeployType_Task) /\
                       exists units, v = VStrMap units /\ unitsStamped units))
    with (m := tl) (w := w0); [| by rewrite Hr2].
  intros deployType v w3 v0. apply updateCluster_type_stamps.
Qed.


End Shape.

Section Composition.
Context {W : Type} {mc : Consts}.

(** On a stamped layout the check phase makes no failing type assertion. *)
Lemma checkCluster_no_panic (j : deployJob W) (clusters : list (string * Value)) :
  Params (state j) !! LayoutParam = Some (VStrMap clusters) ->
  layoutStamped clusters ->
  forall w, exists res, out (checkCluster j w) = Ret res.
Proof.
  intros Hparams Hwf w. unfold checkCluster. rewrite Hparams.
  rewrite (bind_Ret (asStrMap (Some (VStrMap clusters))) _ w clusters w [] eq_refl). simpl.
  destruct (range_no_panic (checkCluster_cluster j) clusters) with (w := w)
    as [[m' r] Hr].
  { intros cluster v Hin w0.
    unfold layoutStamped in Hwf. rewrite Forall_forall in Hwf.
    destruct (Hwf _ Hin) as (tl & Hv & Htl). simpl in Hv. subst v.
    unfold checkCluster_cluster.
    rewrite (bind_Ret (asTypeMap (VTypeMap tl)) _ w0 tl w0 [] eq_refl). simpl.
    destruct (range_no_panic (checkCluster_type j cluster) tl) with (w := w0)
      as [[m2 r2] Hr2].
    - intros deployType v Hin2 w1.
      unfold typesStamped in Htl. rewrite Forall_forall in Htl.
      destruct (Htl _ Hin2) as (Hkind & units & Hv & Hunits). simpl in Hv, Hkind. subst v.
      unfold checkCluster_type. destruct deployType; [| simpl; eauto | simpl; eauto].
      rewrite (bind_Ret (asStrMap (Some (VStrMap units))) _ w1 units w1 [] eq_refl). simpl.
      destruct (range_no_panic (checkCluster_service j cluster) units) with (w := w1)
        as [[m3 r3] Hr3].
      + intros service v Hin3 w2.
        unfold unitsStamped in Hunits. rewrite Forall_forall in Hunits.
        destruct (Hunits _ Hin3) as (id & Hv). simpl in Hv. subst v.
        unfold checkCluster_service, bind, call. simpl.
        destruct (fst (CheckService (d j) cluster service id w2)) as [[] [e |]];
          simpl; eauto.
      + unfold bind. rewrite Hr3. simpl. eauto.
    - unfold bind. rewrite Hr2. simpl. eauto. }
  unfold bind. rewrite Hr. simpl. destruct r; eauto.
Qed.

(** X13.  The two phases compose: on the parameters an update phase without error
    leaves behind, the check phase never panics, whatever the client
    answers. *)
Theorem checkCluster_after_updateCluster (j j' : deployJob W) (w w' : W)
    (params' : gmap string Value) :
  out (updateCluster j w) = Ret (params', None) ->
  Params (state j') = params' ->
  exists res, out (checkCluster j' w') = Ret res.
Proof.
  intros Hu Hparams.
  destruct (updateCluster_stamped j w params' Hu) as (clusters' & Hl & Hwf).
  apply (checkCluster_no_panic j' clusters'); [by rewrite Hparams | done].
Qed.

(** X11.  A layout that holds plain tasks only is reported converged without a
    single call: the check phase does not look at tasks. *)
Theorem checkCluster_ignores_tasks (j : deployJob W) (clusters : list (string * Value))
    (w : W) :
  Params (state j) !! LayoutParam = Some (VStrMap clusters) ->
  onlyTasks clusters ->
  checkCluster j w = Run (Ret (true, None)) w [].
Proof.
  intros Hparams Honly. unfold checkCluster. rewrite Hparams.
  rewrite (bind_Ret (asStrMap (Some (VStrMap clusters))) _ w clusters w [] eq_refl). simpl.
  unfold bind. rewrite (range_skip (checkCluster_cluster j) clusters w); [done |].
  intros cluster v Hin.
  unfold onlyTasks in Honly. rewrite Forall_forall in Honly.
  destruct (Honly _ Hin) as (tl & Hv & Htl). simpl in Hv. subst v.
  unfold checkCluster_cluster.
  rewrite (bind_Ret (asTypeMap (VTypeMap tl)) _ w tl w [] eq_refl). simpl.
  unfold bind. rewrite (range_skip (checkCluster_type j cluster) tl w); [done |].
  intros deployType v Hin2. rewrite Forall_forall in Htl.
  specialize (Htl _ Hin2). simpl in Htl. by subst deployType.
Qed.

End Composition.

Lemma updateCluster_keeps_shape_witness :
  let j := Demo.jobAt JobStage_Queued 0 true in
  exists params' clusters',
    out (updateCluster j tt) = Ret (params', None) /\
    params' = <[LayoutParam := VStrMap clusters']> (Params (state j)) /\
    List.map fst clusters' = ["ceramic-dev-cas"].
Proof.
  destruct (updateCluster_keeps_shape (Demo.jobAt JobStage_Queued 0 true) tt _ None eq_refl)
    as (clusters & clusters' & Hl & Hp & Hsame).
  eexists _, clusters'. split; [reflexivity |]. split; [exact Hp |].
  injection Hl as <-. unfold sameClusters in Hsame.
  apply Forall2_cons_inv_l in Hsame as (kv' & rest & [Hk _] & Hrest & ->).
  apply Forall2_nil_inv_l in Hrest as ->. simpl in *. by rewrite Hk.
Defined.


Lemma checkCluster_after_updateCluster_witness :
  let j := Demo.jobAt JobStage_Queued 0 true in
  exists params' res,
    out (updateCluster j tt) = Ret (params', None) /\
    out (checkCluster (mkDeployJob (mkJobState JobStage_Started 0 params') Demo.okDb
                                   (Demo.okDeployment false) Demo.quietNotifs
                                   "cas" "abc123" "registry/cas") tt) = Ret res.
Proof.
  eexists _. 
  destruct (checkCluster_after_updateCluster (Demo.jobAt JobStage_Queued 0 true)
              (mkDeployJob (mkJobState JobStage_Started 0 _) Demo.okDb
                           (Demo.okDeployment false) Demo.quietNotifs
                           "cas" "abc123" "registry/cas") tt tt _ eq_refl eq_refl)
    as [res Hres].
  exists res. split; [reflexivity | exact Hres].
Defined.

Lemma checkCluster_ignores_tasks_witness :
  let tasksOnly := [("ceramic-dev-cas",
                     VTypeMap [(DeployType_Task,
                                VStrMap [("ceramic-dev-cas-anchor", VString "rev-3")])])] in
  let j := mkDeployJob (mkJobState JobStage_Started 0 (<["layout" := VStrMap tasksOnly]> ∅))
                       Demo.okDb (Demo.okDeployment false) Demo.quietNotifs
                       "cas" "abc123" "registry/cas" in
  checkCluster j tt = Run (Ret (true, None)) tt [].
Proof.
  apply (checkCluster_ignores_tasks
           (mkDeployJob (mkJobState JobStage_Started 0
                           (<["layout" := VStrMap
                                [("ceramic-dev-cas",
                                  VTypeMap [(DeployType_Task,
                                             VStrMap [("ceramic-dev-cas-anchor",
                                                       VString "rev-3")])])]]> ∅))
                        Demo.okDb (Demo.okDeployment false) Demo.quietNotifs
                        "cas" "abc123" "registry/cas")
           [("ceramic-dev-cas",
             VTypeMap [(DeployType_Task,
                        VStrMap [("ceramic-dev-cas-anchor", VString "rev-3")])])] tt).
  - reflexivity.
  - repeat constructor. eexists. split; [reflexivity |]. by repeat constructor.
Defined.

(** The lemma on the converged check phase at the stamped demo layout. *)
Lemma checkCluster_converged_asks_every_service_witness :
  let j := Demo.jobAt JobStage_Started 0 true in
  out (checkCluster j tt) = Ret (true, None) /\
  CallCheckService "ceramic-dev-cas" "ceramic-dev-cas-scheduler" "rev-9"
    ∈ events (checkCluster j tt).
Proof.
  split; [reflexivity |].
  apply (checkCluster_converged_asks_every_service (Demo.jobAt JobStage_Started 0 true) tt
           [("ceramic-dev-cas",
             VTypeMap [(DeployType_Service,
                        VStrMap [("ceramic-dev-cas-api", VString "rev-7");
                                 ("ceramic-dev-cas-scheduler", VString "rev-9")]);
                       (DeployType_Task,
                        VStrMap [("ceramic-dev-cas-anchor", VString "rev-3")])])]
           "ceramic-dev-cas"
           [(DeployType_Service,
             VStrMap [("ceramic-dev-cas-api", VString "rev-7");
                      ("ceramic-dev-cas-scheduler", VString "rev-9")]);
            (DeployType_Task,
             VStrMap [("ceramic-dev-cas-anchor", VString "rev-3")])]
           [("ceramic-dev-cas-api", VString "rev-7");
            ("ceramic-dev-cas-scheduler", VString "rev-9")]
           "ceramic-dev-cas-scheduler" "rev-9").
  - reflexivity.
  - reflexivity.
  - by left.
  - by left.
  - right. by left.
Defined.

End JobsMore.


(* ===================================================================== *)
(** ** More on the ECS driver                                             *)
(* ===================================================================== *)

Module AwsMore.
Import Aws Rollout GoFacts AwsFacts.

Section Queries.
Context {W : Type} {tg : Tagging}.
Variable e : Ecs W.

(** [describeEcsService] always returns, and what it returns is either an
    output without an error or an error without an output: an API error and
    a failure reported in the answer both end up as the error. *)
Theorem describeEcsService_output_xor_error (cluster service : string) (w : W) :
  (exists output, out (describeEcsService e cluster service w) = Ret (Some output, None) /\
                  Failures output = [])
  \/ (exists msg, out (describeEcsService e cluster service w) = Ret (None, Some msg)).
Proof.
  unfold describeEcsService, bind, call. simpl.
  destruct (fst (DescribeServices (ecsClient e) cluster [service] w)) as [output [msg |]];
    simpl; [right; eauto |].
  destruct (Failures output) eqn:Hf; simpl; [left; eauto | right; eauto].
Qed.

(** The loop of [CheckTask] over tasks that all have a status. *)
Lemma CheckTask_each (checkStatus : string) (statuses : list string) (w : W) :
  (fix each (tasks : list (option string)) : M W Event (bool * error) :=
     match tasks with
     | [] => ret (true, None)
     | lastStatus :: rest =>
         let* s := deref lastStatus in
         if negb (String.eqb s checkStatus) then ret (false, None) else each rest
     end) (List.map Some statuses) w
  = Run (Ret (List.forallb (fun s => String.eqb s checkStatus) statuses, None)) w [].
Proof.
  induction statuses as [| s rest IH]; [done |].
  cbn [List.map List.forallb]. unfold bind at 1. cbn [deref ret out world events].
  destruct (String.eqb s checkStatus); cbn [negb andb]; [| done].
  rewrite IH. reflexivity.
Qed.

Lemma CheckTask_found (checkStatus : string) (statuses : list string) (w : W) :
  match List.map Some statuses with
  | _ :: _ =>
      (fix each (tasks : list (option string)) : M W Event (bool * error) :=
         match tasks with
         | [] => ret (true, None)
         | lastStatus :: rest =>
             let* s := deref lastStatus in
             if negb (String.eqb s checkStatus) then ret (false, None) else each rest
         end) (List.map Some statuses)
  | [] => ret (false, None)
  end w
  = Run (Ret (negb (Nat.eqb (List.length statuses) 0)
              && List.forallb (fun s => String.eqb s checkStatus) statuses, None)) w [].
Proof.
  destruct statuses as [| s rest]; [done |].
  change (List.map Some (s :: rest)) with (Some s :: List.map Some rest) at 1.
  cbv iota. rewrite CheckTask_each. reflexivity.
Qed.

(** X14.  When every task found has a status, [CheckTask] answers true exactly
    when at least one task was found and every task found is in the state
    asked for; no task found means false, not an error. *)
Theorem CheckTask_all_in_state (running : bool) (cluster : string) (taskArn : list string)
    (statuses : list string) (w : W) :
  fst (DescribeTasks (ecsClient e) cluster taskArn w) = (List.map Some statuses, None) ->
  CheckTask e running cluster taskArn w
  = Run (Ret (negb (Nat.eqb (List.length statuses) 0)
              && List.forallb
                   (fun s => String.eqb s (if running then DesiredStatusRunning
                                           else DesiredStatusStopped))
                   statuses,
              None))
        (snd (DescribeTasks (ecsClient e) cluster taskArn w))
        [EcsDescribeTasks cluster taskArn].
Proof.
  intros Hdesc. unfold CheckTask. unfold bind at 1, call. cbn [out world events].
  rewrite Hdesc. cbv beta iota. rewrite CheckTask_found. reflexivity.
Qed.

End Queries.

Section Services.
Context {W : Type} {tg : Tagging}.
Variable e : Ecs W.

(** The loop of [checkEcsService] over deployments that all name a task
    definition. *)
Lemma checkEcsService_each (taskDefArn : string) (ds : list (string * Z)) (w : W) :
  (fix each (ds : list EcsDeployment) : M W Event (bool * error) :=
     match ds with
     | [] => ret (false, None)
     | deployment :: rest =>
         let* td := deref (DeploymentTaskDefinition deployment) in
         if String.eqb td taskDefArn && (0 <? RunningCount deployment)
         then ret (true, None)
         else each rest
     end) (List.map (fun d => mkEcsDeployment (Some (fst d)) (snd d)) ds) w
  = Run (Ret (List.existsb (fun d => String.eqb (fst d) taskDefArn && (0 <? snd d)) ds, None))
        w [].
Proof.
  induction ds as [| [td n] rest IH]; [done |].
  cbn [List.map List.existsb fst snd]. unfold bind at 1.
  cbn [deref ret out world events DeploymentTaskDefinition RunningCount].
  destruct (String.eqb td taskDefArn && (0 <? n)); cbn [orb]; [done |].
  rewrite IH. reflexivity.
Qed.

(** X15.  A service is converged exactly when one of its deployments is of the
    revision asked about and has at least one running task; a deployment of
    that revision with no running task does not count, nor does a running
    deployment of another revision. *)
Theorem checkEcsService_running_deployment (cluster service taskDefArn : string)
    (svc : EcsService) (others : list EcsService) (ds : list (string * Z)) (w : W) :
  fst (DescribeServices (ecsClient e) cluster [service] w)
  = (mkDescribeServicesOutput (svc :: others) [], None) ->
  Deployments svc = List.map (fun d => mkEcsDeployment (Some (fst d)) (snd d)) ds ->
  checkEcsService e cluster service taskDefArn w
  = Run (Ret (List.existsb (fun d => String.eqb (fst d) taskDefArn && (0 <? snd d)) ds, None))
        (snd (DescribeServices (ecsClient e) cluster [service] w))
        [EcsDescribeServices cluster [service]].
Proof.
  intros Hdesc Hds. unfold checkEcsService.
  rewrite (bind_Ret _ _ _ _ _ _ (call_run _ _ _ _ Hdesc)). cbv beta iota.
  cbn [Failures Services].
  rewrite (bind_Ret (index0 (svc :: others)) _ _ svc _ [] eq_refl).
  rewrite Hds, checkEcsService_each. reflexivity.
Qed.

(** An API error and a failure reported in the answer are both returned as
    an error, with not-converged, after one log line; the deployments are
    not looked at. *)
Theorem checkEcsService_error (cluster service taskDefArn : string) (w : W) :
  let d := DescribeServices (ecsClient e) cluster [service] w in
  snd (fst d) <> None \/ Failures (fst (fst d)) <> [] ->
  exists msg line,
    checkEcsService e cluster service taskDefArn w
    = Run (Ret (false, Some msg)) (snd d) [EcsDescribeServices cluster [service]; Log line].
Proof.
  intros d Herr. subst d. unfold checkEcsService. unfold bind at 1, call.
  cbn [out world events].
  destruct (fst (DescribeServices (ecsClient e) cluster [service] w)) as [output [msg |]];
    cbn [fst snd] in Herr |- *.
  - eauto.
  - destruct Herr as [Hne | Hne]; [done |].
    destruct (Failures output) as [| f fs]; [done |]. eauto.
Qed.

End Services.

Lemma checkEcsService_running_deployment_witness :
  checkEcsService (Demo.demoEcs "") "ceramic-dev-cas" "ceramic-dev-cas-scheduler"
                  "scheduler:5" tt
  = Run (Ret (false, None)) tt
        [EcsDescribeServices "ceramic-dev-cas" ["ceramic-dev-cas-scheduler"]].
Proof.
  apply (checkEcsService_running_deployment (Demo.demoEcs "") "ceramic-dev-cas"
           "ceramic-dev-cas-scheduler" "scheduler:5"
           (mkEcsService (Some "ceramic-dev-cas-scheduler:1")
              [mkEcsDeployment (Some "scheduler:4") 1; mkEcsDeployment (Some "scheduler:5") 0])
           [] [("scheduler:4", 1); ("scheduler:5", 0)] tt); reflexivity.
Defined.

Lemma checkEcsService_error_witness :
  exists msg line,
    checkEcsService (Demo.brokenEcs true) "ceramic-dev-cas" "ceramic-dev-cas-api" "api:8" tt
    = Run (Ret (false, Some msg)) tt
          [EcsDescribeServices "ceramic-dev-cas" ["ceramic-dev-cas-api"]; Log line].
Proof.
  apply (checkEcsService_error (Demo.brokenEcs true) "ceramic-dev-cas"
           "ceramic-dev-cas-api" "api:8" tt).
  left. discriminate.
Defined.

Lemma CheckTask_all_in_state_witness :
  CheckTask (Demo.demoEcs "") true "ceramic-dev-cas" ["anchor"; "anchor:2"] tt
  = Run (Ret (true, None)) tt [EcsDescribeTasks "ceramic-dev-cas" ["anchor"; "anchor:2"]].
Proof.
  apply (CheckTask_all_in_state (Demo.demoEcs "") true "ceramic-dev-cas"
           ["anchor"; "anchor:2"] ["RUNNING"] tt).
  reflexivity.
Defined.

Section Stopping.
Context {W : Type} {tg : Tagging}.
Variable e : Ecs W.

Local Abbreviation isLog := (fun ev : Event => exists msg, ev = Log msg).

(** The loop of [stopEcsTasks]: it stops the tasks in the order listed, up
    to the first one that cannot be stopped. *)
Lemma stopEcsTasks_each (cluster family : string) (arns : list string) (w : W) :
  let r :=
    (fix each (arns : list string) : Go.M W Event error :=
       match arns with
       | [] => ret None
       | taskArn :: rest =>
           let* err := call (EcsStopTask taskArn cluster)
                            (StopTask (ecsClient e) taskArn cluster) in
           match err with
           | Some msg =>
               let* _ := log ("stopEcsTasks: stop task error: " +:+ cluster +:+ ", "
                              +:+ family +:+ ", " +:+ msg) in
               ret (Some msg)
           | None => each rest
           end
       end) arns w in
  exists stopped logs,
    stopped `prefix_of` arns /\ Forall isLog logs /\
    events r = List.map (fun a => EcsStopTask a cluster) stopped ++ logs /\
    (exists res, out r = Ret res) /\
    (out r = Ret None -> stopped = arns /\ logs = []).
Proof.
  revert w. induction arns as [| taskArn rest IH]; intros w.
  - exists [], []. simpl. repeat split; eauto.
  - cbv zeta. rewrite (bind_Ret _ _ _ _ _ _ (call_run _ _ _ _ eq_refl)).
    destruct (fst (StopTask (ecsClient e) taskArn cluster w)) as [msg |]; cbv beta iota.
    + eexists [taskArn], [Log _]. simpl. split; [by exists rest |].
      split; [repeat constructor; eauto |]. split; [done |]. split; [eauto | discriminate].
    + destruct (IH (snd (StopTask (ecsClient e) taskArn cluster w)))
        as (stopped & logs & Hpre & Hlogs & Hev & Hret & Hok).
      exists (taskArn :: stopped), logs. cbn [out world events].
      split; [by apply prefix_cons |]. split; [done |].
      split; [cbn [List.map app]; f_equal; exact Hev |]. split; [exact Hret |].
      intros Hout. destruct (Hok Hout) as [-> ->]. done.
Qed.


(** [stopEcsTasks] reads and writes no task definition. *)
Lemma stopEcsTasks_no_definition_call (cluster family : string) (w : W) :
  Forall (fun ev => AwsEvents.isDefinitionCall ev = false)
         (events (stopEcsTasks e cluster family w)).
Proof.
  unfold stopEcsTasks.
  destruct (fst (ListTasks (ecsClient e) cluster DesiredStatusRunning family w))
    as [arns [msg |]] eqn:Hlist.
  - rewrite (bind_Ret _ _ _ _ _ _ (call_run _ _ _ _ Hlist)). simpl. by repeat constructor.
  - rewrite (bind_Ret _ _ _ _ _ _ (call_run _ _ _ _ Hlist)). cbv beta iota.
    destruct (stopEcsTasks_each cluster family arns
                (snd (ListTasks (ecsClient e) cluster DesiredStatusRunning family w)))
      as (stopped & logs & _ & Hlogs & Hev & _ & _).
    cbn [events app]. constructor; [done |].
    replace (events _) with (List.map (fun a => EcsStopTask a cluster) stopped ++ logs)
      by (symmetry; exact Hev).
    apply Forall_app. split.
    + apply Forall_forall. intros ev Hin. apply list_elem_of_In, in_map_iff in Hin.
      by destruct Hin as (a & <- & _).
    + eapply Forall_impl; [exact Hlogs |]. by intros ev [msg ->].
Qed.

End Stopping.


Section Order.
Context {W : Type} {tg : Tagging}.
Variable e : Ecs W.

Import AwsEvents.

Lemma stretch_early (P Q : Event -> Prop) (evs : list Event) :
  Forall P evs -> inTwoStretches P Q evs.
Proof. intros Hall. exists evs, []. rewrite app_nil_r. repeat split; [done | constructor]. Qed.

Lemma stretch_late (P Q : Event -> Prop) (evs : list Event) :
  Forall Q evs -> inTwoStretches P Q evs.
Proof. intros Hall. exists [], evs. repeat split; [constructor | done]. Qed.

Lemma stretch_bind {A B} (P Q : Event -> Prop) (m : M W Event A) (k : A -> M W Event B) w :
  Forall P (events (m w)) ->
  (forall a w', inTwoStretches P Q (events (k a w'))) ->
  inTwoStretches P Q (events (bind m k w)).
Proof.
  intros Hm Hk. unfold bind.
  destruct (m w) as [[a | msg] w1 evs]; simpl in *; [| by apply stretch_early].
  destruct (Hk a w1) as (earlier & later & -> & He & Hl).
  exists (evs ++ earlier), later. rewrite app_assoc. repeat split; [| done].
  by apply Forall_app.
Qed.

Lemma stretch_bind_late {A B} (P Q : Event -> Prop) (m : M W Event A)
    (k : A -> M W Event B) w :
  inTwoStretches P Q (events (m w)) ->
  (forall a w', Forall Q (events (k a w'))) ->
  inTwoStretches P Q (events (bind m k w)).
Proof.
  intros (earlier & later & Hev & He & Hl) Hk. unfold bind.
  destruct (m w) as [[a | msg] w1 evs]; simpl in *; subst evs.
  - exists earlier, (later ++ events (k a w1)). rewrite app_assoc.
    repeat split; [done |]. apply Forall_app. split; [done | apply Hk].
  - by exists earlier, later.
Qed.


(** X21.  The plain-task update works the other way round: it stops the running
    tasks before it reads the latest definition and registers the new one,
    so no stop follows a registration. *)
Theorem updateEcsTask_stops_then_registers (cluster family image : string)
    (transientTask : bool) (w : W) :
  inTwoStretches (fun ev => isRegistration ev = false) (fun ev => isStop ev = false)
                 (events (updateEcsTask e cluster family image transientTask w)).
Proof.
  unfold updateEcsTask.
  apply stretch_bind; [by apply events_call_Forall |].
  intros [taskDefinitionArns [msg |]] w1; [apply stretch_early; constructor |].
  apply stretch_bind.
  { destruct transientTask; simpl negb; cbv iota; [constructor |].
    apply events_bind_Forall.
    - eapply Forall_impl; [apply stopEcsTasks_no_definition_call |].
      intros ev Hev. by destruct ev.
    - intros [msg |] w2; simpl; by repeat constructor. }
  intros [msg |] w2; [apply stretch_early; constructor |].
  apply stretch_late.
  apply events_bind_Forall; [apply events_index0_Forall |].
  intros taskDefArn w3. apply updateEcsTaskDefinition_quiet.
Qed.

End Order.

Section Definitions.
Context {W : Type} {tg : Tagging}.
Variable e : Ecs W.

(** X17.  A registration takes over the described definition and changes one
    thing, the image of the first container, which becomes the registry
    prefix followed by the image asked for; the tag is the environment.  The
    identifier returned is that of the registered definition. *)
Theorem updateEcsTaskDefinition_changes_image_only (taskDefArn image : string)
    (taskDef : TaskDefinition) (cd : ContainerDefinition)
    (rest : list ContainerDefinition) (w : W) :
  fst (DescribeTaskDefinition (ecsClient e) taskDefArn w) = (Some taskDef, None) ->
  ContainerDefinitions taskDef = cd :: rest ->
  let w1 := snd (DescribeTaskDefinition (ecsClient e) taskDefArn w) in
  let input :=
    mkRegisterTaskDefinitionInput
      (mkContainerDefinition (Some (ecrUri e +:+ image)) (ContainerSettings cd) :: rest)
      (Family taskDef) (Carried taskDef) [(ResourceTag, env e)] in
  let r := updateEcsTaskDefinition e taskDefArn image w in
  (exists logs, events r = EcsDescribeTaskDefinition taskDefArn
                           :: EcsRegisterTaskDefinition input :: logs) /\
  forall registered newArn,
    fst (RegisterTaskDefinition (ecsClient e) input w1) = (Some registered, None) ->
    TaskDefinitionArn registered = Some newArn ->
    r = Run (Ret (newArn, None)) (snd (RegisterTaskDefinition (ecsClient e) input w1))
            [EcsDescribeTaskDefinition taskDefArn; EcsRegisterTaskDefinition input].
Proof.
  intros Hdesc Hcds w1 input r. subst w1 r. unfold updateEcsTaskDefinition.
  rewrite (bind_Ret _ _ _ _ _ _ (call_run _ _ _ _ Hdesc)). cbv beta iota.
  rewrite (bind_Ret (deref (Some taskDef)) _ _ taskDef _ [] eq_refl).
  rewrite Hcds.
  rewrite (bind_Ret (setFirstImage (ecrUri e +:+ image) (cd :: rest)) _ _ _ _ [] eq_refl).
  fold input.
  destruct (fst (RegisterTaskDefinition (ecsClient e) input
                   (snd (DescribeTaskDefinition (ecsClient e) taskDefArn w))))
    as [registered [msg |]] eqn:Hreg.
  - rewrite (bind_Ret _ _ _ _ _ _ (call_run _ _ _ _ Hreg)). cbv beta iota.
    split; [eexists; reflexivity |]. intros registered0 newArn Heq. discriminate.
  - rewrite (bind_Ret _ _ _ _ _ _ (call_run _ _ _ _ Hreg)). cbv beta iota.
    split.
    + cbn [events app]. unfold bind.
      destruct registered as [reg |]; cbn; [| eexists; reflexivity].
      destruct (TaskDefinitionArn reg); cbn; eexists; reflexivity.
    + intros registered0 newArn Heq Harn. injection Heq as ->.
      rewrite (bind_Ret (deref (Some registered0)) _ _ registered0 _ [] eq_refl).
      rewrite Harn. reflexivity.
Qed.

Lemma describeEcsService_ok (cluster service : string) (output : DescribeServicesOutput)
    (w : W) :
  fst (DescribeServices (ecsClient e) cluster [service] w) = (output, None) ->
  Failures output = [] ->
  describeEcsService e cluster service w
  = Run (Ret (Some output, None)) (snd (DescribeServices (ecsClient e) cluster [service] w))
        [EcsDescribeServices cluster [service]].
Proof.
  intros Hdesc Hf. unfold describeEcsService.
  rewrite (bind_Ret _ _ _ _ _ _ (call_run _ _ _ _ Hdesc)). cbv beta iota.
  rewrite Hf. reflexivity.
Qed.

Lemma updateEcsTaskDefinition_describe_error (taskDefArn image msg : string) (w : W) :
  snd (fst (DescribeTaskDefinition (ecsClient e) taskDefArn w)) = Some msg ->
  updateEcsTaskDefinition e taskDefArn image w
  = Run (Ret ("", Some msg)) (snd (DescribeTaskDefinition (ecsClient e) taskDefArn w))
        [EcsDescribeTaskDefinition taskDefArn;
         Log ("updateEcsTaskDefinition: describe task def error: " +:+ taskDefArn
              +:+ ", " +:+ image +:+ ", " +:+ msg)].
Proof.
  intros Hfail. unfold updateEcsTaskDefinition.
  destruct (fst (DescribeTaskDefinition (ecsClient e) taskDefArn w))
    as [descTaskDefOutput err] eqn:Hd.
  simpl in Hfail. subst err.
  rewrite (bind_Ret _ _ _ _ _ _ (call_run _ _ _ _ Hd)). reflexivity.
Qed.

(** X20.  [updateEcsService] drops the error of [updateEcsTaskDefinition]: when
    the definition cannot be read it still switches the service, to the empty
    definition name, and for a transient unit whose switch is accepted it
    returns the empty identifier without an error. *)
Theorem updateEcsService_ignores_definition_error (cluster service image : string)
    (transientTask : bool) (svc : EcsService) (others : list EcsService)
    (taskDefArn msg : string) (w : W) :
  fst (DescribeServices (ecsClient e) cluster [service] w)
  = (mkDescribeServicesOutput (svc :: others) [], None) ->
  ServiceTaskDefinition svc = Some taskDefArn ->
  let w1 := snd (DescribeServices (ecsClient e) cluster [service] w) in
  snd (fst (DescribeTaskDefinition (ecsClient e) taskDefArn w1)) = Some msg ->
  let w2 := snd (DescribeTaskDefinition (ecsClient e) taskDefArn w1) in
  let input := mkUpdateServiceInput service cluster 1 true false "" in
  let r := updateEcsService e cluster service image transientTask w in
  (exists line rest,
      events r = [EcsDescribeServices cluster [service];
                  EcsDescribeTaskDefinition taskDefArn; Log line;
                  EcsUpdateService input] ++ rest) /\
  (transientTask = true ->
   fst (UpdateService (ecsClient e) input w2) = None ->
   out r = Ret ("", None)).
Proof.
  intros Hdesc Htd w1 Hfail w2 input r. subst w1 w2 r.
  unfold updateEcsService.
  rewrite (bind_Ret _ _ _ _ _ _ (describeEcsService_ok cluster service _ w Hdesc eq_refl)).
  cbv beta iota.
  rewrite (bind_Ret (deref (Some _)) _ _ (mkDescribeServicesOutput (svc :: others) []) _ []
             eq_refl).
  cbn [Services].
  rewrite (bind_Ret (index0 (svc :: others)) _ _ svc _ [] eq_refl).
  rewrite Htd.
  rewrite (bind_Ret (deref (Some taskDefArn)) _ _ taskDefArn _ [] eq_refl).
  rewrite (bind_Ret _ _ _ _ _ _
             (updateEcsTaskDefinition_describe_error taskDefArn image msg _ Hfail)).
  cbv beta iota. fold input.
  rewrite (bind_Ret _ _ _ _ _ _ (call_run _ _ _ _ eq_refl)).
  cbn [out world events app]. split.
  - eexists _, _. reflexivity.
  - intros -> Hupd. rewrite Hupd. reflexivity.
Qed.

(** X22.  When the family has no task definition yet, [updateEcsTask] panics on
    the empty list, and it does so after it has stopped the running tasks of
    a unit that is not transient. *)
Theorem updateEcsTask_without_definition_panics (cluster family image : string)
    (transientTask : bool) (w : W) :
  fst (ListTaskDefinitions (ecsClient e) family 1 SortOrderDesc w) = ([], None) ->
  let w1 := snd (ListTaskDefinitions (ecsClient e) family 1 SortOrderDesc w) in
  (transientTask = true \/ out (stopEcsTasks e cluster family w1) = Ret None) ->
  let r := updateEcsTask e cluster family image transientTask w in
  out r = Panic "index out of range [0] with length 0" /\
  events r = EcsListTaskDefinitions family 1 SortOrderDesc
             :: (if transientTask then [] else events (stopEcsTasks e cluster family w1)).
Proof.
  intros Hlist w1 Hstop r. subst w1 r. unfold updateEcsTask.
  rewrite (bind_Ret _ _ _ _ _ _ (call_run _ _ _ _ Hlist)). cbv beta iota.
  destruct transientTask; cbn [negb].
  - rewrite (bind_Ret (ret None) _ _ None _ [] eq_refl). done.
  - destruct Hstop as [Hne | Hstop]; [discriminate |].
    destruct (stopEcsTasks e cluster family
                (snd (ListTaskDefinitions (ecsClient e) family 1 SortOrderDesc w)))
      as [o w2 evs] eqn:Hrun.
    cbn [out] in Hstop. subst o.
    rewrite (bind_Ret (bind _ _) _ _ None w2 (evs ++ [])).
    2: { rewrite (bind_Ret _ _ _ _ _ _ Hrun). reflexivity. }
    cbv beta iota. unfold bind. cbn. by rewrite !app_nil_r.
Qed.

End Definitions.

Lemma updateEcsTaskDefinition_changes_image_only_witness :
  updateEcsTaskDefinition (tg := Demo.tagging) (Demo.demoEcs "") "api:7"
                          "ceramic-dev-cas:abc123" tt
  = Run (Ret ("api:7+1", None)) tt
        [EcsDescribeTaskDefinition "api:7";
         EcsRegisterTaskDefinition
           (mkRegisterTaskDefinitionInput
              [mkContainerDefinition (Some "ecr/ceramic-dev-cas:abc123") "settings"]
              (Some "api:7") "carried" [("Ceramic", "dev")])].
Proof.
  apply (proj2 (updateEcsTaskDefinition_changes_image_only (tg := Demo.tagging)
                  (Demo.demoEcs "") "api:7" "ceramic-dev-cas:abc123"
                  (mkTaskDefinition [mkContainerDefinition (Some "old-image") "settings"]
                                    (Some "api:7") "carried" (Some "api:7"))
                  (mkContainerDefinition (Some "old-image") "settings") [] tt
                  eq_refl eq_refl)
          (mkTaskDefinition [mkContainerDefinition (Some "ecr/ceramic-dev-cas:abc123")
                                                   "settings"]
                            (Some "api:7") "carried" (Some "api:7+1"))
          "api:7+1" eq_refl eq_refl).
Defined.

Lemma updateEcsService_ignores_definition_error_witness :
  out (updateEcsService (tg := Demo.tagging) (Demo.brokenEcs false) "ceramic-dev-cas"
                        "ceramic-dev-cas-api" "ceramic-dev-cas:abc123" true tt)
  = Ret ("", None).
Proof.
  apply (proj2 (updateEcsService_ignores_definition_error (tg := Demo.tagging)
                  (Demo.brokenEcs false) "ceramic-dev-cas" "ceramic-dev-cas-api"
                  "ceramic-dev-cas:abc123" true
                  (mkEcsService (Some "ceramic-dev-cas-api:1") []) []
                  "ceramic-dev-cas-api:1" "access denied" tt eq_refl eq_refl eq_refl));
    reflexivity.
Defined.

Lemma updateEcsTask_without_definition_panics_witness :
  out (updateEcsTask (tg := Demo.tagging) (Demo.brokenEcs false) "ceramic-dev-cas"
                     "anchor" "runner:abc123" false tt)
  = Panic "index out of range [0] with length 0".
Proof.
  apply (proj1 (updateEcsTask_without_definition_panics (tg := Demo.tagging)
                  (Demo.brokenEcs false) "ceramic-dev-cas" "anchor" "runner:abc123"
                  false tt eq_refl (or_intror eq_refl))).
Defined.

(** The remark on the failed description, at a client that cannot describe
    services. *)
Lemma updateEcsService_describe_error_panics_witness :
  out (updateEcsService (tg := Demo.tagging) (Demo.brokenEcs true) "ceramic-dev-cas"
                        "ceramic-dev-cas-api" "ceramic-dev-cas:abc123" false tt)
  = Panic "invalid memory address or nil pointer dereference".
Proof.
  apply (updateEcsService_describe_error_panics (tg := Demo.tagging) (Demo.brokenEcs true)
           "ceramic-dev-cas" "ceramic-dev-cas-api" "ceramic-dev-cas:abc123" false
           "cluster not found" tt).
  reflexivity.
Defined.

Section Walks.
Context {W : Type} {tg : Tagging}.
Variable e : Ecs W.

Import AwsEvents.

(** X23.  The update phase writes identifiers and nothing else: whether it
    succeeds or not, the layout it leaves has the same clusters and the same
    units, of the same kind, name and repository, with the same [temp] flag,
    in the same order. *)
Theorem UpdateEnv_changes_ids_only (layout layout' : Layout) (commitHash : string)
    (err : error) (w : W) :
  out (UpdateEnv e layout commitHash w) = Ret (layout', err) ->
  Forall2 (fun ut ut' => fst ut' = fst ut /\
                         Repo (snd ut') = Repo (snd ut) /\
                         Temp (snd ut') = Temp (snd ut))
          (units layout) (units layout') /\
  List.map fst (Clusters layout') = List.map fst (Clusters layout) /\
  LayoutRepo layout' = LayoutRepo layout.
Proof.
  intros Hout. split; [| by apply (UpdateEnv_shape e layout layout' commitHash err w)].
  pose proof (UpdateEnv_flat e commitHash layout w) as Hflat.
  unfold mapOut in Hflat. rewrite Hout in Hflat.
  eapply Forall2_impl.
  - apply (range_values (updateUnit e commitHash)
             (fun _ t t' => Repo t' = Repo t /\ Temp t' = Temp t))
      with (w := w) (r := err).
    + intros u t w0 t' r Hu.
      destruct (updateUnit_keeps e commitHash u t t' r w0 Hu) as (Hr & Ht & _). by split.
    + by rewrite Hflat.
  - intros ut ut' [Hk [[Hr Ht] | Heq]]; [by repeat split |].
    rewrite Heq. by repeat split.
Qed.

(** A layout with no service unit and no plain task meant to stay up is
    converged without a single call. *)
Theorem CheckEnv_nothing_to_check (layout : Layout) (w : W) :
  nothingToCheck layout = true ->
  CheckEnv e layout w = Run (Ret (true, None)) w [].
Proof.
  intros Hnone. unfold CheckEnv, bind.
  rewrite (range_skip (CheckEnv_body e) (Clusters layout) w); [done |].
  intros clusterName cluster Hin.
  unfold nothingToCheck in Hnone. rewrite forallb_forall in Hnone.
  specialize (Hnone (clusterName, cluster) (proj1 (list_elem_of_In _ _) Hin)).
  cbn [snd] in Hnone. apply andb_true_iff in Hnone as [Hs Ht].
  assert (Hservices : checkEnvTaskSet e (ServiceTasks cluster) DeployType_Service
                                      clusterName w = Run (Ret (true, None)) w []).
  { unfold checkEnvTaskSet. destruct (ServiceTasks cluster) as [ts |]; [| done].
    destruct (Tasks ts); [done | discriminate]. }
  assert (Htasks : checkEnvTaskSet e (ClusterTasks cluster) DeployType_Task
                                   clusterName w = Run (Ret (true, None)) w []).
  { unfold checkEnvTaskSet. destruct (ClusterTasks cluster) as [ts |]; [| done].
    unfold bind.
    rewrite (range_skip (checkEnvTaskSet_body e DeployType_Task clusterName) (Tasks ts) w);
      [done |].
    intros name task Hin2. rewrite forallb_forall in Ht.
    specialize (Ht (name, task) (proj1 (list_elem_of_In _ _) Hin2)). cbn [snd] in Ht.
    unfold checkEnvTaskSet_body. by rewrite Ht. }
  assert (Hcluster : checkEnvCluster e cluster clusterName w = Run (Ret (true, None)) w []).
  { unfold checkEnvCluster.
    rewrite (bind_Ret _ _ _ _ _ _ Hservices). cbv beta iota. cbn [negb].
    rewrite (bind_Ret _ _ _ _ _ _ Htasks). reflexivity. }
  unfold CheckEnv_body. rewrite (bind_Ret _ _ _ _ _ _ Hcluster). reflexivity.
Qed.

(** X24.  Over plain tasks the check skips the transient ones and decides on the
    first task meant to stay up: its answer is the answer of the task set,
    and the tasks after it are not asked about. *)
Theorem checkEnvTaskSet_first_permanent_task (ts : TaskSet)
    (transient rest : list (string * Task)) (name : string) (task : Task)
    (cluster : string) (w : W) :
  Tasks ts = transient ++ (name, task) :: rest ->
  Forall (fun nt => Temp (snd nt) = true) transient ->
  Temp task = false ->
  checkEnvTaskSet e (Some ts) DeployType_Task cluster w
  = mapOut (fun res => match res with
                       | (_, Some msg) => (false, Some msg)
                       | (deployed, None) => (deployed, None)
                       end)
           (CheckTask e true cluster [name; Id task] w).
Proof.
  intros Hts Htransient Htask.
  assert (Hrange :
    range (checkEnvTaskSet_body e DeployType_Task cluster)
          (transient ++ (name, task) :: rest) w
    = mapOut (fun res => (transient ++ (name, task) :: rest,
                          Some match res with
                               | (_, Some msg) => (false, Some msg)
                               | (deployed, None) => (deployed, None)
                               end))
             (CheckTask e true cluster [name; Id task] w)).
  { rewrite range_app. cbv zeta.
    rewrite (range_skip (checkEnvTaskSet_body e DeployType_Task cluster) transient w).
    2: { intros n t Hin. rewrite Forall_forall in Htransient.
         specialize (Htransient _ Hin). cbn [snd] in Htransient.
         unfold checkEnvTaskSet_body. by rewrite Htransient. }
    cbn [out world events].
    destruct (CheckTask e true cluster [name; Id task] w)
      as [[[deployed [msg |]] | msg] w1 evs] eqn:Hc.
    - assert (Hb : checkEnvTaskSet_body e DeployType_Task cluster name task w
                   = Run (Ret (task, Some (false, Some msg))) w1 (evs ++ [])).
      { unfold checkEnvTaskSet_body. rewrite Htask. cbn [negb].
        by rewrite (bind_Ret _ _ _ _ _ _ Hc). }
      rewrite (range_cons_stop _ _ _ _ _ _ _ _ _ Hb). unfold mapOut.
      cbn [out world events app]. by rewrite !app_nil_r.
    - assert (Hb : checkEnvTaskSet_body e DeployType_Task cluster name task w
                   = Run (Ret (task, Some (deployed, None))) w1 (evs ++ [])).
      { unfold checkEnvTaskSet_body. rewrite Htask. cbn [negb].
        rewrite (bind_Ret _ _ _ _ _ _ Hc). by destruct deployed. }
      rewrite (range_cons_stop _ _ _ _ _ _ _ _ _ Hb). unfold mapOut.
      cbn [out world events app]. by rewrite !app_nil_r.
    - assert (Hb : checkEnvTaskSet_body e DeployType_Task cluster name task w
                   = Run (Panic msg) w1 evs).
      { unfold checkEnvTaskSet_body. rewrite Htask. cbn [negb].
        by rewrite (bind_Panic _ _ _ _ _ _ Hc). }
      by rewrite (range_cons_panic _ _ _ _ _ _ _ _ Hb). }
  unfold checkEnvTaskSet. rewrite Hts. unfold bind. rewrite Hrange. unfold mapOut.
  destruct (CheckTask e true cluster [name; Id task] w)
    as [[[deployed [msg |]] | msg] w1 evs]; cbn [out world events];
    by rewrite ?app_nil_r.
Qed.

End Walks.

Lemma UpdateEnv_changes_ids_only_witness :
  exists layout',
    out (UpdateEnv (tg := Demo.tagging) (Demo.demoEcs "") Demo.casLayout "abc123" tt)
    = Ret (layout', None) /\
    Forall2 (fun ut ut' => fst ut' = fst ut /\
                           Repo (snd ut') = Repo (snd ut) /\
                           Temp (snd ut') = Temp (snd ut))
            (units Demo.casLayout) (units layout').
Proof.
  eexists. split; [vm_compute; reflexivity |].
  exact (proj1 (UpdateEnv_changes_ids_only (tg := Demo.tagging) (Demo.demoEcs "")
                  Demo.casLayout _ "abc123" None tt eq_refl)).
Defined.

Lemma CheckEnv_nothing_to_check_witness :
  let layout :=
    mkLayout [("ceramic-dev-cas",
               mkCluster None
                 (Some (mkTaskSet [("ceramic-dev-cas-anchor",
                                    mkTask "anchor:2" "ceramic-dev-cas-runner" true)] ""))
                 "")] "ceramic-dev-cas" in
  CheckEnv (Demo.demoEcs "") layout tt = Run (Ret (true, None)) tt [].
Proof.
  apply (CheckEnv_nothing_to_check (Demo.demoEcs "")). reflexivity.
Defined.

Lemma checkEnvTaskSet_first_permanent_task_witness :
  let ts := mkTaskSet [("anchor", mkTask "anchor:2" "" true);
                       ("worker", mkTask "worker:1" "" false);
                       ("other", mkTask "other:1" "" false)] "" in
  events (checkEnvTaskSet (Demo.demoEcs "") (Some ts) DeployType_Task "ceramic-dev-cas" tt)
  = [EcsDescribeTasks "ceramic-dev-cas" ["worker"; "worker:1"]].
Proof.
  cbv zeta.
  rewrite (checkEnvTaskSet_first_permanent_task (Demo.demoEcs "")
             (mkTaskSet [("anchor", mkTask "anchor:2" "" true);
                         ("worker", mkTask "worker:1" "" false);
                         ("other", mkTask "other:1" "" false)] "")
             [("anchor", mkTask "anchor:2" "" true)]
             [("other", mkTask "other:1" "" false)]
             "worker" (mkTask "worker:1" "" false) "ceramic-dev-cas" tt eq_refl).
  - reflexivity.
  - by repeat constructor.
  - reflexivity.
Defined.

End AwsMore.

(* ===================================================================== *)
(** ** The layouts resolved, and the images registered                    *)
(* ===================================================================== *)

Module TopologyFacts.
Import Aws Rollout Topology GoFacts AwsFacts.

(** *** Strings with a common prefix *)

Lemma append_cons (x : Ascii.ascii) (a b : string) :
  String x a +:+ b = String x (a +:+ b).
Proof. reflexivity. Qed.

Lemma append_assoc (a b c : string) : (a +:+ b) +:+ c = a +:+ (b +:+ c).
Proof. induction a as [| x a IH]; [done |]. by rewrite !append_cons, IH. Qed.

Lemma append_length (a b : string) :
  String.length (a +:+ b) = (String.length a + String.length b)%nat.
Proof. induction a as [| x a IH]; [done |]. rewrite append_cons. simpl. by rewrite IH. Qed.

Lemma eqb_cons (x : Ascii.ascii) (a b : string) :
  String.eqb (String x a) (String x b) = String.eqb a b.
Proof. simpl. by rewrite Ascii.eqb_refl. Qed.

Lemma eqb_append (s t u : string) : String.eqb (s +:+ t) (s +:+ u) = String.eqb t u.
Proof. induction s as [| x s IH]; [done |]. by rewrite !append_cons, eqb_cons. Qed.

Lemma eqb_append_longer (s t : string) :
  t <> "" -> String.eqb (s +:+ t) s = false.
Proof.
  intros Ht. apply String.eqb_neq. intros Heq.
  apply (f_equal String.length) in Heq. rewrite append_length in Heq.
  destruct t; [done |]. simpl in Heq. lia.
Qed.

Lemma append_nil_l (a : string) : "" +:+ a = a.
Proof. reflexivity. Qed.

(** No environment makes a public service share its name with one of the
    services of the production layout. *)
Ltac no_such_env env_ :=
  let Heq := fresh "Heq" in
  let Hlen := fresh "Hlen" in
  apply String.eqb_neq; intros Heq;
  pose proof (f_equal String.length Heq) as Hlen;
  rewrite append_length in Hlen;
  do 9 (destruct env_ as [| ? env_];
        [rewrite ?append_cons, ?append_nil_l in Heq; simpl in Hlen; congruence |]);
  simpl in Hlen; lia.

Lemma elp_is_no_public_service (env_ : string) :
  String.eqb "elp-1-1-node" (env_ +:+ "-ex-node") = false /\
  String.eqb "elp-1-1-node" (env_ +:+ "-ex-gateway") = false /\
  String.eqb "elp-1-2-node" (env_ +:+ "-ex-node") = false /\
  String.eqb "elp-1-2-node" (env_ +:+ "-ex-gateway") = false /\
  String.eqb "elp-1-1-ipfs-nd" (env_ +:+ "-ex-ipfs-nd") = false /\
  String.eqb "elp-1-1-ipfs-nd" (env_ +:+ "-ex-ipfs-gw") = false /\
  String.eqb "elp-1-2-ipfs-nd" (env_ +:+ "-ex-ipfs-nd") = false /\
  String.eqb "elp-1-2-ipfs-nd" (env_ +:+ "-ex-ipfs-gw") = false.
Proof. repeat split; no_such_env env_. Qed.

(** Writes by key into the map literals, with the keys compared as
    strings that share the prefix [ceramic-<env>]. *)
Ltac resolve_layout env_ H1 H2 H3 H4 :=
  rewrite ?append_assoc; rewrite ?append_cons, ?append_nil_l;
  repeat (progress (cbn [mapSet mapAlter List.map app ServiceTasks ClusterTasks ClusterRepo
                         Tasks TaskSetRepo];
                    rewrite ?eqb_cons, ?eqb_append, ?String.eqb_refl, ?H1, ?H2, ?H3, ?H4,
                      ?(eqb_append_longer env_) by discriminate;
                    cbn [String.eqb Ascii.eqb Bool.eqb]));
  reflexivity.

Section Resolution.
Context {W : Type}.

(** X25.  For the two components that run nodes the layout has three clusters of
    services, named after the environment read when the layout is resolved:
    a private and an anchor cluster with one node each, and a public cluster
    with a node and a gateway.  When the driver was built for production the
    public cluster holds two more services, whose names do not carry the
    environment.  No unit is transient and none has a repository of its own,
    so every unit is deployed from the repository of the layout. *)
Theorem PopulateEnvLayout_node_layout (e : Ecs W) (getenv : string -> string) :
  let env_ := getenv "ENV" in
  let prod := String.eqb (env e) "prod" in
  PopulateEnvLayout e getenv "ceramic"
  = (Some (nodeLayout env_ "node" "gateway"
             (if prod then ["ceramic-elp-1-1-node"; "ceramic-elp-1-2-node"] else [])
             ("ceramic-" +:+ env_)), None) /\
  PopulateEnvLayout e getenv "ipfs"
  = (Some (nodeLayout env_ "ipfs-nd" "ipfs-gw"
             (if prod then ["ceramic-elp-1-1-ipfs-nd"; "ceramic-elp-1-2-ipfs-nd"] else [])
             ("go-ipfs-" +:+ env_)), None).
Proof.
  unfold PopulateEnvLayout, nodeLayout, servicesOnly, serviceSet, addServiceTask. cbv zeta.
  generalize (getenv "ENV"). intros env_.
  destruct (elp_is_no_public_service env_) as (H1 & H2 & H3 & H4 & H5 & H6 & H7 & H8).
  change (String.eqb "ceramic" DeployComponent_Ceramic) with true.
  change (String.eqb "ipfs" DeployComponent_Ceramic) with false.
  change (String.eqb "ipfs" DeployComponent_Ipfs) with true.
  cbv iota. change EnvType_Prod with "prod".
  split; destruct (String.eqb (env e) "prod").
  - resolve_layout env_ H1 H2 H3 H4.
  - resolve_layout env_ H1 H2 H3 H4.
  - resolve_layout env_ H5 H6 H7 H8.
  - resolve_layout env_ H5 H6 H7 H8.
Qed.

(** X26.  A layout is resolved for the components [ceramic], [ipfs] and [cas] and
    for no other: any other component is an error that names it, whatever
    the environment. *)
Theorem PopulateEnvLayout_known_components (e : Ecs W) (getenv : string -> string)
    (component : string) :
  match PopulateEnvLayout e getenv component with
  | (Some _, None) => In component ["ceramic"; "ipfs"; "cas"]
  | (None, Some msg) =>
      ~ In component ["ceramic"; "ipfs"; "cas"] /\
      msg = "deployJob: unexpected component: " +:+ component
  | _ => False
  end.
Proof.
  unfold PopulateEnvLayout. cbv zeta.
  destruct (String.eqb_spec component DeployComponent_Ceramic) as [-> | Hc];
    [simpl; tauto |].
  destruct (String.eqb_spec component DeployComponent_Ipfs) as [-> | Hi];
    [simpl; tauto |].
  destruct (String.eqb_spec component DeployComponent_Cas) as [-> | Ha];
    [simpl; tauto |].
  split; [| done]. simpl. intros [<- | [<- | [<- | []]]]; done.
Qed.

End Resolution.

(** *** The images registered *)

Section Images.
Context {W : Type} {tg : Tagging}.
Variable e : Ecs W.

Local Abbreviation registers image := (registersOneOf (ecrUri e) (env e) [image]).

Lemma updateEcsTaskDefinition_registers (taskDefArn image : string) (w : W) :
  Forall (registers image) (events (updateEcsTaskDefinition e taskDefArn image w)).
Proof.
  unfold updateEcsTaskDefinition.
  apply events_bind_Forall; [by apply events_call_Forall |].
  intros [descTaskDefOutput [msg |]] w1.
  - apply events_bind_Forall; [by apply events_emit_Forall | intros; constructor].
  - apply events_bind_Forall; [apply events_deref_Forall |].
    intros taskDef w2.
    destruct (ContainerDefinitions taskDef) as [| cd rest]; [unfold bind; simpl; constructor |].
    rewrite (bind_Ret (setFirstImage (ecrUri e +:+ image) (cd :: rest)) _ _ _ _ [] eq_refl).
    cbn [app]. apply events_bind_Forall.
    { apply events_call_Forall. split; [done |]. exists image, cd, rest.
      split; [set_solver | done]. }
    intros [regTaskDefOutput [msg |]] w4.
    + apply events_bind_Forall; [by apply events_emit_Forall | intros; constructor].
    + apply events_bind_Forall; [apply events_deref_Forall |].
      intros registered w5. apply events_bind_Forall; [apply events_deref_Forall |].
      intros newArn w6. constructor.
Qed.

Lemma stopEcsTasks_registers (cluster family image : string) (w : W) :
  Forall (registers image) (events (stopEcsTasks e cluster family w)).
Proof.
  eapply Forall_impl; [apply AwsMore.stopEcsTasks_no_definition_call |].
  intros ev Hev. by destruct ev.
Qed.

Lemma describeEcsService_registers (cluster service image : string) (w : W) :
  Forall (registers image) (events (describeEcsService e cluster service w)).
Proof.
  unfold describeEcsService.
  apply events_bind_Forall; [by apply events_call_Forall |].
  intros [output [msg |]] w1.
  - apply events_bind_Forall; [by apply events_emit_Forall | intros; constructor].
  - destruct (Failures output).
    + constructor.
    + apply events_bind_Forall; [by apply events_emit_Forall | intros; constructor].
Qed.

Lemma updateEcsService_registers (cluster service image : string) (transientTask : bool)
    (w : W) :
  Forall (registers image) (events (updateEcsService e cluster service image transientTask w)).
Proof.
  unfold updateEcsService.
  apply events_bind_Forall; [apply describeEcsService_registers |].
  intros [descSvcOutput err0] w1.
  apply events_bind_Forall; [apply events_deref_Forall |]. intros output w2.
  apply events_bind_Forall; [apply events_index0_Forall |]. intros svc w3.
  apply events_bind_Forall; [apply events_deref_Forall |]. intros taskDefArn w4.
  apply events_bind_Forall; [apply updateEcsTaskDefinition_registers |].
  intros [newTaskDefArn err1] w5.
  apply events_bind_Forall; [by apply events_call_Forall |].
  intros [msg |] w6.
  - apply events_bind_Forall; [by apply events_emit_Forall | intros; constructor].
  - destruct transientTask; simpl negb; cbv iota; [constructor |].
    apply events_bind_Forall; [apply stopEcsTasks_registers |].
    intros [msg |] w7; [| constructor].
    apply events_bind_Forall; [by apply events_emit_Forall | intros; constructor].
Qed.

Lemma updateEcsTask_registers (cluster family image : string) (transientTask : bool)
    (w : W) :
  Forall (registers image) (events (updateEcsTask e cluster family image transientTask w)).
Proof.
  unfold updateEcsTask.
  apply events_bind_Forall; [by apply events_call_Forall |].
  intros [taskDefinitionArns [msg |]] w1; [constructor |].
  apply events_bind_Forall.
  { destruct transientTask; simpl negb; cbv iota; [constructor |].
    apply events_bind_Forall; [apply stopEcsTasks_registers |].
    intros [msg |] w2; [| constructor].
    apply events_bind_Forall; [by apply events_emit_Forall | intros; constructor]. }
  intros [msg |] w2; [constructor |].
  apply events_bind_Forall; [apply events_index0_Forall |].
  intros taskDefArn w3. apply updateEcsTaskDefinition_registers.
Qed.

Lemma updateUnit_registers (commitHash : string) (u : Unit) (task : Task) (w : W) :
  Forall (registers (unitRepo u +:+ ":" +:+ commitHash))
         (events (updateUnit e commitHash u task w)).
Proof.
  unfold updateUnit. destruct (unitType u).
  - apply events_bind_Forall; [apply updateEcsService_registers |].
    intros [id [msg |]] w1; constructor.
  - apply events_bind_Forall; [apply updateEcsTask_registers |].
    intros [id [msg |]] w1; constructor.
  - constructor.
Qed.

Lemma registersOneOf_mono (registry environment image : string) (images : list string)
    (ev : Event) :
  image ∈ images ->
  registersOneOf registry environment [image] ev ->
  registersOneOf registry environment images ev.
Proof.
  intros Hin. destruct ev; try done.
  intros (Htags & image' & cd & rest & Hi & Hcds). split; [done |].
  exists image', cd, rest. split; [| done].
  apply list_elem_of_singleton in Hi. by subst image'.
Qed.

Lemma UpdateEnv_registers (layout : Layout) (commitHash : string) (w : W) :
  Forall (registersOneOf (ecrUri e) (env e)
            (List.map (fun ut => unitRepo (fst ut) +:+ ":" +:+ commitHash) (units layout)))
         (events (UpdateEnv e layout commitHash w)).
Proof.
  pose proof (UpdateEnv_flat e commitHash layout w) as Hflat.
  apply (f_equal events) in Hflat. simpl in Hflat. rewrite <- Hflat.
  apply range_events_Forall_in. intros u task Hin w0.
  eapply Forall_impl; [apply updateUnit_registers |].
  intros ev. apply registersOneOf_mono.
  apply list_elem_of_In, in_map_iff. exists (u, task). split; [done |].
  by apply list_elem_of_In.
Qed.

End Images.

Section Built.
Context {W : Type} {tg : Tagging}.

(** X27.  Through a driver built by [NewEcs], every task definition the update
    phase registers has as the image of its first container
    [<account>.dkr.ecr.<region>.amazonaws.com/<repo>:<hash>], where [<repo>]
    is the repository of a unit of the layout, and is tagged with the
    environment the driver was built in. *)
Theorem NewEcs_registers_unit_images (getenv : string -> string) (client : EcsClient W)
    (layout : Layout) (commitHash : string) (w : W) :
  Forall (registersOneOf
            (getenv "AWS_ACCOUNT_ID" +:+ ".dkr.ecr." +:+ getenv "AWS_REGION"
             +:+ ".amazonaws.com/")
            (getenv "ENV")
            (List.map (fun ut => unitRepo (fst ut) +:+ ":" +:+ commitHash) (units layout)))
         (events (UpdateEnv (NewEcs getenv client) layout commitHash w)).
Proof. apply (UpdateEnv_registers (NewEcs getenv client)). Qed.

End Built.

End TopologyFacts.

(* ===================================================================== *)
(** ** Launching a one-off task                                           *)
(* ===================================================================== *)

Module LaunchFacts.
Import Aws Launch GoFacts.

Section Launches.
Context {W : Type} {tg : Tagging} {rt : Runtime}.
Variable e : Launcher W.

Local Abbreviation isLog := (fun ev : Event => exists msg, ev = LaunchLog msg).
Local Abbreviation noRun := (fun ev : Event => isRunTask ev = false).

(** X28.  [runEcsTask] makes one call, for one task of the family in the cluster
    with the network configuration it was given; the environment of the
    named container is overridden only when there is at least one override,
    a nil map and an empty one being the same.  It returns the identifier of
    the first task started, and panics when the service reports no error and
    no task. *)
Theorem runEcsTask_first_task (cluster family container : string)
    (networkConfig : option NetworkConfiguration)
    (overrides : option (list (string * string))) (w : W) :
  let r := runEcsTask e cluster family container networkConfig overrides w in
  exists input logs,
    events r = EcsRunTask input :: logs /\ Forall isLog logs /\
    (RunTaskDefinition input, RunCluster input, RunCount input, RunLaunchType input)
    = (family, cluster, 1, "FARGATE") /\
    RunNetworkConfiguration input = networkConfig /\
    RunOverrides input
    = match overrides with
      | Some (kv :: kvs) => Some (mkTaskOverride [mkContainerOverride container (kv :: kvs)])
      | _ => None
      end /\
    world r = snd (RunTask (launchClient e) input w) /\
    out r = match fst (RunTask (launchClient e) input w) with
            | (_, Some msg) => Ret ("", Some msg)
            | (Some taskArn :: _, None) => Ret (taskArn, None)
            | (None :: _, None) => Panic "invalid memory address or nil pointer dereference"
            | ([], None) => Panic "index out of range [0] with length 0"
            end.
Proof.
  cbv zeta. unfold runEcsTask. cbv zeta.
  match goal with
  | |- context [call (EcsRunTask ?i) _] => set (input := i)
  end.
  assert (Hmap : forall kvs : list (string * string),
             List.map (fun '(k, v) => (k, v)) kvs = kvs).
  { induction kvs as [| [k v] kvs IH]; [done |]. simpl. by rewrite IH. }
  destruct (fst (RunTask (launchClient e) input w)) as [tasks [msg |]] eqn:Hrun.
  - rewrite (bind_Ret _ _ _ _ _ _ (call_run _ _ _ _ Hrun)). cbv beta iota.
    exists input. eexists. rewrite Hrun. split; [reflexivity |].
    split; [repeat constructor; eauto |].
    subst input.
    destruct overrides as [[| [k v] kvs] |]; cbn; rewrite ?Hmap;
      by destruct tasks as [| [arn |] rest].
  - rewrite (bind_Ret _ _ _ _ _ _ (call_run _ _ _ _ Hrun)). cbv beta iota.
    exists input, []. rewrite Hrun. split.
    { destruct tasks as [| [arn |] rest]; reflexivity. }
    split; [constructor |]. subst input.
    destruct overrides as [[| [k v] kvs] |]; cbn; rewrite ?Hmap;
      by destruct tasks as [| [arn |] rest].
Qed.

(** The description a launch reads is the one the rollout reads, the
    network configurations aside: same answer, same world, same calls. *)
Lemma describeEcsService_agrees (a : Aws.Ecs W) (cluster service : string) (w : W) :
  DescribeServices (ecsClient a) cluster [service] w
  = (describedOutput (fst (fst (LaunchDescribe (launchClient e) cluster [service] w))),
     snd (fst (LaunchDescribe (launchClient e) cluster [service] w)),
     snd (LaunchDescribe (launchClient e) cluster [service] w)) ->
  let r := Launch.describeEcsService e cluster service w in
  Aws.describeEcsService a cluster service w
  = Run match out r with
        | Ret (output, err) => Ret (option_map describedOutput output, err)
        | Panic msg => Panic msg
        end
        (world r) (omap rolloutEvent (events r)).
Proof.
  intros Hsame. cbv zeta. unfold Aws.describeEcsService, Launch.describeEcsService.
  destruct (LaunchDescribe (launchClient e) cluster [service] w)
    as [[[services failures] err] w1] eqn:Hl.
  cbn [fst snd] in Hsame.
  assert (Ha : fst (DescribeServices (ecsClient a) cluster [service] w)
               = (describedOutput (mkServicesOutput services failures), err))
    by (by rewrite Hsame).
  assert (Hb : fst (LaunchDescribe (launchClient e) cluster [service] w)
               = (mkServicesOutput services failures, err))
    by (by rewrite Hl).
  rewrite (bind_Ret _ _ _ _ _ _ (call_run _ _ _ _ Ha)).
  rewrite (bind_Ret _ _ _ _ _ _ (call_run _ _ _ _ Hb)).
  rewrite Hsame, Hl. cbv beta iota. cbn [fst snd].
  destruct err as [msg |]; [reflexivity |].
  unfold describedOutput. cbn [Failures OutFailures OutServices].
  destruct failures; reflexivity.
Qed.

Lemma describeEcsService_run (cluster service : string) (w : W) :
  let d := LaunchDescribe (launchClient e) cluster [service] w in
  exists logs,
    Forall isLog logs /\
    describeEcsService e cluster service w
    = Run (Ret match fst d with
               | (_, Some msg) => (None, Some msg)
               | (output, None) =>
                   match OutFailures output with
                   | [] => (Some output, None)
                   | _ :: _ =>
                       (None, Some (fmtFailures (parseEcsFailures (OutFailures output))))
                   end
               end)
          (snd d) (LaunchDescribeServices cluster [service] :: logs) /\
    (logs = [] <-> snd (fst d) = None /\ OutFailures (fst (fst d)) = []).
Proof.
  cbv zeta. unfold describeEcsService.
  destruct (fst (LaunchDescribe (launchClient e) cluster [service] w))
    as [output [msg |]] eqn:Hd.
  - rewrite (bind_Ret _ _ _ _ _ _ (call_run _ _ _ _ Hd)). cbv beta iota.
    eexists [_]. split; [repeat constructor; eauto |]. split; [reflexivity |].
    cbn. split; [discriminate | intros [? _]; discriminate].
  - rewrite (bind_Ret _ _ _ _ _ _ (call_run _ _ _ _ Hd)). cbv beta iota. cbn [fst snd].
    destruct (OutFailures output) as [| f fs].
    + exists []. split; [constructor |]. split; [reflexivity | done].
    + eexists [_]. split; [repeat constructor; eauto |]. split; [reflexivity |].
      split; [discriminate | intros [_ ?]; discriminate].
Qed.

(** X29.  [LaunchServiceTask] runs the task in the network configuration of the
    first service described, after the one call that describes it.  When
    the description fails, by an API error or by a failure in the answer,
    the error is returned and no task is run; an answer without a service
    and without a failure is a panic. *)
Theorem LaunchServiceTask_in_service_network (cluster service family container : string)
    (overrides : option (list (string * string))) (w : W) :
  let d := LaunchDescribe (launchClient e) cluster [service] w in
  let r := LaunchServiceTask e cluster service family container overrides w in
  match fst d with
  | (mkServicesOutput (svc :: _) [], None) =>
      let r' := runEcsTask e cluster family container (ServiceNetworkConfiguration svc)
                           overrides (snd d) in
      r = Run (out r') (world r') (LaunchDescribeServices cluster [service] :: events r')
  | (mkServicesOutput [] [], None) =>
      r = Run (Panic "index out of range [0] with length 0") (snd d)
              [LaunchDescribeServices cluster [service]]
  | _ => (exists msg, out r = Ret ("", Some msg)) /\ Forall noRun (events r)
  end.
Proof.
  cbv zeta. unfold LaunchServiceTask.
  destruct (describeEcsService_run cluster service w) as (logs & Hlogs & Hrun & Hnone).
  rewrite (bind_Ret _ _ _ _ _ _ Hrun). clear Hrun.
  assert (Hquiet : Forall noRun (LaunchDescribeServices cluster [service] :: logs)).
  { constructor; [done |]. eapply Forall_impl; [exact Hlogs |]. by intros ev [msg ->]. }
  destruct (fst (LaunchDescribe (launchClient e) cluster [service] w))
    as [[services failures] [msg |]] eqn:Hd; cbn [fst snd OutFailures] in *.
  - destruct services as [| svc rest]; destruct failures as [| f fs];
      (split; [eexists; reflexivity |]; cbn [events]; by rewrite app_nil_r).
  - destruct failures as [| f fs].
    + assert (logs = []) as -> by (by apply Hnone).
      destruct services as [| svc rest]; [reflexivity |].
      cbv beta iota. unfold bind. cbn [app ret deref index0 out world events OutServices].
      by destruct (runEcsTask e cluster family container (ServiceNetworkConfiguration svc)
                              overrides _) as [o w2 evs].
    + cbv beta iota.
      destruct services as [| svc rest];
        (split; [eexists; reflexivity |]; cbn [events]; by rewrite app_nil_r).
Qed.

(** X30.  [LaunchTask] runs the task in the VPC configuration stored under the
    given parameter, after the one call that reads it.  When the parameter
    cannot be read or its value cannot be decoded, the error is returned
    after one log line and no task is run; an answer without a parameter or
    without a value is a panic. *)
Theorem LaunchTask_in_stored_network (cluster family container vpcConfigParam : string)
    (overrides : option (list (string * string))) (w : W) :
  let g := GetParameter (ssmClient e) vpcConfigParam false w in
  let r := LaunchTask e cluster family container vpcConfigParam overrides w in
  match fst g with
  | (_, Some msg) =>
      (exists line, r = Run (Ret ("", Some msg)) (snd g)
                            [SsmGetParameter vpcConfigParam false; LaunchLog line])
  | (Some (Some value), None) =>
      match Unmarshal value with
      | (_, Some msg) =>
          (exists line, r = Run (Ret ("", Some msg)) (snd g)
                                [SsmGetParameter vpcConfigParam false; LaunchLog line])
      | (vpcConfig, None) =>
          let r' := runEcsTask e cluster family container
                               (Some (mkNetworkConfiguration (Some vpcConfig)))
                               overrides (snd g) in
          r = Run (out r') (world r') (SsmGetParameter vpcConfigParam false :: events r')
      end
  | (_, None) =>
      r = Run (Panic "invalid memory address or nil pointer dereference") (snd g)
              [SsmGetParameter vpcConfigParam false]
  end.
Proof.
  cbv zeta. unfold LaunchTask.
  destruct (fst (GetParameter (ssmClient e) vpcConfigParam false w))
    as [output [msg |]] eqn:Hg.
  - rewrite (bind_Ret _ _ _ _ _ _ (call_run _ _ _ _ Hg)). cbv beta iota.
    destruct output as [[value |] |]; eexists; reflexivity.
  - rewrite (bind_Ret _ _ _ _ _ _ (call_run _ _ _ _ Hg)). cbv beta iota.
    destruct output as [[value |] |]; [| reflexivity | reflexivity].
    rewrite (bind_Ret (deref (Some (Some value))) _ _ (Some value) _ [] eq_refl).
    rewrite (bind_Ret (deref (Some value)) _ _ value _ [] eq_refl).
    cbn [app]. destruct (Unmarshal value) as [vpcConfig [msg |]].
    + eexists. reflexivity.
    + by destruct (runEcsTask e cluster family container _ overrides _) as [o w2 evs].
Qed.

End Launches.

End LaunchFacts.
